(** * Timer page of the speedcubing front end: model and verification

    This development embeds the [SolverPage] component (the timer page) and
    the solve-button guard of the stand-alone [HomePage] component into Rocq
    and proves the properties the specification states about them.  It then
    goes on with what the code shows beyond them: further invariants of the
    timer page, and the session handling of [App], the stand-alone prototype
    that [HomePage] belongs to (module [App]).

    Modelling conventions.
    - The component is a record [Page]: one field per [useState] cell, one per
      [useRef] cell, and the part of the browser and of the backend the
      component talks to (the monotonic clock, the animation-frame queue, the
      pending timeouts, the calls sent to the API client and the calls that
      have not resolved yet).
    - JavaScript numbers that hold times are doubles, kept as the rationals
      they denote ([Q], milliseconds).  A subtraction of the source is
      [double_sub]: the exact difference rounded to the nearest double, ties
      to even ([round64]); [Math.floor] is [Qfloor] and [Math.max] is [Qmax],
      both exact, and so are the comparisons.  The clock may show any
      rational, which includes every reading the browser can give; between
      readings that are not negative the difference is finite, so the
      infinities are not needed.  Handles returned by
      [requestAnimationFrame] and [setTimeout] are integers, [0] meaning
      "none" exactly as in the source.  A string is the sequence of its
      characters and [String.length] is its [.length].
    - An event handler runs to completion, then React commits the render and
      runs the two mirroring effects ([timerStateRef.current = timerState],
      [loadingRef.current = loading]) before the next event is delivered:
      [commit].  Inside a handler a ref keeps the value of the last commit.
    - An [await] splits an async function: the part before it runs inside the
      handler, the part after it runs when the event [Resolve] delivers the
      collaborator's answer.
    - A timeout fires as soon as the clock reaches its due time ([Wait]).  The
      two timeout callbacks of the page read neither the clock nor what the
      other one writes, so the order in which due timeouts run is immaterial.
    - [liveStats] (display only), [spaceDownTimeRef] (written, never read),
      the Refresh button and the clipboard button are left out. *)

From Stdlib Require Import ZArith QArith Qround Qminmax Qpower Lqa List String Bool Lia.
Import ListNotations.

Open Scope list_scope.
Open Scope string_scope.
Open Scope Z_scope.

(** ** Data *)

(** [type TimerState = 'idle' | 'arming' | 'ready' | 'inspection' | 'running' | 'stopped'] *)
Inductive TimerState : Type :=
  | idle | arming | ready | inspection | running | stopped.

Definition TimerState_eqb (a b : TimerState) : bool :=
  match a, b with
  | idle, idle | arming, arming | ready, ready
  | inspection, inspection | running, running | stopped, stopped => true
  | _, _ => false
  end.

Definition INSPECTION_MS : Q := 15000%Q.
Definition LATE_PLUS2_MS : Q := 2000%Q.
Definition ARMING_THRESHOLD_MS : Q := 500%Q.

(** [a > b] on numbers. *)
Definition Qgtb (a b : Q) : bool := negb (Qle_bool a b).

(** ** The arithmetic of JavaScript numbers *)

(** [2 ^ e] *)
Definition pow2 (e : Z) : Q := (2 ^ e)%Q.

(** The binary exponent of a positive number: [2 ^ e <= x < 2 ^ (e + 1)]. *)
Definition ilog2 (x : Q) : Z :=
  let s := Z.log2 (Z.pos (Qden x)) + 1 in
  Z.log2 (Qfloor (x * pow2 s)) - s.

(** The nearest integer, the even one of two that are equally near. *)
Definition round_even (y : Q) : Z :=
  let f := Qfloor y in
  match (y - inject_Z f ?= 1 # 2)%Q with
  | Lt => f
  | Gt => f + 1
  | Eq => if Z.even f then f else f + 1
  end.

(** The double nearest to a positive number: 53 significant bits, and steps
    of [2 ^ -1074] below the smallest normal number. *)
Definition round64_pos (x : Q) : Q :=
  let u := Z.max (ilog2 x - 52) (-1074) in
  (inject_Z (round_even (x * pow2 (- u))) * pow2 u)%Q.

(** The double nearest to [x], in lowest terms. *)
Definition round64 (x : Q) : Q :=
  Qred match Qnum x with
       | Z0 => 0
       | Zpos _ => round64_pos x
       | Zneg _ => - round64_pos (- x)
       end.

(** [a - b] on two numbers. *)
Definition double_sub (a b : Q) : Q := round64 (a - b).

Arguments round64 : simpl never.
Arguments double_sub : simpl never.

(** Truthiness of a number used as a handle ([if (ref.current)]) and of a
    string ([!scrambleState], [scrambleState || undefined]). *)
Definition truthy (n : Z) : bool := negb (n =? 0).
Definition truthy_string (s : string) : bool := negb (String.eqb s "").

(** The two per-frame callbacks: [tick] of [startTimer] and [tick] of
    [startInspection]. *)
Inductive Tick : Type := StopwatchTick | InspectionTick.

(** What the component asked of the animation-frame scheduler, newest first:
    a callback was requested and got handle [h], handle [h] was cancelled, or
    the browser took the callback with handle [h] off its list and ran it. *)
Inductive RafAction : Type :=
  | RafRequest (h : Z) | RafCancel (h : Z) | RafRun (h : Z).

(** The two [setTimeout] callbacks: the arm timer of [handleSpaceDown] and the
    one that clears the saving message. *)
Inductive Callback : Type := ArmCallback | ClearSavingMessage.

Record Timer : Type := mkTimer
  { timer_handle : Z; timer_due : Q; timer_callback : Callback }.

(** Result of [apiClient.scoreSolve]. *)
Record ScoreResult : Type := mkScoreResult
  { res_mlScore : option Q;
    res_scoreVersion : option string;
    res_expectedTimeMs : option Q;
    res_dnfRisk : option Q;
    res_plus2Risk : option Q }.

(** The part of [Solve] the page reads or writes. *)
Record Solve : Type := mkSolve
  { id : Z;
    timeMs : Z;
    mlScore : option Q;
    scoreVersion : option string;
    expectedTimeMs : option Q;
    dnfRisk : option Q;
    plus2Risk : option Q }.

(** Argument of [apiClient.createSolve]; [null] and [undefined] are [None]. *)
Record CreateSolveRequest : Type := mkCreateSolveRequest
  { req_scramble : string;
    req_timeMs : Z;
    req_penalty : option string;
    req_source : string;
    req_event : string;
    req_state : option string }.

(** Calls on the API client. *)
Inductive ApiCall : Type :=
  | createSolve (r : CreateSolveRequest)
  | updateSolve (solveId : Z) (penalty : option string)
  | scoreSolve (solveId : Z)
  | getScramble (event : string)
  | getLiveStats (event : string)
  | getOptimalSolution (state event : string).

(** A call that has not resolved, with what the code after its [await]
    still needs. *)
Inductive Pending : Type :=
  | AwaitCreateSolve (autoPenalty : string)   (* saveSolveImmediately, line 112 *)
  | AwaitAutoScore (solveId : Z)              (* saveSolveImmediately, line 128 *)
  | AwaitScrambleAfterSave                    (* saveSolveImmediately, line 146 *)
  | AwaitUpdateSolve (newPenalty : string)    (* handleUpdateLastSolvePenalty *)
  | AwaitScramble                             (* loadNewScramble on mount or button *)
  | AwaitScore (solveId : Z)                  (* handleScoreSolve *)
  | AwaitOptimalSolution.                     (* handleRevealOptimalSolution *)

(** The async functions that own the [loading] flag: they set it before their
    first [await] and clear it in [finally]. *)
Definition holdsLoading (k : Pending) : bool :=
  match k with
  | AwaitCreateSolve _ | AwaitAutoScore _ | AwaitScrambleAfterSave
  | AwaitUpdateSolve _ => true
  | AwaitScramble | AwaitScore _ | AwaitOptimalSolution => false
  end.

(** The calls of one [saveSolveImmediately]. *)
Definition isSave (k : Pending) : bool :=
  match k with
  | AwaitCreateSolve _ | AwaitAutoScore _ | AwaitScrambleAfterSave => true
  | _ => false
  end.

(** What a collaborator call resolved to; [Failed] is a rejected promise. *)
Inductive Response : Type :=
  | Failed
  | SolveCreated (s : Solve)
  | Scored (r : ScoreResult)
  | ScrambleLoaded (scr st : string)
  | Updated
  | OptimalFound (moves : list string).

(** ** The component *)

Record Page : Type := Build_Page
  { (* useState *)
    scramble : string;
    scrambleState : string;
    timerState : TimerState;
    currentTime : Z;
    lastSolve : option Solve;
    inspectionEnabled : bool;
    lastSolvePenalty : string;
    loading : bool;
    error : string;
    savingMessage : string;
    optimalSolutionMoves : option (list string);
    solutionLoading : bool;
    inspectionMsLeft : Q;
    inspectionOverMs : Q;
    (* useRef *)
    startTimeRef : Q;
    animationFrameRef : Z;
    armingTimeoutRef : Z;
    inspectionStartRef : Q;
    inspectionRafRef : Z;
    timerStateRef : TimerState;
    loadingRef : bool;
    (* browser *)
    performance_now : Q;            (* performance.now() *)
    rafQueue : list (Z * Tick);     (* callbacks waiting for the next frame *)
    nextRaf : Z;                    (* next handle of requestAnimationFrame *)
    rafLog : list RafAction;
    timers : list Timer;            (* timeouts that have not fired *)
    nextTimer : Z;                  (* next handle of setTimeout *)
    (* backend *)
    calls : list ApiCall;           (* every call issued, oldest first *)
    pending : list Pending;         (* calls that have not resolved *)
    localStorage : option string    (* localStorage.getItem('inspectionEnabled') *)
  }.

(** Field updates.  The [useState] cells are updated by the setters of the
    source, the others by [set_<field>]. *)

Definition setScramble (v : string) (p : Page) : Page :=
  Build_Page v (scrambleState p) (timerState p) (currentTime p) (lastSolve p)
    (inspectionEnabled p) (lastSolvePenalty p) (loading p) (error p)
    (savingMessage p) (optimalSolutionMoves p) (solutionLoading p)
    (inspectionMsLeft p) (inspectionOverMs p) (startTimeRef p)
    (animationFrameRef p) (armingTimeoutRef p) (inspectionStartRef p)
    (inspectionRafRef p) (timerStateRef p) (loadingRef p) (performance_now p)
    (rafQueue p) (nextRaf p) (rafLog p) (timers p) (nextTimer p) (calls p)
    (pending p) (localStorage p).

Definition setScrambleState (v : string) (p : Page) : Page :=
  Build_Page (scramble p) v (timerState p) (currentTime p) (lastSolve p)
    (inspectionEnabled p) (lastSolvePenalty p) (loading p) (error p)
    (savingMessage p) (optimalSolutionMoves p) (solutionLoading p)
    (inspectionMsLeft p) (inspectionOverMs p) (startTimeRef p)
    (animationFrameRef p) (armingTimeoutRef p) (inspectionStartRef p)
    (inspectionRafRef p) (timerStateRef p) (loadingRef p) (performance_now p)
    (rafQueue p) (nextRaf p) (rafLog p) (timers p) (nextTimer p) (calls p)
    (pending p) (localStorage p).

Definition setTimerState (v : TimerState) (p : Page) : Page :=
  Build_Page (scramble p) (scrambleState p) v (currentTime p) (lastSolve p)
    (inspectionEnabled p) (lastSolvePenalty p) (loading p) (error p)
    (savingMessage p) (optimalSolutionMoves p) (solutionLoading p)
    (inspectionMsLeft p) (inspectionOverMs p) (startTimeRef p)
    (animationFrameRef p) (armingTimeoutRef p) (inspectionStartRef p)
    (inspectionRafRef p) (timerStateRef p) (loadingRef p) (performance_now p)
    (rafQueue p) (nextRaf p) (rafLog p) (timers p) (nextTimer p) (calls p)
    (pending p) (localStorage p).

Definition setCurrentTime (v : Z) (p : Page) : Page :=
  Build_Page (scramble p) (scrambleState p) (timerState p) v (lastSolve p)
    (inspectionEnabled p) (lastSolvePenalty p) (loading p) (error p)
    (savingMessage p) (optimalSolutionMoves p) (solutionLoading p)
    (inspectionMsLeft p) (inspectionOverMs p) (startTimeRef p)
    (animationFrameRef p) (armingTimeoutRef p) (inspectionStartRef p)
    (inspectionRafRef p) (timerStateRef p) (loadingRef p) (performance_now p)
    (rafQueue p) (nextRaf p) (rafLog p) (timers p) (nextTimer p) (calls p)
    (pending p) (localStorage p).

Definition setLastSolve (v : option Solve) (p : Page) : Page :=
  Build_Page (scramble p) (scrambleState p) (timerState p) (currentTime p) v
    (inspectionEnabled p) (lastSolvePenalty p) (loading p) (error p)
    (savingMessage p) (optimalSolutionMoves p) (solutionLoading p)
    (inspectionMsLeft p) (inspectionOverMs p) (startTimeRef p)
    (animationFrameRef p) (armingTimeoutRef p) (inspectionStartRef p)
    (inspectionRafRef p) (timerStateRef p) (loadingRef p) (performance_now p)
    (rafQueue p) (nextRaf p) (rafLog p) (timers p) (nextTimer p) (calls p)
    (pending p) (localStorage p).

Definition setInspectionEnabled (v : bool) (p : Page) : Page :=
  Build_Page (scramble p) (scrambleState p) (timerState p) (currentTime p)
    (lastSolve p) v (lastSolvePenalty p) (loading p) (error p) (savingMessage
    p) (optimalSolutionMoves p) (solutionLoading p) (inspectionMsLeft p)
    (inspectionOverMs p) (startTimeRef p) (animationFrameRef p)
    (armingTimeoutRef p) (inspectionStartRef p) (inspectionRafRef p)
    (timerStateRef p) (loadingRef p) (performance_now p) (rafQueue p) (nextRaf
    p) (rafLog p) (timers p) (nextTimer p) (calls p) (pending p) (localStorage
    p).

Definition setLastSolvePenalty (v : string) (p : Page) : Page :=
  Build_Page (scramble p) (scrambleState p) (timerState p) (currentTime p)
    (lastSolve p) (inspectionEnabled p) v (loading p) (error p) (savingMessage
    p) (optimalSolutionMoves p) (solutionLoading p) (inspectionMsLeft p)
    (inspectionOverMs p) (startTimeRef p) (animationFrameRef p)
    (armingTimeoutRef p) (inspectionStartRef p) (inspectionRafRef p)
    (timerStateRef p) (loadingRef p) (performance_now p) (rafQueue p) (nextRaf
    p) (rafLog p) (timers p) (nextTimer p) (calls p) (pending p) (localStorage
    p).

Definition setLoading (v : bool) (p : Page) : Page :=
  Build_Page (scramble p) (scrambleState p) (timerState p) (currentTime p)
    (lastSolve p) (inspectionEnabled p) (lastSolvePenalty p) v (error p)
    (savingMessage p) (optimalSolutionMoves p) (solutionLoading p)
    (inspectionMsLeft p) (inspectionOverMs p) (startTimeRef p)
    (animationFrameRef p) (armingTimeoutRef p) (inspectionStartRef p)
    (inspectionRafRef p) (timerStateRef p) (loadingRef p) (performance_now p)
    (rafQueue p) (nextRaf p) (rafLog p) (timers p) (nextTimer p) (calls p)
    (pending p) (localStorage p).

Definition setError (v : string) (p : Page) : Page :=
  Build_Page (scramble p) (scrambleState p) (timerState p) (currentTime p)
    (lastSolve p) (inspectionEnabled p) (lastSolvePenalty p) (loading p) v
    (savingMessage p) (optimalSolutionMoves p) (solutionLoading p)
    (inspectionMsLeft p) (inspectionOverMs p) (startTimeRef p)
    (animationFrameRef p) (armingTimeoutRef p) (inspectionStartRef p)
    (inspectionRafRef p) (timerStateRef p) (loadingRef p) (performance_now p)
    (rafQueue p) (nextRaf p) (rafLog p) (timers p) (nextTimer p) (calls p)
    (pending p) (localStorage p).

Definition setSavingMessage (v : string) (p : Page) : Page :=
  Build_Page (scramble p) (scrambleState p) (timerState p) (currentTime p)
    (lastSolve p) (inspectionEnabled p) (lastSolvePenalty p) (loading p)
    (error p) v (optimalSolutionMoves p) (solutionLoading p) (inspectionMsLeft
    p) (inspectionOverMs p) (startTimeRef p) (animationFrameRef p)
    (armingTimeoutRef p) (inspectionStartRef p) (inspectionRafRef p)
    (timerStateRef p) (loadingRef p) (performance_now p) (rafQueue p) (nextRaf
    p) (rafLog p) (timers p) (nextTimer p) (calls p) (pending p) (localStorage
    p).

Definition setOptimalSolutionMoves (v : option (list string)) (p : Page) : Page :=
  Build_Page (scramble p) (scrambleState p) (timerState p) (currentTime p)
    (lastSolve p) (inspectionEnabled p) (lastSolvePenalty p) (loading p)
    (error p) (savingMessage p) v (solutionLoading p) (inspectionMsLeft p)
    (inspectionOverMs p) (startTimeRef p) (animationFrameRef p)
    (armingTimeoutRef p) (inspectionStartRef p) (inspectionRafRef p)
    (timerStateRef p) (loadingRef p) (performance_now p) (rafQueue p) (nextRaf
    p) (rafLog p) (timers p) (nextTimer p) (calls p) (pending p) (localStorage
    p).

Definition setSolutionLoading (v : bool) (p : Page) : Page :=
  Build_Page (scramble p) (scrambleState p) (timerState p) (currentTime p)
    (lastSolve p) (inspectionEnabled p) (lastSolvePenalty p) (loading p)
    (error p) (savingMessage p) (optimalSolutionMoves p) v (inspectionMsLeft
    p) (inspectionOverMs p) (startTimeRef p) (animationFrameRef p)
    (armingTimeoutRef p) (inspectionStartRef p) (inspectionRafRef p)
    (timerStateRef p) (loadingRef p) (performance_now p) (rafQueue p) (nextRaf
    p) (rafLog p) (timers p) (nextTimer p) (calls p) (pending p) (localStorage
    p).

Definition setInspectionMsLeft (v : Q) (p : Page) : Page :=
  Build_Page (scramble p) (scrambleState p) (timerState p) (currentTime p)
    (lastSolve p) (inspectionEnabled p) (lastSolvePenalty p) (loading p)
    (error p) (savingMessage p) (optimalSolutionMoves p) (solutionLoading p) v
    (inspectionOverMs p) (startTimeRef p) (animationFrameRef p)
    (armingTimeoutRef p) (inspectionStartRef p) (inspectionRafRef p)
    (timerStateRef p) (loadingRef p) (performance_now p) (rafQueue p) (nextRaf
    p) (rafLog p) (timers p) (nextTimer p) (calls p) (pending p) (localStorage
    p).

Definition setInspectionOverMs (v : Q) (p : Page) : Page :=
  Build_Page (scramble p) (scrambleState p) (timerState p) (currentTime p)
    (lastSolve p) (inspectionEnabled p) (lastSolvePenalty p) (loading p)
    (error p) (savingMessage p) (optimalSolutionMoves p) (solutionLoading p)
    (inspectionMsLeft p) v (startTimeRef p) (animationFrameRef p)
    (armingTimeoutRef p) (inspectionStartRef p) (inspectionRafRef p)
    (timerStateRef p) (loadingRef p) (performance_now p) (rafQueue p) (nextRaf
    p) (rafLog p) (timers p) (nextTimer p) (calls p) (pending p) (localStorage
    p).

Definition set_startTimeRef (v : Q) (p : Page) : Page :=
  Build_Page (scramble p) (scrambleState p) (timerState p) (currentTime p)
    (lastSolve p) (inspectionEnabled p) (lastSolvePenalty p) (loading p)
    (error p) (savingMessage p) (optimalSolutionMoves p) (solutionLoading p)
    (inspectionMsLeft p) (inspectionOverMs p) v (animationFrameRef p)
    (armingTimeoutRef p) (inspectionStartRef p) (inspectionRafRef p)
    (timerStateRef p) (loadingRef p) (performance_now p) (rafQueue p) (nextRaf
    p) (rafLog p) (timers p) (nextTimer p) (calls p) (pending p) (localStorage
    p).

Definition set_animationFrameRef (v : Z) (p : Page) : Page :=
  Build_Page (scramble p) (scrambleState p) (timerState p) (currentTime p)
    (lastSolve p) (inspectionEnabled p) (lastSolvePenalty p) (loading p)
    (error p) (savingMessage p) (optimalSolutionMoves p) (solutionLoading p)
    (inspectionMsLeft p) (inspectionOverMs p) (startTimeRef p) v
    (armingTimeoutRef p) (inspectionStartRef p) (inspectionRafRef p)
    (timerStateRef p) (loadingRef p) (performance_now p) (rafQueue p) (nextRaf
    p) (rafLog p) (timers p) (nextTimer p) (calls p) (pending p) (localStorage
    p).

Definition set_armingTimeoutRef (v : Z) (p : Page) : Page :=
  Build_Page (scramble p) (scrambleState p) (timerState p) (currentTime p)
    (lastSolve p) (inspectionEnabled p) (lastSolvePenalty p) (loading p)
    (error p) (savingMessage p) (optimalSolutionMoves p) (solutionLoading p)
    (inspectionMsLeft p) (inspectionOverMs p) (startTimeRef p)
    (animationFrameRef p) v (inspectionStartRef p) (inspectionRafRef p)
    (timerStateRef p) (loadingRef p) (performance_now p) (rafQueue p) (nextRaf
    p) (rafLog p) (timers p) (nextTimer p) (calls p) (pending p) (localStorage
    p).

Definition set_inspectionStartRef (v : Q) (p : Page) : Page :=
  Build_Page (scramble p) (scrambleState p) (timerState p) (currentTime p)
    (lastSolve p) (inspectionEnabled p) (lastSolvePenalty p) (loading p)
    (error p) (savingMessage p) (optimalSolutionMoves p) (solutionLoading p)
    (inspectionMsLeft p) (inspectionOverMs p) (startTimeRef p)
    (animationFrameRef p) (armingTimeoutRef p) v (inspectionRafRef p)
    (timerStateRef p) (loadingRef p) (performance_now p) (rafQueue p) (nextRaf
    p) (rafLog p) (timers p) (nextTimer p) (calls p) (pending p) (localStorage
    p).

Definition set_inspectionRafRef (v : Z) (p : Page) : Page :=
  Build_Page (scramble p) (scrambleState p) (timerState p) (currentTime p)
    (lastSolve p) (inspectionEnabled p) (lastSolvePenalty p) (loading p)
    (error p) (savingMessage p) (optimalSolutionMoves p) (solutionLoading p)
    (inspectionMsLeft p) (inspectionOverMs p) (startTimeRef p)
    (animationFrameRef p) (armingTimeoutRef p) (inspectionStartRef p) v
    (timerStateRef p) (loadingRef p) (performance_now p) (rafQueue p) (nextRaf
    p) (rafLog p) (timers p) (nextTimer p) (calls p) (pending p) (localStorage
    p).

Definition set_timerStateRef (v : TimerState) (p : Page) : Page :=
  Build_Page (scramble p) (scrambleState p) (timerState p) (currentTime p)
    (lastSolve p) (inspectionEnabled p) (lastSolvePenalty p) (loading p)
    (error p) (savingMessage p) (optimalSolutionMoves p) (solutionLoading p)
    (inspectionMsLeft p) (inspectionOverMs p) (startTimeRef p)
    (animationFrameRef p) (armingTimeoutRef p) (inspectionStartRef p)
    (inspectionRafRef p) v (loadingRef p) (performance_now p) (rafQueue p)
    (nextRaf p) (rafLog p) (timers p) (nextTimer p) (calls p) (pending p)
    (localStorage p).

Definition set_loadingRef (v : bool) (p : Page) : Page :=
  Build_Page (scramble p) (scrambleState p) (timerState p) (currentTime p)
    (lastSolve p) (inspectionEnabled p) (lastSolvePenalty p) (loading p)
    (error p) (savingMessage p) (optimalSolutionMoves p) (solutionLoading p)
    (inspectionMsLeft p) (inspectionOverMs p) (startTimeRef p)
    (animationFrameRef p) (armingTimeoutRef p) (inspectionStartRef p)
    (inspectionRafRef p) (timerStateRef p) v (performance_now p) (rafQueue p)
    (nextRaf p) (rafLog p) (timers p) (nextTimer p) (calls p) (pending p)
    (localStorage p).

Definition set_performance_now (v : Q) (p : Page) : Page :=
  Build_Page (scramble p) (scrambleState p) (timerState p) (currentTime p)
    (lastSolve p) (inspectionEnabled p) (lastSolvePenalty p) (loading p)
    (error p) (savingMessage p) (optimalSolutionMoves p) (solutionLoading p)
    (inspectionMsLeft p) (inspectionOverMs p) (startTimeRef p)
    (animationFrameRef p) (armingTimeoutRef p) (inspectionStartRef p)
    (inspectionRafRef p) (timerStateRef p) (loadingRef p) v (rafQueue p)
    (nextRaf p) (rafLog p) (timers p) (nextTimer p) (calls p) (pending p)
    (localStorage p).

Definition set_rafQueue (v : list (Z * Tick)) (p : Page) : Page :=
  Build_Page (scramble p) (scrambleState p) (timerState p) (currentTime p)
    (lastSolve p) (inspectionEnabled p) (lastSolvePenalty p) (loading p)
    (error p) (savingMessage p) (optimalSolutionMoves p) (solutionLoading p)
    (inspectionMsLeft p) (inspectionOverMs p) (startTimeRef p)
    (animationFrameRef p) (armingTimeoutRef p) (inspectionStartRef p)
    (inspectionRafRef p) (timerStateRef p) (loadingRef p) (performance_now p)
    v (nextRaf p) (rafLog p) (timers p) (nextTimer p) (calls p) (pending p)
    (localStorage p).

Definition set_nextRaf (v : Z) (p : Page) : Page :=
  Build_Page (scramble p) (scrambleState p) (timerState p) (currentTime p)
    (lastSolve p) (inspectionEnabled p) (lastSolvePenalty p) (loading p)
    (error p) (savingMessage p) (optimalSolutionMoves p) (solutionLoading p)
    (inspectionMsLeft p) (inspectionOverMs p) (startTimeRef p)
    (animationFrameRef p) (armingTimeoutRef p) (inspectionStartRef p)
    (inspectionRafRef p) (timerStateRef p) (loadingRef p) (performance_now p)
    (rafQueue p) v (rafLog p) (timers p) (nextTimer p) (calls p) (pending p)
    (localStorage p).

Definition set_rafLog (v : list RafAction) (p : Page) : Page :=
  Build_Page (scramble p) (scrambleState p) (timerState p) (currentTime p)
    (lastSolve p) (inspectionEnabled p) (lastSolvePenalty p) (loading p)
    (error p) (savingMessage p) (optimalSolutionMoves p) (solutionLoading p)
    (inspectionMsLeft p) (inspectionOverMs p) (startTimeRef p)
    (animationFrameRef p) (armingTimeoutRef p) (inspectionStartRef p)
    (inspectionRafRef p) (timerStateRef p) (loadingRef p) (performance_now p)
    (rafQueue p) (nextRaf p) v (timers p) (nextTimer p) (calls p) (pending p)
    (localStorage p).

Definition set_timers (v : list Timer) (p : Page) : Page :=
  Build_Page (scramble p) (scrambleState p) (timerState p) (currentTime p)
    (lastSolve p) (inspectionEnabled p) (lastSolvePenalty p) (loading p)
    (error p) (savingMessage p) (optimalSolutionMoves p) (solutionLoading p)
    (inspectionMsLeft p) (inspectionOverMs p) (startTimeRef p)
    (animationFrameRef p) (armingTimeoutRef p) (inspectionStartRef p)
    (inspectionRafRef p) (timerStateRef p) (loadingRef p) (performance_now p)
    (rafQueue p) (nextRaf p) (rafLog p) v (nextTimer p) (calls p) (pending p)
    (localStorage p).

Definition set_nextTimer (v : Z) (p : Page) : Page :=
  Build_Page (scramble p) (scrambleState p) (timerState p) (currentTime p)
    (lastSolve p) (inspectionEnabled p) (lastSolvePenalty p) (loading p)
    (error p) (savingMessage p) (optimalSolutionMoves p) (solutionLoading p)
    (inspectionMsLeft p) (inspectionOverMs p) (startTimeRef p)
    (animationFrameRef p) (armingTimeoutRef p) (inspectionStartRef p)
    (inspectionRafRef p) (timerStateRef p) (loadingRef p) (performance_now p)
    (rafQueue p) (nextRaf p) (rafLog p) (timers p) v (calls p) (pending p)
    (localStorage p).

Definition set_calls (v : list ApiCall) (p : Page) : Page :=
  Build_Page (scramble p) (scrambleState p) (timerState p) (currentTime p)
    (lastSolve p) (inspectionEnabled p) (lastSolvePenalty p) (loading p)
    (error p) (savingMessage p) (optimalSolutionMoves p) (solutionLoading p)
    (inspectionMsLeft p) (inspectionOverMs p) (startTimeRef p)
    (animationFrameRef p) (armingTimeoutRef p) (inspectionStartRef p)
    (inspectionRafRef p) (timerStateRef p) (loadingRef p) (performance_now p)
    (rafQueue p) (nextRaf p) (rafLog p) (timers p) (nextTimer p) v (pending p)
    (localStorage p).

Definition set_pending (v : list Pending) (p : Page) : Page :=
  Build_Page (scramble p) (scrambleState p) (timerState p) (currentTime p)
    (lastSolve p) (inspectionEnabled p) (lastSolvePenalty p) (loading p)
    (error p) (savingMessage p) (optimalSolutionMoves p) (solutionLoading p)
    (inspectionMsLeft p) (inspectionOverMs p) (startTimeRef p)
    (animationFrameRef p) (armingTimeoutRef p) (inspectionStartRef p)
    (inspectionRafRef p) (timerStateRef p) (loadingRef p) (performance_now p)
    (rafQueue p) (nextRaf p) (rafLog p) (timers p) (nextTimer p) (calls p) v
    (localStorage p).

Definition set_localStorage (v : option string) (p : Page) : Page :=
  Build_Page (scramble p) (scrambleState p) (timerState p) (currentTime p)
    (lastSolve p) (inspectionEnabled p) (lastSolvePenalty p) (loading p)
    (error p) (savingMessage p) (optimalSolutionMoves p) (solutionLoading p)
    (inspectionMsLeft p) (inspectionOverMs p) (startTimeRef p)
    (animationFrameRef p) (armingTimeoutRef p) (inspectionStartRef p)
    (inspectionRafRef p) (timerStateRef p) (loadingRef p) (performance_now p)
    (rafQueue p) (nextRaf p) (rafLog p) (timers p) (nextTimer p) (calls p)
    (pending p) v.

(** Statements of a handler are chained left to right. *)
Notation "p |> f" := (f p) (at level 45, left associativity, only parsing).

(** React commits the render and runs the effects of lines 52-58. *)
Definition commit (p : Page) : Page :=
  p |> set_timerStateRef (timerState p) |> set_loadingRef (loading p).

(** ** Browser and backend primitives *)

Definition requestAnimationFrame (k : Tick) (p : Page) : Z * Page :=
  let h := nextRaf p in
  (h, p |> set_rafQueue (rafQueue p ++ [(h, k)])%list
        |> set_nextRaf (h + 1)
        |> set_rafLog (RafRequest h :: rafLog p)).

Definition cancelAnimationFrame (h : Z) (p : Page) : Page :=
  p |> set_rafQueue (filter (fun e => negb (fst e =? h)) (rafQueue p))
    |> set_rafLog (RafCancel h :: rafLog p).

Definition setTimeout (cb : Callback) (delay : Q) (p : Page) : Z * Page :=
  let h := nextTimer p in
  (h, p |> set_timers (timers p ++ [mkTimer h (performance_now p + delay)%Q cb])%list
        |> set_nextTimer (h + 1)).

Definition clearTimeout (h : Z) (p : Page) : Page :=
  p |> set_timers (filter (fun t => negb (timer_handle t =? h)) (timers p)).

(** Issue a call and suspend at its [await]. *)
Definition apiCall (c : ApiCall) (k : Pending) (p : Page) : Page :=
  p |> set_calls (calls p ++ [c])%list |> set_pending (pending p ++ [k])%list.

(** ** Functions of the component *)

(** [penalty: autoPenalty === 'OK' ? null : autoPenalty] (lines 115 and 361). *)
Definition penaltyField (penalty : string) : option string :=
  if String.eqb penalty "OK" then None else Some penalty.

(** [toggleInspection] *)
Definition toggleInspection (p : Page) : Page :=
  let next := negb (inspectionEnabled p) in
  p |> set_localStorage (Some (if next then "true" else "false"))
    |> setInspectionEnabled next.

(** [loadNewScramble] up to its [await]; [k] says who awaits the scramble. *)
Definition loadNewScramble (k : Pending) (p : Page) : Page :=
  p |> setError "" |> setOptimalSolutionMoves None
    |> apiCall (getScramble "3x3") k.

(** [loadStats]: the call is issued; its answer only feeds [liveStats]. *)
Definition loadStats (p : Page) : Page :=
  p |> set_calls (calls p ++ [getLiveStats "3x3"])%list.

(** [saveSolveImmediately] up to [await apiClient.createSolve]. *)
Definition saveSolveImmediately (finalTime : Z) (autoPenalty : string)
    (p : Page) : Page :=
  p |> setLoading true |> setSavingMessage "Saving..." |> setError ""
    |> apiCall
         (createSolve
            {| req_scramble := scramble p;
               req_timeMs := finalTime;
               req_penalty := penaltyField autoPenalty;
               req_source := "timer";
               req_event := "3x3";
               req_state := if truthy_string (scrambleState p)
                            then Some (scrambleState p) else None |})
         (AwaitCreateSolve autoPenalty).

(** [stopInspection] *)
Definition stopInspection (p : Page) : Page :=
  if truthy (inspectionRafRef p)
  then p |> cancelAnimationFrame (inspectionRafRef p) |> set_inspectionRafRef 0
  else p.

(** The block [if (animationFrameRef.current) { cancelAnimationFrame(...);
    animationFrameRef.current = 0; }] of [startTimer], [startInspection] and
    [stopTimer]. *)
Definition cancelStopwatch (p : Page) : Page :=
  if truthy (animationFrameRef p)
  then p |> cancelAnimationFrame (animationFrameRef p) |> set_animationFrameRef 0
  else p.

(** [startTimer] after its two guards: lines 175-185. *)
Definition startTimer_issue (p : Page) : Page :=
  let p := p |> set_startTimeRef (performance_now p)
             |> setTimerState running |> setCurrentTime 0 in
  let (h, p) := requestAnimationFrame StopwatchTick p in
  p |> set_animationFrameRef h.

Definition startTimer (p : Page) : Page :=
  if loadingRef p then p else
  p |> cancelStopwatch |> startTimer_issue.

(** [startInspection] after its guards: lines 198-216. *)
Definition startInspection_issue (p : Page) : Page :=
  let p := p |> set_inspectionStartRef (performance_now p)
             |> setInspectionMsLeft INSPECTION_MS
             |> setInspectionOverMs 0%Q
             |> setTimerState inspection in
  let (h, p) := requestAnimationFrame InspectionTick p in
  p |> set_inspectionRafRef h.

Definition startInspection (p : Page) : Page :=
  if loadingRef p then p else
  p |> cancelStopwatch |> stopInspection |> startInspection_issue.

(** The bodies of the two [tick] closures. *)
Definition tick (k : Tick) (p : Page) : Page :=
  match k with
  | StopwatchTick =>
      let elapsed := double_sub (performance_now p) (startTimeRef p) in
      let p := p |> setCurrentTime (Qfloor elapsed) in
      let (h, p) := requestAnimationFrame StopwatchTick p in
      p |> set_animationFrameRef h
  | InspectionTick =>
      let now := performance_now p in
      let elapsed := double_sub now (inspectionStartRef p) in
      let left := Qmax 0 (double_sub INSPECTION_MS elapsed) in
      let over := Qmax 0 (double_sub elapsed INSPECTION_MS) in
      let p := p |> setInspectionMsLeft left |> setInspectionOverMs over in
      let (h, p) := requestAnimationFrame InspectionTick p in
      p |> set_inspectionRafRef h
  end.

(** [beginSolveFromInspection] *)
Definition beginSolveFromInspection (p : Page) : Page :=
  if loadingRef p then p else
  p |> stopInspection |> startTimer.

(** The penalty [stopTimer] derives (lines 236-241). *)
Definition autoPenaltyOf (enabled : bool) (overMs : Q) : string :=
  if enabled && Qgtb overMs LATE_PLUS2_MS then "DNF"
  else if enabled && Qgtb overMs 0 then "+2"
  else "OK".

(** [stopTimer] after the stopwatch loop is cancelled: lines 233-248. *)
Definition stopTimer_finish (p : Page) : Page :=
  let finalTime := Qfloor (double_sub (performance_now p) (startTimeRef p)) in
  let autoPenalty := autoPenaltyOf (inspectionEnabled p) (inspectionOverMs p) in
  p |> saveSolveImmediately finalTime autoPenalty
    |> setCurrentTime 0
    |> setTimerState idle.

Definition stopTimer (p : Page) : Page :=
  p |> cancelStopwatch |> stopTimer_finish.

(** The callback of the arm timer (lines 261-265). *)
Definition armCallback (p : Page) : Page :=
  if TimerState_eqb (timerStateRef p) arming then p |> setTimerState ready else p.

(** [handleSpaceDown] *)
Definition handleSpaceDown (p : Page) : Page :=
  if loadingRef p then p else
  match timerStateRef p with
  | idle =>
      let p := p |> setTimerState arming in
      let (h, p) := setTimeout ArmCallback ARMING_THRESHOLD_MS p in
      p |> set_armingTimeoutRef h
  | inspection => beginSolveFromInspection p
  | running => stopTimer p
  | _ => p
  end.

(** [handleSpaceUp] *)
Definition handleSpaceUp (p : Page) : Page :=
  if loadingRef p then p else
  let state := timerStateRef p in
  let p := if truthy (armingTimeoutRef p)
           then p |> clearTimeout (armingTimeoutRef p) |> set_armingTimeoutRef 0
           else p in
  match state with
  | arming => p |> setTimerState idle
  | ready => if inspectionEnabled p then startInspection p else startTimer p
  | _ => p
  end.

(** [handleManualStart] *)
Definition handleManualStart (p : Page) : Page :=
  if loading p then p else
  match timerState p with
  | idle => if inspectionEnabled p then startInspection p else startTimer p
  | inspection => beginSolveFromInspection p
  | running => stopTimer p
  | _ => p
  end.

(** [handleUpdateLastSolvePenalty] up to [await apiClient.updateSolve]. *)
Definition handleUpdateLastSolvePenalty (newPenalty : string) (p : Page) : Page :=
  match lastSolve p with
  | None => p
  | Some s =>
      p |> setLoading true |> setError ""
        |> apiCall (updateSolve (id s) (penaltyField newPenalty))
                   (AwaitUpdateSolve newPenalty)
  end.

(** [handleScoreSolve] up to its [await]. *)
Definition handleScoreSolve (solveId : Z) (p : Page) : Page :=
  p |> apiCall (scoreSolve solveId) (AwaitScore solveId).

(** [handleRevealOptimalSolution] up to its [await]; [confirmed] is the
    answer of [window.confirm]. *)
Definition handleRevealOptimalSolution (confirmed : bool) (p : Page) : Page :=
  if TimerState_eqb (timerState p) running || loading p || solutionLoading p
  then p else
  if negb confirmed then p else
  if negb (truthy_string (scrambleState p))
     || negb (Z.of_nat (String.length (scrambleState p)) =? 54)
  then p |> setError "Missing cube state for this scramble. (Expected 54 chars.)"
  else
    p |> setSolutionLoading true |> setError ""
      |> apiCall (getOptimalSolution (scrambleState p) "3x3") AwaitOptimalSolution.

(** The update [setLastSolve((prev) => prev && prev.id === solveId ?
    {...prev, ...} : prev)] of lines 129-140 and 376-387. *)
Definition mergeScore (solveId : Z) (r : ScoreResult) (prev : option Solve)
    : option Solve :=
  match prev with
  | None => None
  | Some s =>
      if id s =? solveId
      then Some {| id := id s; timeMs := timeMs s;
                   mlScore := res_mlScore r;
                   scoreVersion := res_scoreVersion r;
                   expectedTimeMs := res_expectedTimeMs r;
                   dnfRisk := res_dnfRisk r;
                   plus2Risk := res_plus2Risk r |}
      else Some s
  end.

(** The tail of [saveSolveImmediately] once [loadNewScramble] has returned:
    lines 149 and 154. *)
Definition saveSolve_finish (p : Page) : Page :=
  let (_, p) := setTimeout ClearSavingMessage 2000%Q p in
  p |> setLoading false.

(** The code after an [await], given what the call resolved to.  [None]: the
    answer is not one this call can produce. *)
Definition resume (k : Pending) (r : Response) (p : Page) : option Page :=
  match k, r with
  | AwaitCreateSolve autoPenalty, SolveCreated s =>
      Some (p |> setLastSolve (Some s) |> setLastSolvePenalty autoPenalty
              |> setSavingMessage "Saved ✓"
              |> apiCall (scoreSolve (id s)) (AwaitAutoScore (id s)))
  | AwaitCreateSolve _, Failed =>
      Some (p |> setError "Failed to save solve" |> setSavingMessage ""
              |> setLoading false)
  | AwaitAutoScore solveId, Scored res =>
      Some (p |> setLastSolve (mergeScore solveId res (lastSolve p))
              |> loadStats
              |> loadNewScramble AwaitScrambleAfterSave)
  | AwaitAutoScore _, Failed =>
      Some (p |> loadNewScramble AwaitScrambleAfterSave)
  | AwaitScrambleAfterSave, ScrambleLoaded scr st =>
      Some (p |> setScramble scr |> setScrambleState st |> saveSolve_finish)
  | AwaitScrambleAfterSave, Failed =>
      Some (p |> setError "Failed to load scramble" |> saveSolve_finish)
  | AwaitUpdateSolve newPenalty, Updated =>
      Some (p |> setLastSolvePenalty newPenalty |> loadStats |> setLoading false)
  | AwaitUpdateSolve _, Failed =>
      Some (p |> setError "Failed to update penalty" |> setLoading false)
  | AwaitScramble, ScrambleLoaded scr st =>
      Some (p |> setScramble scr |> setScrambleState st)
  | AwaitScramble, Failed =>
      Some (p |> setError "Failed to load scramble")
  | AwaitScore solveId, Scored res =>
      Some (p |> setLastSolve (mergeScore solveId res (lastSolve p)) |> loadStats)
  | AwaitScore _, Failed =>
      Some (p |> setError "Failed to score solve")
  | AwaitOptimalSolution, OptimalFound moves =>
      Some (p |> setOptimalSolutionMoves (Some moves) |> setSolutionLoading false)
  | AwaitOptimalSolution, Failed =>
      Some (p |> setError "Failed to compute optimal solution."
              |> setSolutionLoading false)
  | _, _ => None
  end.

Fixpoint remove_nth {A : Type} (i : nat) (l : list A) : list A :=
  match l, i with
  | [], _ => []
  | _ :: l', O => l'
  | x :: l', S i' => x :: remove_nth i' l'
  end.

(** The [i]-th unresolved call resolves to [r]. *)
Definition resolve (i : nat) (r : Response) (p : Page) : Page :=
  match nth_error (pending p) i with
  | None => p
  | Some k =>
      match resume k r (p |> set_pending (remove_nth i (pending p))) with
      | Some p' => p'
      | None => p
      end
  end.

(** A timeout callback. *)
Definition runCallback (cb : Callback) (p : Page) : Page :=
  match cb with
  | ArmCallback => armCallback p
  | ClearSavingMessage => p |> setSavingMessage ""
  end.

Definition isDue (now : Q) (t : Timer) : bool := Qle_bool (timer_due t) now.

(** The clock advances by [d] milliseconds and the timeouts that are due
    fire, oldest first, each followed by a commit. *)
Definition advance (d : Q) (p : Page) : Page :=
  if Qle_bool 0 d then
    let now := (performance_now p + d)%Q in
    let due := filter (isDue now) (timers p) in
    let p := p |> set_performance_now now
               |> set_timers (filter (fun t => negb (isDue now t)) (timers p)) in
    fold_left (fun p t => commit (runCallback (timer_callback t) p)) due p
  else p.

(** The browser runs the callbacks requested for this frame; callbacks
    requested meanwhile wait for the next frame. *)
Definition runFrame (p : Page) : Page :=
  fold_left
    (fun p e => commit (p |> set_rafLog (RafRun (fst e) :: rafLog p) |> tick (snd e)))
    (rafQueue p)
    (p |> set_rafQueue []).

(** The cleanup of the last effect (lines 324-336), run on unmount. *)
Definition unmount (p : Page) : Page :=
  let p := cancelStopwatch p in
  let p := if truthy (inspectionRafRef p)
           then p |> cancelAnimationFrame (inspectionRafRef p)
                  |> set_inspectionRafRef 0
           else p in
  if truthy (armingTimeoutRef p)
  then p |> clearTimeout (armingTimeoutRef p) |> set_armingTimeoutRef 0
  else p.

(** The three penalty buttons of the last-solve card. *)
Inductive PenaltyButton : Type := ButtonOK | ButtonPlus2 | ButtonDNF.

Definition penaltyLabel (b : PenaltyButton) : string :=
  match b with ButtonOK => "OK" | ButtonPlus2 => "+2" | ButtonDNF => "DNF" end.

(** ** Events *)

Inductive Event : Type :=
  | KeyDown                          (* keydown with code 'Space' *)
  | KeyUp                            (* keyup with code 'Space' *)
  | ManualStart                      (* click on Start / Stop *)
  | ToggleInspection                 (* click on Inspection: ON / OFF *)
  | PenaltyClick (b : PenaltyButton) (* click on OK, +2 or DNF *)
  | ScoreClick                       (* click on Score This Solve *)
  | RevealClick (confirmed : bool)   (* click on Reveal Optimal Solution *)
  | NewScrambleClick                 (* click on New Scramble *)
  | Wait (d : Q)                     (* d milliseconds pass *)
  | Frame                            (* the browser renders a frame *)
  | Resolve (i : nat) (r : Response) (* a collaborator call resolves *).

(** A disabled button does not deliver its click; a button that is not
    rendered cannot be clicked. *)
Definition step (e : Event) (p : Page) : Page :=
  match e with
  | KeyDown => commit (handleSpaceDown p)
  | KeyUp => commit (handleSpaceUp p)
  | ManualStart =>
      (* disabled={loading} *)
      if loading p then p else commit (handleManualStart p)
  | ToggleInspection =>
      (* disabled={timerState === 'running'} *)
      if TimerState_eqb (timerState p) running then p
      else commit (toggleInspection p)
  | PenaltyClick b =>
      (* rendered when lastSolve is set; disabled={loading} *)
      match lastSolve p with
      | Some _ =>
          if loading p then p
          else commit (handleUpdateLastSolvePenalty (penaltyLabel b) p)
      | None => p
      end
  | ScoreClick =>
      (* rendered when lastSolve.mlScore === null; disabled={loading} *)
      match lastSolve p with
      | Some s =>
          match mlScore s with
          | None => if loading p then p else commit (handleScoreSolve (id s) p)
          | Some _ => p
          end
      | None => p
      end
  | RevealClick confirmed =>
      (* disabled={timerState === 'running' || loading || solutionLoading} *)
      if TimerState_eqb (timerState p) running || loading p || solutionLoading p
      then p else commit (handleRevealOptimalSolution confirmed p)
  | NewScrambleClick =>
      if TimerState_eqb (timerState p) running || loading p || solutionLoading p
      then p else commit (loadNewScramble AwaitScramble p)
  | Wait d => advance d p
  | Frame => runFrame p
  | Resolve i r => commit (resolve i r p)
  end.

Definition run (es : list Event) (p : Page) : Page :=
  fold_left (fun p e => step e p) es p.

(** The page after its first render and its mount effects: the stored
    preference is read (lines 61-66), a scramble and the statistics are
    requested (lines 99-102).  [stored] is the value kept in local storage,
    [t0] the clock at that time. *)
Definition mount (stored : option string) (t0 : Q) : Page :=
  let p :=
    {| scramble := ""; scrambleState := ""; timerState := idle;
       currentTime := 0; lastSolve := None; inspectionEnabled := true;
       lastSolvePenalty := "OK"; loading := false; error := "";
       savingMessage := ""; optimalSolutionMoves := None;
       solutionLoading := false;
       inspectionMsLeft := INSPECTION_MS; inspectionOverMs := 0%Q;
       startTimeRef := 0%Q; animationFrameRef := 0; armingTimeoutRef := 0;
       inspectionStartRef := 0%Q; inspectionRafRef := 0;
       timerStateRef := idle; loadingRef := false;
       performance_now := t0; rafQueue := []; nextRaf := 1; rafLog := [];
       timers := []; nextTimer := 1;
       calls := []; pending := []; localStorage := stored |} in
  let p := match stored with
           | Some s => p |> setInspectionEnabled (String.eqb s "true")
           | None => p
           end in
  commit (p |> loadNewScramble AwaitScramble |> loadStats).

Inductive reachable : Page -> Prop :=
  | reachable_mount (stored : option string) (t0 : Q) :
      reachable (mount stored t0)
  | reachable_step (e : Event) (p : Page) :
      reachable p -> reachable (step e p).

(** ** Notions used by the statements *)

(** The handles that are still waiting for a frame after the actions of
    [log] (newest first). *)
Fixpoint live (log : list RafAction) : list Z :=
  match log with
  | [] => []
  | RafRequest h :: older => (live older ++ [h])%list
  | RafCancel h :: older | RafRun h :: older =>
      filter (fun x => negb (x =? h)) (live older)
  end.

(** Every request in [log] was made when no earlier request was still
    waiting. *)
Fixpoint disciplined (log : list RafAction) : bool :=
  match log with
  | [] => true
  | RafRequest _ :: older =>
      match live older with [] => disciplined older | _ :: _ => false end
  | _ :: older => disciplined older
  end.

Definition isArm (t : Timer) : bool :=
  match timer_callback t with ArmCallback => true | ClearSavingMessage => false end.

(** A [saveSolveImmediately] has not returned yet. *)
Definition saveInFlight (p : Page) : bool := existsb isSave (pending p).

(** The transition table of the specification (section 4.1). *)
Definition tableEdge (a b : TimerState) : bool :=
  match a, b with
  | idle, arming | arming, idle | arming, ready
  | ready, inspection | ready, running
  | inspection, running | running, idle => true
  | _, _ => false
  end.

(** The two edges of the Start button. *)
Definition manualEdge (enabled : bool) (a b : TimerState) : bool :=
  match a, b with
  | idle, inspection => enabled
  | idle, running => negb enabled
  | _, _ => false
  end.

(** The frame callback a state owns. *)
Definition clockShape (p : Page) : Prop :=
  match timerState p with
  | running =>
      animationFrameRef p <> 0 /\ inspectionRafRef p = 0 /\
      rafQueue p = [(animationFrameRef p, StopwatchTick)]
  | inspection =>
      animationFrameRef p = 0 /\ inspectionRafRef p <> 0 /\
      rafQueue p = [(inspectionRafRef p, InspectionTick)]
  | stopped => False
  | _ =>
      animationFrameRef p = 0 /\ inspectionRafRef p = 0 /\ rafQueue p = []
  end.

(** The arm timer is pending exactly in [arming], under the handle kept in
    [armingTimeoutRef]; [l] are timeouts taken off the list that have not
    run yet. *)
Definition armShape (l : list Timer) (p : Page) : Prop :=
  (timerState p = arming ->
     armingTimeoutRef p <> 0 /\
     exists due, filter isArm (timers p ++ l)
                 = [mkTimer (armingTimeoutRef p) due ArmCallback]) /\
  (timerState p <> arming -> filter isArm (timers p ++ l) = []).

(** What holds of every page the events can produce; [l] as in [armShape]. *)
Record InvWith (l : list Timer) (p : Page) : Prop := mkInv
  { inv_stateRef : timerStateRef p = timerState p;
    inv_loadingRef : loadingRef p = loading p;
    inv_clock : clockShape p;
    inv_nextRaf : 0 < nextRaf p;
    inv_nextTimer : 0 < nextTimer p;
    inv_arm : armShape l p;
    inv_loading :
      List.length (filter holdsLoading (pending p))
      = if loading p then 1%nat else 0%nat;
    inv_save : saveInFlight p = true -> timerState p = idle;
    inv_over : (0 <= inspectionOverMs p)%Q;
    inv_log : disciplined (rafLog p) = true /\
              live (rafLog p) = map fst (rafQueue p) }.

Definition Inv : Page -> Prop := InvWith [].

(** *** The stand-alone solve form ([HomePage] inside [App]) *)

(** [disabled={isLoading || cubeState.length !== 54}] *)
Definition HomePage_solveDisabled (isLoading : bool) (cubeState : string) : bool :=
  isLoading || negb (Z.of_nat (String.length cubeState) =? 54).

(** [const API_BASE = 'http://localhost:5000/api'] *)
Definition API_BASE : string := "http://localhost:5000/api".

(** A [fetch] with method POST: the address and the two fields of its body. *)
Record SolvePost : Type := mkSolvePost
  { post_url : string; post_state : string; post_source : string }.

(** The requests a click on Solve Cube sends: [handleSolve] posts the state
    to [/solve], and a disabled button does not deliver the click. *)
Definition HomePage_solveClick (isLoading : bool) (cubeState : string)
    : list SolvePost :=
  if HomePage_solveDisabled isLoading cubeState then []
  else [mkSolvePost (API_BASE ++ "/solve") cubeState "manual"].

(** *** Holding the key *)




(** *** Concrete runs *)

Definition solvedCube : string :=
  "UUUUUUUUURRRRRRRRRFFFFFFFFFDDDDDDDDDLLLLLLLLLBBBBBBBBB".

(** Inspection on: the scramble arrives, the key is held 600 ms and released,
    16200 ms of inspection pass (a frame shows the overrun of 1200 ms), the
    key starts the solve and the stopwatch has run 8000 ms. *)
Definition inspectedRun : Page :=
  run [Resolve 0 (ScrambleLoaded "R U R' U'" solvedCube);
       KeyDown; Wait 600%Q; KeyUp; Wait 16200%Q; Frame;
       KeyDown; Wait 8000%Q; Frame]
      (mount None 0%Q).

(** Inspection off: hold 600 ms, release, 12345 ms on the stopwatch. *)
Definition plainRun : Page :=
  run [KeyDown; Wait 600%Q; KeyUp; Wait 12345%Q] (mount (Some "false") 0%Q).

(** ... and the key stops it: the save is in flight. *)
Definition plainStopped : Page := step KeyDown plainRun.





(** A page with a 54-character state, a page without. *)
Definition scrambledPage : Page :=
  run [Resolve 0 (ScrambleLoaded "R U R' U'" solvedCube)] (mount None 0%Q).

Definition unscrambledPage : Page := mount None 0%Q.

(** A saved solve on display. *)
Definition savedPage : Page :=
  run [Resolve 1 (SolveCreated (mkSolve 7 12345 None None None None None));
       Resolve 1 Failed; Resolve 1 Failed]
      plainStopped.


(** *** The claims as the specification words them *)


(** The inspection overrun of an inspecting page at the present reading of
    the clock: what the inspection loop computes when a frame runs now. *)
Definition overrunNow (p : Page) : Q :=
  Qmax 0 (double_sub (double_sub (performance_now p) (inspectionStartRef p))
                     INSPECTION_MS).




(** The answers the score call and the scramble call can give. *)
Definition isScoreAnswer (r : Response) : bool :=
  match r with Failed | Scored _ => true | _ => false end.

Definition isScrambleAnswer (r : Response) : bool :=
  match r with Failed | ScrambleLoaded _ _ => true | _ => false end.

(** The inputs are ignored: key down, key up and the button change nothing. *)
Definition inputIgnored (q : Page) : Prop :=
  step KeyDown q = q /\ step KeyUp q = q /\ step ManualStart q = q.

(** Input handling has resumed: nothing is loading, the page is idle, the
    key arms and the button starts. *)
Definition inputResumed (q : Page) : Prop :=
  loading q = false /\ loadingRef q = false /\ timerState q = idle /\
  timerState (step KeyDown q) = arming /\
  timerState (step ManualStart q)
  = (if inspectionEnabled q then inspection else running).

(** Re-arming right after a stop, as the specification words it: the next
    key press arms a new attempt although the save has not returned. *)
Definition rearmsDuringSave (p : Page) : Prop :=
  saveInFlight p = true -> timerState (step KeyDown p) = arming.

(** Every move of the timer state is an edge of the table. *)
Definition followsTable (p : Page) (e : Event) : Prop :=
  timerState (step e p) = timerState p \/
  tableEdge (timerState p) (timerState (step e p)) = true.

(** * More of the timer page *)

(** ** Rendering helpers *)

(** [getTimerColor] *)
Definition getTimerColor (p : Page) : string :=
  match timerState p with
  | arming => "text-yellow-500"
  | ready => "text-green-400"
  | inspection => "text-yellow-300"
  | running => "text-white"
  | _ => "text-muted-foreground"
  end.

(** [getTimerInstruction] *)
Definition getTimerInstruction (p : Page) : string :=
  match timerState p with
  | arming => "Keep holding..."
  | ready => "Release to start"
  | inspection => "Press space to solve"
  | running => "Press space to stop"
  | _ => if inspectionEnabled p then "Hold space to start" else "Hold space to start"
  end.

(** The label of the Start / Stop button (line 541). *)
Definition startButtonLabel (p : Page) : string :=
  if TimerState_eqb (timerState p) running then "Stop" else "Start".

(** ** Notions used by the further statements *)

Definition isCreateSolve (c : ApiCall) : bool :=
  match c with createSolve _ => true | _ => false end.

(** The event [e] stops the stopwatch of [p]. *)
Definition stops (e : Event) (p : Page) : bool :=
  TimerState_eqb (timerState p) running
  && TimerState_eqb (timerState (step e p)) idle.

Definition isOptimal (k : Pending) : bool :=
  match k with AwaitOptimalSolution => true | _ => false end.

(** The three penalties of the page. *)
Definition isPenalty (s : string) : bool :=
  String.eqb s "OK" || String.eqb s "+2" || String.eqb s "DNF".

(** A penalty as the backend receives it. *)
Definition isPenaltyField (f : option string) : bool :=
  match f with
  | None => true
  | Some s => String.eqb s "+2" || String.eqb s "DNF"
  end.

(** What the page may send to the solve recorder and to the solve updater. *)
Definition wellFormedCall (c : ApiCall) : bool :=
  match c with
  | createSolve r =>
      (0 <=? req_timeMs r) && isPenaltyField (req_penalty r)
      && String.eqb (req_source r) "timer" && String.eqb (req_event r) "3x3"
      && match req_state r with Some s => negb (String.eqb s "") | None => true end
  | updateSolve _ penalty => isPenaltyField penalty
  | _ => true
  end.

(** The calls of a save that are still to be answered: [createSolve], then
    [scoreSolve], then [getScramble]. *)
Definition saveStage (k : Pending) : nat :=
  match k with
  | AwaitCreateSolve _ => 3
  | AwaitAutoScore _ => 2
  | AwaitScrambleAfterSave => 1
  | _ => 0
  end.

Definition saveStages (p : Page) : nat :=
  list_sum (map saveStage (pending p)).

(** The penalty a pending call carries, if it carries one. *)
Definition carriedPenalty (k : Pending) : option string :=
  match k with
  | AwaitCreateSolve autoPenalty => Some autoPenalty
  | AwaitUpdateSolve newPenalty => Some newPenalty
  | _ => None
  end.

(** The preference a page would start with if it were reloaded now
    (lines 61-66 on the stored value). *)
Definition reloadedPreference (p : Page) : bool :=
  inspectionEnabled (mount (localStorage p) (performance_now p)).

(** A pending timeout whose handle was issued before [nt]; only the arm
    timer may carry the handle [atr] kept in [armingTimeoutRef]. *)
Definition handleOK (nt atr : Z) (t : Timer) : Prop :=
  0 < timer_handle t < nt /\ (timer_handle t = atr -> isArm t = true).

(** More of what holds of every page the events can produce. *)
Record Inv2 (p : Page) : Prop := mkInv2
  { inv_stopwatch :
      timerState p = running ->
      (startTimeRef p <= performance_now p)%Q /\
      0 <= currentTime p
        <= Qfloor (double_sub (performance_now p) (startTimeRef p));
    inv_display : timerState p <> running -> currentTime p = 0;
    inv_inspection :
      timerState p = inspection ->
      (inspectionStartRef p <= performance_now p)%Q;
    inv_left : (0 <= inspectionMsLeft p <= INSPECTION_MS)%Q;
    inv_one : (inspectionMsLeft p == 0 \/ inspectionOverMs p == 0)%Q;
    inv_pref : reloadedPreference p = inspectionEnabled p;
    inv_handles :
      armingTimeoutRef p < nextTimer p /\
      Forall (handleOK (nextTimer p) (armingTimeoutRef p)) (timers p);
    inv_reveal :
      List.length (filter isOptimal (pending p))
      = if solutionLoading p then 1%nat else 0%nat;
    inv_autoscore :
      forall solveId, In (AwaitAutoScore solveId) (pending p) ->
      exists s, lastSolve p = Some s /\ id s = solveId;
    inv_penalty :
      isPenalty (lastSolvePenalty p) = true /\
      Forall (fun k => match carriedPenalty k with
                       | Some s => isPenalty s = true
                       | None => True
                       end) (pending p);
    inv_calls : forallb wellFormedCall (calls p) = true }.

(** How often the events [es], played from [p], stop the stopwatch. *)
Fixpoint stopCount (es : list Event) (p : Page) : nat :=
  match es with
  | [] => 0%nat
  | e :: es' => ((if stops e p then 1 else 0) + stopCount es' (step e p))%nat
  end.

(** The timeouts [unmount] leaves pending. *)
Definition notArm (t : Timer) : bool := negb (isArm t).

(** A solve with the scores of [r]. *)
Definition scored (s : Solve) (r : ScoreResult) : Solve :=
  {| id := id s; timeMs := timeMs s;
     mlScore := res_mlScore r;
     scoreVersion := res_scoreVersion r;
     expectedTimeMs := res_expectedTimeMs r;
     dnfRisk := res_dnfRisk r;
     plus2Risk := res_plus2Risk r |}.

(** The solve is recorded (id 7) and its automatic score is awaited. *)
Definition scoringPage : Page :=
  run [Resolve 1 (SolveCreated (mkSolve 7 12345 None None None None None))]
      plainStopped.

(** A score of the first solve (id 7) is asked for by hand and still awaited
    when a second solve (id 8) has been timed and recorded. *)
Definition rescoredPage : Page :=
  run [ScoreClick;
       KeyDown; Wait 600%Q; KeyUp; Wait 9000%Q; KeyDown;
       Resolve 2 (SolveCreated (mkSolve 8 9000 None None None None None))]
      savedPage.
(** * The stand-alone prototype ([App] and its pages in [part_001]) *)

(** [App] keeps the session: the token in its state and under the key
    ['token'] of the local storage.  Its handlers are modelled like those of
    the timer page: each runs up to its [await], the end of the [fetch]
    resumes it later, and the effect on [token] runs after a handler that
    changed the token.  The answers are not typed in the code
    ([res.json()]): whatever comes, the code after the [await] runs on or
    lands in its [catch], and so does the model.  Of the pages only the
    events they send to [App] are modelled, not what they draw. *)
Module App.

(** [currentPage]: ['login' | 'signup' | 'home' | 'solves']. *)
Inductive CurrentPage : Type := PageLogin | PageSignup | PageHome | PageSolves.

Definition CurrentPage_eqb (a b : CurrentPage) : bool :=
  match a, b with
  | PageLogin, PageLogin | PageSignup, PageSignup
  | PageHome, PageHome | PageSolves, PageSolves => true
  | _, _ => false
  end.

Record User : Type := mkUser
  { user_id : Z; user_email : string; user_name : string;
    user_created_at : string }.

Record Solve : Type := mkSolve
  { solve_id : Z; solve_state : string; solve_numMoves : Z;
    solve_source : string; solve_createdAt : string }.

(** The object given to [JSON.stringify] for the body of a request. *)
Inductive Body : Type :=
  | NoBody
  | LoginBody (email password : string)
  | SignupBody (name email password : string)
  | SolveBody (state source : string).

(** A call of [fetch]: the address, the method ([GET] when none is given)
    and the two headers the code sets.  The header
    [Authorization: `Bearer ${token}`] is kept as the token it is made
    from. *)
Record Fetch : Type := mkFetch
  { fetch_url : string;
    fetch_method : string;
    fetch_contentType : option string;
    fetch_authorization : option (option string);
    fetch_body : Body }.

(** An [alert] is the text it shows. *)
Definition Alert : Type := string.

(** The [await]s of the five functions that call [fetch]. *)
Inductive Pending : Type :=
  | AwaitFetchUser
  | AwaitFetchSolves
  | AwaitLogin
  | AwaitSignup
  | AwaitSolve.

(** The calls that set [isLoading]. *)
Definition holdsLoading (k : Pending) : bool :=
  match k with
  | AwaitLogin | AwaitSignup | AwaitSolve => true
  | AwaitFetchUser | AwaitFetchSolves => false
  end.

(** A member of an object: absent, [null], or a value. *)
Inductive Member (A : Type) : Type :=
  | Undefined
  | Null
  | Value (a : A).
Arguments Undefined {A}.
Arguments Null {A}.
Arguments Value {A} a.

(** What the code reads of the object an answer brings.  [token] and
    [user] go into the state and have its types when they are there.
    [error] is only tested and shown: [data_error] is the text shown for it
    when it is truthy.  [moves] is only joined: [data_moves] is the texts
    that [join] puts between the blanks, when [data.moves] is an array.
    [numMoves] is only written out: [data_numMoves] is its text
    (['undefined'] when absent). *)
Record Object : Type := mkObject
  { data_token : Member string;
    data_user : Member User;
    data_error : option string;
    data_moves : option (list string);
    data_numMoves : string }.

(** What [res.json()] gives: it rejects (the body is no JSON), or gives
    [null], an array, or a value whose members can be read (of a number, a
    text or a boolean all of them are absent). *)
Inductive Data : Type :=
  | NotJson
  | JNull
  | JArray (data : list Solve)
  | JObject (o : Object).

(** An object with none of the members the code reads. *)
Definition noMembers : Object :=
  {| data_token := Undefined; data_user := Undefined; data_error := None;
     data_moves := None; data_numMoves := "undefined" |}.

(** [const data = await res.json()] followed by a reading [data.x]: [None]
    when one of the two throws (no JSON, or [null]).  An array has none of
    the members. *)
Definition members (data : Data) : option Object :=
  match data with
  | NotJson | JNull => None
  | JArray _ => Some noMembers
  | JObject o => Some o
  end.

(** The answer to a login that brings a token and a user. *)
Definition LoginData (token : string) (user : User) : Data :=
  JObject {| data_token := Value token; data_user := Value user;
             data_error := None; data_moves := None;
             data_numMoves := "undefined" |}.

(** A [fetch] throws, or ends with an answer: [res.ok] and what
    [res.json()] will give. *)
Inductive Response : Type :=
  | Rejected
  | Answer (ok : bool) (data : Data).

(** A member as a value of the state.  [null] and [undefined] are both
    [None] there: the code tests them, and reads further only what passed
    the test. *)
Definition stateOf {A : Type} (m : Member A) : option A :=
  match m with Value a => Some a | Undefined | Null => None end.

(** The text [localStorage.setItem] stores for [data.token]. *)
Definition storedText (m : Member string) : string :=
  match m with
  | Value t => t
  | Undefined => "undefined"
  | Null => "null"
  end.

(** The state of [App], the item ['token'] of the local storage, and what
    the component has sent and shown so far. *)
Record State : Type := mkState
  { currentPage : CurrentPage;
    token : option string;
    user : option User;
    solves : Data;
    cubeState : string;
    isLoading : bool;
    localStorage : option string;
    requests : list Fetch;
    alerts : list Alert;
    pending : list Pending }.

Definition setCurrentPage (v : CurrentPage) (s : State) : State :=
  mkState v (token s) (user s) (solves s) (cubeState s) (isLoading s)
    (localStorage s) (requests s) (alerts s) (pending s).

Definition setToken (v : option string) (s : State) : State :=
  mkState (currentPage s) v (user s) (solves s) (cubeState s) (isLoading s)
    (localStorage s) (requests s) (alerts s) (pending s).

Definition setUser (v : option User) (s : State) : State :=
  mkState (currentPage s) (token s) v (solves s) (cubeState s) (isLoading s)
    (localStorage s) (requests s) (alerts s) (pending s).

Definition setSolves (v : Data) (s : State) : State :=
  mkState (currentPage s) (token s) (user s) v (cubeState s) (isLoading s)
    (localStorage s) (requests s) (alerts s) (pending s).

Definition setCubeState (v : string) (s : State) : State :=
  mkState (currentPage s) (token s) (user s) (solves s) v (isLoading s)
    (localStorage s) (requests s) (alerts s) (pending s).

Definition setIsLoading (v : bool) (s : State) : State :=
  mkState (currentPage s) (token s) (user s) (solves s) (cubeState s) v
    (localStorage s) (requests s) (alerts s) (pending s).

Definition set_localStorage (v : option string) (s : State) : State :=
  mkState (currentPage s) (token s) (user s) (solves s) (cubeState s)
    (isLoading s) v (requests s) (alerts s) (pending s).

Definition set_requests (v : list Fetch) (s : State) : State :=
  mkState (currentPage s) (token s) (user s) (solves s) (cubeState s)
    (isLoading s) (localStorage s) v (alerts s) (pending s).

Definition set_alerts (v : list Alert) (s : State) : State :=
  mkState (currentPage s) (token s) (user s) (solves s) (cubeState s)
    (isLoading s) (localStorage s) (requests s) v (pending s).

Definition set_pending (v : list Pending) (s : State) : State :=
  mkState (currentPage s) (token s) (user s) (solves s) (cubeState s)
    (isLoading s) (localStorage s) (requests s) (alerts s) v.

(** Truthiness of a [string | null]. *)
Definition truthy_token (t : option string) : bool :=
  match t with Some s => truthy_string s | None => false end.

(** [Object.is] on two values of [token]. *)
Definition token_eqb (a b : option string) : bool :=
  match a, b with
  | Some x, Some y => String.eqb x y
  | None, None => true
  | _, _ => false
  end.

(** [data.error || fallback], as [alert] shows it. *)
Definition orElse (error : option string) (fallback : string) : string :=
  match error with Some text => text | None => fallback end.

Definition fetch (f : Fetch) (k : Pending) (s : State) : State :=
  s |> set_requests (requests s ++ [f])%list
    |> set_pending (pending s ++ [k])%list.

Definition alert (a : Alert) (s : State) : State :=
  s |> set_alerts (alerts s ++ [a])%list.

(** [fetchUser] up to its [await]. *)
Definition fetchUser (s : State) : State :=
  s |> fetch (mkFetch (API_BASE ++ "/auth/me") "GET" None
                      (Some (token s)) NoBody)
             AwaitFetchUser.

(** [fetchSolves] up to its [await]. *)
Definition fetchSolves (s : State) : State :=
  s |> fetch (mkFetch (API_BASE ++ "/solves") "GET" None
                      (Some (token s)) NoBody)
             AwaitFetchSolves.

(** [handleLogin] up to its [await]. *)
Definition handleLogin (email password : string) (s : State) : State :=
  s |> setIsLoading true
    |> fetch (mkFetch (API_BASE ++ "/auth/login") "POST"
                      (Some "application/json") None (LoginBody email password))
             AwaitLogin.

(** [handleSignup] up to its [await]. *)
Definition handleSignup (name email password : string) (s : State) : State :=
  s |> setIsLoading true
    |> fetch (mkFetch (API_BASE ++ "/auth/signup") "POST"
                      (Some "application/json") None
                      (SignupBody name email password))
             AwaitSignup.

(** [handleSolve] up to its [await]. *)
Definition handleSolve (s : State) : State :=
  s |> setIsLoading true
    |> fetch (mkFetch (API_BASE ++ "/solve") "POST"
                      (Some "application/json") (Some (token s))
                      (SolveBody (cubeState s) "manual"))
             AwaitSolve.

(** [handleLogout] *)
Definition handleLogout (s : State) : State :=
  s |> set_localStorage None |> setToken None |> setUser None
    |> setCurrentPage PageLogin.

(** The effect on [token] (lines 150-155). *)
Definition tokenEffect (s : State) : State :=
  if truthy_token (token s)
  then s |> fetchUser |> setCurrentPage PageHome
  else s.

(** The render that follows a handler: the effect on [token] runs when the
    token is not the one of the [previous] render. *)
Definition render (previous : option string) (s : State) : State :=
  if token_eqb previous (token s) then s else tokenEffect s.

(** The [catch] and [finally] of [handleLogin], [handleSignup] and
    [handleSolve]. *)
Definition networkError (s : State) : State :=
  s |> alert "Network error" |> setIsLoading false.

(** [fetchUser] after its [await] (lines 162-170). *)
Definition fetchUser_resume (r : Response) (s : State) : State :=
  match r with
  | Rejected => s
  | Answer true data =>
      match members data with
      | Some o => s |> setUser (stateOf (data_user o))
      | None => s
      end
  | Answer false _ => handleLogout s
  end.

(** [fetchSolves] after its [await] (lines 178-184). *)
Definition fetchSolves_resume (r : Response) (s : State) : State :=
  match r with
  | Rejected => s
  | Answer true NotJson => s
  | Answer true data => s |> setSolves data
  | Answer false _ => s
  end.

(** [handleLogin] after its [await] (lines 195-208). *)
Definition handleLogin_resume (r : Response) (s : State) : State :=
  match r with
  | Rejected => networkError s
  | Answer ok data =>
      match members data with
      | Some o =>
          if ok
          then s |> set_localStorage (Some (storedText (data_token o)))
                 |> setToken (stateOf (data_token o))
                 |> setUser (stateOf (data_user o))
                 |> setCurrentPage PageHome
                 |> setIsLoading false
          else s |> alert (orElse (data_error o) "Login failed")
                 |> setIsLoading false
      | None => networkError s
      end
  end.

(** [handleSignup] after its [await] (lines 219-230). *)
Definition handleSignup_resume (r : Response) (s : State) : State :=
  match r with
  | Rejected => networkError s
  | Answer _ NotJson => networkError s
  | Answer true _ =>
      s |> alert "Account created! Please login."
        |> setCurrentPage PageLogin |> setIsLoading false
  | Answer false data =>
      match members data with
      | Some o => s |> alert (orElse (data_error o) "Signup failed")
                    |> setIsLoading false
      | None => networkError s
      end
  end.

(** [handleSolve] after its [await] (lines 244-254). *)
Definition handleSolve_resume (r : Response) (s : State) : State :=
  match r with
  | Rejected => networkError s
  | Answer ok data =>
      match members data with
      | Some o =>
          if ok
          then match data_moves o with
               | Some moves =>
                   s |> alert ("Solution found! Moves: "
                               ++ String.concat " " moves
                               ++ " (" ++ data_numMoves o ++ " moves)")
                     |> setIsLoading false
               | None => networkError s
               end
          else s |> alert (orElse (data_error o) "Solve failed")
                 |> setIsLoading false
      | None => networkError s
      end
  end.

(** The code after an [await], given how the [fetch] ended. *)
Definition resume (k : Pending) (r : Response) (s : State) : State :=
  match k with
  | AwaitFetchUser => fetchUser_resume r s
  | AwaitFetchSolves => fetchSolves_resume r s
  | AwaitLogin => handleLogin_resume r s
  | AwaitSignup => handleSignup_resume r s
  | AwaitSolve => handleSolve_resume r s
  end.

(** The [i]-th unanswered [fetch] ends with [r]. *)
Definition resolve (i : nat) (r : Response) (s : State) : State :=
  match nth_error (pending s) i with
  | None => s
  | Some k => resume k r (s |> set_pending (remove_nth i (pending s)))
  end.

(** What [App] returns (lines 264-327). *)
Inductive View : Type := LoginView | SignupView | HomeView | SolvesView.

Definition view (s : State) : View :=
  if negb (truthy_token (token s))
  then if CurrentPage_eqb (currentPage s) PageLogin then LoginView else SignupView
  else if CurrentPage_eqb (currentPage s) PageHome then HomeView else SolvesView.

(** What the user and the network can do.  A click reaches its handler only
    if the view on the screen has the button and the button is enabled. *)
Inductive Event : Type :=
  | LoginClick (email password : string)
  | SignupClick (name email password : string)
  | SwitchToSignup
  | SwitchToLogin
  | HomeClick
  | HistoryClick
  | LogoutClick
  | CubeStateChange (value : string)
  | SolveClick
  | Resolve (i : nat) (r : Response).

Definition handle (e : Event) (s : State) : State :=
  match e, view s with
  | LoginClick email password, LoginView =>
      if isLoading s then s else handleLogin email password s
  | SignupClick name email password, SignupView =>
      if isLoading s then s else handleSignup name email password s
  | SwitchToSignup, LoginView => s |> setCurrentPage PageSignup
  | SwitchToLogin, SignupView => s |> setCurrentPage PageLogin
  | HomeClick, (HomeView | SolvesView) => s |> setCurrentPage PageHome
  | HistoryClick, (HomeView | SolvesView) =>
      s |> setCurrentPage PageSolves |> fetchSolves
  | LogoutClick, (HomeView | SolvesView) => handleLogout s
  | CubeStateChange value, HomeView => s |> setCubeState value
  | SolveClick, HomeView =>
      if HomePage_solveDisabled (isLoading s) (cubeState s) then s
      else handleSolve s
  | Resolve i r, _ => resolve i r s
  | _, _ => s
  end.

Definition step (e : Event) (s : State) : State :=
  render (token s) (handle e s).

Definition run (es : list Event) (s : State) : State :=
  fold_left (fun s e => step e s) es s.

(** The first render and its two effects; [stored] is the item ['token'] of
    the local storage. *)
Definition mount (stored : option string) : State :=
  let s := {| currentPage := PageLogin; token := None; user := None;
              solves := JArray [];
              cubeState := "UUUUUUUUURRRRRRRRRFFFFFFFFFDDDDDDDDDLLLLLLLLLBBBBBBBBB";
              isLoading := false; localStorage := stored;
              requests := []; alerts := []; pending := [] |} in
  render None (if truthy_token stored then s |> setToken stored else s).

Inductive reachable : State -> Prop :=
  | reachable_mount (stored : option string) : reachable (mount stored)
  | reachable_step (e : Event) (s : State) :
      reachable s -> reachable (step e s).

(** A request as the routes are called: those of a session with the header
    [Authorization], made from a token that is a text and not the empty
    one, the others without it. *)
Definition authorized (f : Fetch) : Prop :=
  exists t, t <> "" /\ fetch_authorization f = Some (Some t).

Definition wellFormed (f : Fetch) : Prop :=
  match fetch_body f with
  | NoBody => authorized f /\ fetch_method f = "GET"
  | SolveBody state source =>
      authorized f /\ fetch_method f = "POST" /\ source = "manual"
  | LoginBody _ _ | SignupBody _ _ _ =>
      fetch_authorization f = None /\ fetch_method f = "POST"
  end.

(** What holds of every state the events can produce. *)
Record Inv (s : State) : Prop := mkInv
  { inv_session :
      truthy_token (token s) = true -> localStorage s = token s;
    inv_loading :
      List.length (filter holdsLoading (pending s))
      = if isLoading s then 1%nat else 0%nat;
    inv_requests : Forall wellFormed (requests s) }.

(** A session: a login is answered with the token [abc], then the Solve Cube
    button is clicked. *)
Definition loggedIn : State :=
  run [LoginClick "a@b.c" "pw";
       Resolve 0 (Answer true (LoginData "abc" (mkUser 1 "a@b.c" "Ann" "2024")));
       SolveClick]
      (mount None).

(** A login is answered with [res.ok] and an object without [token]. *)
Definition loginWithoutToken : State :=
  run [LoginClick "a@b.c" "pw"; Resolve 0 (Answer true (JObject noMembers))]
      (mount None).

End App.

(** * Proofs *)

(** ** Rounding to the nearest double *)

Lemma pow2_pos e : (0 < pow2 e)%Q.
Proof. apply Qpower_0_lt. reflexivity. Qed.

Lemma pow2_add a b : (pow2 (a + b) == pow2 a * pow2 b)%Q.
Proof. apply Qpower_plus. discriminate. Qed.

Lemma pow2_le a b : a <= b -> (pow2 a <= pow2 b)%Q.
Proof. intros H. apply Qpower_le_compat_l; [exact H | discriminate]. Qed.

Lemma pow2_lt_inv a b : (pow2 a < pow2 b)%Q -> a < b.
Proof. intros H. apply (Qpower_lt_compat_l_inv 2); [exact H | reflexivity]. Qed.

Lemma pow2_Z k : 0 <= k -> (pow2 k == inject_Z (2 ^ k))%Q.
Proof. intros H. unfold pow2. rewrite (Zpower_Qpower 2 k H). reflexivity. Qed.

Lemma pow2_cancel u : (pow2 (- u) * pow2 u == 1)%Q.
Proof. rewrite <- pow2_add. replace (- u + u) with 0 by lia. reflexivity. Qed.

Lemma round_even_cases y :
  round_even y = Qfloor y \/ round_even y = Qfloor y + 1.
Proof.
  unfold round_even. destruct (_ ?= _)%Q; [destruct (Z.even _)| |]; auto.
Qed.

Lemma round_even_mono y1 y2 : (y1 <= y2)%Q -> round_even y1 <= round_even y2.
Proof.
  intros H. pose proof (Qfloor_resp_le _ _ H) as Hf.
  destruct (Z.eq_dec (Qfloor y1) (Qfloor y2)) as [E | E].
  - unfold round_even. rewrite <- E.
    destruct (y1 - inject_Z (Qfloor y1) ?= 1 # 2)%Q eqn:C1;
      destruct (y2 - inject_Z (Qfloor y1) ?= 1 # 2)%Q eqn:C2;
      try (destruct (Z.even (Qfloor y1))); try lia; exfalso;
      repeat match goal with
             | C : (_ ?= _)%Q = Eq |- _ => apply Qeq_alt in C
             | C : (_ ?= _)%Q = Lt |- _ => apply Qlt_alt in C
             | C : (_ ?= _)%Q = Gt |- _ => apply Qgt_alt in C
             end; lra.
  - destruct (round_even_cases y1) as [-> | ->];
      destruct (round_even_cases y2) as [-> | ->]; lia.
Qed.

Lemma round_even_Z k : round_even (inject_Z k) = k.
Proof.
  unfold round_even. rewrite Qfloor_Z.
  replace (inject_Z k - inject_Z k ?= 1 # 2)%Q with Lt; [reflexivity|].
  symmetry. apply Qlt_alt.
  assert (E : (inject_Z k - inject_Z k == 0)%Q) by ring. rewrite E. reflexivity.
Qed.

Lemma round_even_le y k : (y <= inject_Z k)%Q -> round_even y <= k.
Proof. intros H. rewrite <- (round_even_Z k). apply round_even_mono, H. Qed.

Lemma round_even_ge y k : (inject_Z k <= y)%Q -> k <= round_even y.
Proof. intros H. rewrite <- (round_even_Z k). apply round_even_mono, H. Qed.

Lemma pow2_shift x y u : (x * pow2 u <= y)%Q <-> (x <= y * pow2 (- u))%Q.
Proof.
  pose proof (pow2_pos u) as P. pose proof (pow2_pos (- u)) as N.
  pose proof (pow2_cancel u) as C. split; intros H.
  - apply (Qmult_le_r _ _ (pow2 u) P).
    assert (E : (y * pow2 (- u) * pow2 u == y)%Q)
      by (rewrite <- Qmult_assoc, C; ring).
    rewrite E. exact H.
  - apply (Qmult_le_r _ _ (pow2 (- u)) N).
    assert (E : (x * pow2 u * pow2 (- u) == x)%Q)
      by (rewrite <- Qmult_assoc, (Qmult_comm (pow2 u)), C; ring).
    rewrite E. exact H.
Qed.

Lemma pow2_shift_lt x y u : (x * pow2 u < y)%Q <-> (x < y * pow2 (- u))%Q.
Proof.
  pose proof (pow2_pos u) as P. pose proof (pow2_pos (- u)) as N.
  pose proof (pow2_cancel u) as C. split; intros H.
  - apply (Qmult_lt_r _ _ (pow2 u) P).
    assert (E : (y * pow2 (- u) * pow2 u == y)%Q)
      by (rewrite <- Qmult_assoc, C; ring).
    rewrite E. exact H.
  - apply (Qmult_lt_r _ _ (pow2 (- u)) N).
    assert (E : (x * pow2 u * pow2 (- u) == x)%Q)
      by (rewrite <- Qmult_assoc, (Qmult_comm (pow2 u)), C; ring).
    rewrite E. exact H.
Qed.

Lemma pow2_unshift x y u : (x * pow2 (- u) <= y)%Q <-> (x <= y * pow2 u)%Q.
Proof. rewrite pow2_shift, Z.opp_involutive. reflexivity. Qed.

Lemma pow2_unshift_lt x y u : (x * pow2 (- u) < y)%Q <-> (x < y * pow2 u)%Q.
Proof. rewrite pow2_shift_lt, Z.opp_involutive. reflexivity. Qed.

Lemma ilog2_spec x :
  (0 < x)%Q -> (pow2 (ilog2 x) <= x)%Q /\ (x < pow2 (ilog2 x + 1))%Q.
Proof.
  intros Hx. unfold ilog2.
  set (s := Z.log2 (Z.pos (Qden x)) + 1).
  set (m := Qfloor (x * pow2 s)).
  assert (Hs : 0 <= s) by (pose proof (Z.log2_nonneg (Z.pos (Qden x))); lia).
  assert (H1 : (1 <= x * pow2 s)%Q).
  { rewrite (pow2_Z s Hs).
    destruct (Z.log2_spec (Z.pos (Qden x)) eq_refl) as [_ Hd].
    fold (Z.succ (Z.log2 (Z.pos (Qden x)))) in Hd.
    replace (Z.succ (Z.log2 (Z.pos (Qden x)))) with s in Hd by (unfold s; lia).
    destruct x as [n d]. unfold Qlt in Hx. cbn in Hx, Hd |- *.
    unfold Qle. cbn. nia. }
  assert (Hm : 1 <= m).
  { change 1 with (Qfloor 1). apply Qfloor_resp_le, H1. }
  destruct (Z.log2_spec m) as [Lo Hi]; [lia|].
  set (L := Z.log2 m) in *.
  assert (HL : 0 <= L) by apply Z.log2_nonneg.
  split.
  - replace (L - s) with (L + - s) by lia. rewrite pow2_add.
    apply pow2_unshift. rewrite (pow2_Z L HL).
    apply Qle_trans with (inject_Z m); [rewrite <- Zle_Qle; exact Lo|].
    apply Qfloor_le.
  - replace (L - s + 1) with ((L + 1) + - s) by lia. rewrite pow2_add.
    apply pow2_shift_lt. rewrite (pow2_Z (L + 1)) by lia.
    apply Qlt_le_trans with (inject_Z (m + 1)); [apply Qlt_floor|].
    rewrite <- Zle_Qle. unfold Z.succ in Hi. lia.
Qed.

Lemma ilog2_mono x y : (0 < x)%Q -> (x <= y)%Q -> ilog2 x <= ilog2 y.
Proof.
  intros Hx Hxy.
  destruct (ilog2_spec x Hx) as [Lx _].
  destruct (ilog2_spec y) as [_ Uy]; [lra|].
  assert (H : (pow2 (ilog2 x) < pow2 (ilog2 y + 1))%Q) by lra.
  apply pow2_lt_inv in H. lia.
Qed.

Lemma round64_pos_nonneg x : (0 < x)%Q -> (0 <= round64_pos x)%Q.
Proof.
  intros Hx. unfold round64_pos.
  set (u := Z.max (ilog2 x - 52) (-1074)).
  apply Qmult_le_0_compat; [|apply Qlt_le_weak, pow2_pos].
  change 0%Q with (inject_Z 0). rewrite <- Zle_Qle. apply round_even_ge.
  apply Qmult_le_0_compat; [lra | apply Qlt_le_weak, pow2_pos].
Qed.

Lemma round64_pos_mono x y :
  (0 < x)%Q -> (x <= y)%Q -> (round64_pos x <= round64_pos y)%Q.
Proof.
  intros Hx Hxy. pose proof (ilog2_mono x y Hx Hxy) as He.
  unfold round64_pos.
  set (ux := Z.max (ilog2 x - 52) (-1074)).
  set (uy := Z.max (ilog2 y - 52) (-1074)).
  destruct (Z.eq_dec ux uy) as [E | E].
  - rewrite <- E. apply Qmult_le_compat_r; [|apply Qlt_le_weak, pow2_pos].
    rewrite <- Zle_Qle. apply round_even_mono.
    apply Qmult_le_compat_r; [exact Hxy | apply Qlt_le_weak, pow2_pos].
  - assert (Hu : uy = ilog2 y - 52 /\ ilog2 x + 1 <= ilog2 y /\ 53 <= ilog2 y - ux)
      by (unfold ux, uy in *; lia).
    destruct Hu as (Huy & Hlt & Hd).
    destruct (ilog2_spec x Hx) as [_ Ux].
    destruct (ilog2_spec y) as [Ly _]; [lra|].
    pose proof (pow2_le _ _ Hlt) as Hp.
    apply Qle_trans with (pow2 (ilog2 y)).
    + assert (B : round_even (x * pow2 (- ux)) <= 2 ^ (ilog2 y - ux)).
      { apply round_even_le. rewrite <- pow2_Z by lia.
        replace (ilog2 y - ux) with (ilog2 y + - ux) by lia. rewrite pow2_add.
        apply Qmult_le_compat_r; [lra | apply Qlt_le_weak, pow2_pos]. }
      apply Qle_trans with (inject_Z (2 ^ (ilog2 y - ux)) * pow2 ux)%Q.
      * apply Qmult_le_compat_r; [|apply Qlt_le_weak, pow2_pos].
        rewrite <- Zle_Qle. exact B.
      * rewrite <- pow2_Z by lia. rewrite <- pow2_add.
        replace (ilog2 y - ux + ux) with (ilog2 y) by lia. apply Qle_refl.
    + assert (B : 2 ^ 52 <= round_even (y * pow2 (- uy))).
      { apply round_even_ge. rewrite <- pow2_Z by lia.
        replace 52 with (ilog2 y + - uy) at 1 by lia. rewrite pow2_add.
        apply Qmult_le_compat_r; [exact Ly | apply Qlt_le_weak, pow2_pos]. }
      apply Qle_trans with (inject_Z (2 ^ 52) * pow2 uy)%Q.
      * rewrite <- pow2_Z by lia. rewrite <- pow2_add.
        replace (52 + uy) with (ilog2 y) by lia. apply Qle_refl.
      * apply Qmult_le_compat_r; [|apply Qlt_le_weak, pow2_pos].
        rewrite <- Zle_Qle. exact B.
Qed.

Lemma Qnum_sign x :
  match Qnum x with
  | Z0 => (x == 0)%Q
  | Zpos _ => (0 < x)%Q
  | Zneg _ => (x < 0)%Q
  end.
Proof. destruct x as [[|n|n] d]; unfold Qeq, Qlt; cbn; lia. Qed.

Lemma round64_sign x :
  ((0 <= x)%Q -> (0 <= round64 x)%Q) /\ ((x <= 0)%Q -> (round64 x <= 0)%Q).
Proof.
  unfold round64. rewrite Qred_correct. pose proof (Qnum_sign x) as S.
  destruct (Qnum x); split; intros H; try lra.
  - apply round64_pos_nonneg, S.
  - assert (P : (0 <= round64_pos (- x))%Q) by (apply round64_pos_nonneg; lra). lra.
Qed.

Lemma round64_mono x y : (x <= y)%Q -> (round64 x <= round64 y)%Q.
Proof.
  intros H. destruct (Qlt_le_dec 0 x) as [Px | Nx].
  - unfold round64. rewrite !Qred_correct.
    pose proof (Qnum_sign x) as Sx. pose proof (Qnum_sign y) as Sy.
    destruct (Qnum x); try lra. destruct (Qnum y); try lra.
    apply round64_pos_mono; assumption.
  - destruct (Qlt_le_dec y 0) as [Ny | Py].
    + unfold round64. rewrite !Qred_correct.
      pose proof (Qnum_sign x) as Sx. pose proof (Qnum_sign y) as Sy.
      destruct (Qnum x); try lra. destruct (Qnum y); try lra.
      assert (M : (round64_pos (- y) <= round64_pos (- x))%Q)
        by (apply round64_pos_mono; lra).
      lra.
    + apply Qle_trans with 0%Q; [apply round64_sign, Nx | apply round64_sign, Py].
Qed.

Lemma double_sub_mono a a' b b' :
  (a <= a')%Q -> (b' <= b)%Q -> (double_sub a b <= double_sub a' b')%Q.
Proof. intros Ha Hb. apply round64_mono. lra. Qed.

Lemma double_sub_nonneg a b : (b <= a)%Q -> (0 <= double_sub a b)%Q.
Proof. intros H. apply round64_sign. lra. Qed.

Lemma double_sub_nonpos a b : (a <= b)%Q -> (double_sub a b <= 0)%Q.
Proof. intros H. apply round64_sign. lra. Qed.

(** ** Basic facts *)

Lemma commit_id p :
  timerStateRef p = timerState p -> loadingRef p = loading p -> commit p = p.
Proof. destruct p; cbn; intros; subst; reflexivity. Qed.

Lemma truthy_true n : n <> 0 -> truthy n = true.
Proof. unfold truthy; intros H; destruct (Z.eqb_spec n 0); [contradiction | reflexivity]. Qed.

Lemma truthy_false n : truthy n = false -> n = 0.
Proof. unfold truthy; destruct (Z.eqb_spec n 0); [trivial | discriminate]. Qed.

Lemma filter_comm {A} (f g : A -> bool) l :
  filter f (filter g l) = filter g (filter f l).
Proof.
  induction l as [|x l IH]; cbn; [reflexivity|].
  destruct (g x) eqn:Hg, (f x) eqn:Hf; cbn; rewrite ?Hg, ?Hf, IH; reflexivity.
Qed.

(** ** The invariant is preserved by every event *)

(** [inv_open p H] takes the page [p] and its invariant [H] apart;
    [inv_close] proves the invariant of a page built from the pieces. *)
Ltac inv_open p H :=
  destruct H as [Href Hld Hclock Hraf Htim Harm Hcount Hsave Hover [Hdisc Hlive]];
  destruct p as [scr scrSt ts ct ls ie lsp ld err sm osm sl iml iom
                 str afr atr isr irr tsr ldr now rq nr rl tm nt cl pd lst];
  unfold clockShape, armShape, saveInFlight in *;
  cbn in Href, Hld, Hclock, Hraf, Htim, Harm, Hcount, Hsave, Hover, Hdisc, Hlive;
  rewrite ?app_nil_r in Harm;
  subst tsr ldr.

Ltac list_simp :=
  repeat (rewrite ?app_nil_r, ?filter_app, ?existsb_app, ?length_app,
            ?Z.eqb_refl, ?orb_false_r in *;
          cbn in * ).

Ltac inv_close :=
  constructor; unfold clockShape, armShape, saveInFlight; cbn;
  list_simp;
  try solve [ intuition (try congruence; try lia)
            | apply Qle_refl | apply Q.le_max_l
            | match goal with
              | Hl : live _ = _ |- _ =>
                  rewrite Hl; cbn; rewrite ?Z.eqb_refl; auto
              end ].

Lemma no_save pd :
  List.length (filter holdsLoading pd) = 0%nat -> existsb isSave pd = false.
Proof.
  induction pd as [|k pd IH]; cbn; [reflexivity|].
  destruct k; cbn; try discriminate; auto.
Qed.

Ltac no_save_in pd :=
  match goal with
  | Hc : List.length (filter holdsLoading pd) = 0%nat |- _ =>
      let Hns := fresh "Hns" in
      pose proof (no_save _ Hc) as Hns; rewrite Hns in *
  end.

Lemma Inv_commit_same p : Inv p -> Inv (commit p).
Proof. intros H. rewrite commit_id; auto; apply H. Qed.

Lemma Inv_stopTimer p : Inv p -> timerState p = running -> loading p = false ->
  Inv (commit (stopTimer p)).
Proof.
  intros H Hs Hl. inv_open p H. cbn in Hs, Hl. subst ts ld.
  destruct Hclock as (Ha & Hi & Hq). subst irr rq.
  unfold stopTimer, cancelStopwatch. cbn. rewrite (truthy_true _ Ha). cbn.
  inv_close.
Qed.

Lemma Inv_startTimer p :
  Inv p -> loading p = false -> timerState p = idle \/ timerState p = ready ->
  Inv (commit (startTimer p)).
Proof.
  intros H Hl Hs. inv_open p H. cbn in Hs, Hl. subst ld. no_save_in pd.
  assert (Hc : afr = 0 /\ irr = 0 /\ rq = []) by (destruct Hs; subst ts; exact Hclock).
  destruct Hc as (? & ? & ?); subst afr irr rq.
  unfold startTimer, cancelStopwatch. cbn.
  inv_close.
Qed.

Lemma Inv_startInspection p :
  Inv p -> loading p = false -> timerState p = idle \/ timerState p = ready ->
  Inv (commit (startInspection p)).
Proof.
  intros H Hl Hs. inv_open p H. cbn in Hs, Hl. subst ld. no_save_in pd.
  assert (Hc : afr = 0 /\ irr = 0 /\ rq = []) by (destruct Hs; subst ts; exact Hclock).
  destruct Hc as (? & ? & ?); subst afr irr rq.
  unfold startInspection, cancelStopwatch, stopInspection. cbn.
  inv_close.
Qed.

Lemma Inv_beginSolveFromInspection p :
  Inv p -> loading p = false -> timerState p = inspection ->
  Inv (commit (beginSolveFromInspection p)).
Proof.
  intros H Hl Hs. inv_open p H. cbn in Hs, Hl. subst ld ts. no_save_in pd.
  destruct Hclock as (Ha & Hi & Hq). subst afr rq.
  unfold beginSolveFromInspection, stopInspection. cbn.
  rewrite (truthy_true _ Hi). cbn. unfold startTimer, cancelStopwatch. cbn.
  inv_close.
Qed.

Lemma Inv_handleSpaceDown p : Inv p -> Inv (commit (handleSpaceDown p)).
Proof.
  intros H. unfold handleSpaceDown.
  rewrite (inv_loadingRef _ _ H), (inv_stateRef _ _ H).
  destruct (loading p) eqn:Hl; [apply Inv_commit_same, H|].
  destruct (timerState p) eqn:Hs; try (apply Inv_commit_same, H).
  - inv_open p H. cbn in Hs, Hl. subst ld ts. no_save_in pd. cbn. inv_close.
    destruct Harm as [_ Harm]. rewrite Harm by discriminate. cbn.
    split; [intros _; split; [lia | eexists; reflexivity] | congruence].
  - apply Inv_beginSolveFromInspection; auto.
  - apply Inv_stopTimer; auto.
Qed.

(** The block of [handleSpaceUp] that clears the arm timer. *)
Lemma Inv_clearArm p :
  Inv p -> loading p = false ->
  let q := if truthy (armingTimeoutRef p)
           then set_armingTimeoutRef 0 (clearTimeout (armingTimeoutRef p) p)
           else p in
  (timerState p = arming -> Inv (commit (setTimerState idle q))) /\
  (timerState p <> arming -> Inv q) /\
  timerState q = timerState p /\ loading q = false /\
  inspectionEnabled q = inspectionEnabled p.
Proof.
  intros H Hl q. subst q.
  destruct (truthy (armingTimeoutRef p)) eqn:Ht.
  - inv_open p H. cbn in Hl, Ht. subst ld. no_save_in pd. cbn.
    assert (Hf : filter isArm (filter (fun t => negb (timer_handle t =? atr)) tm) = []).
    { rewrite filter_comm. destruct ts;
        try (destruct Harm as [_ Harm]; rewrite Harm by discriminate; reflexivity).
      destruct Harm as [[_ [due Hd]] _]; auto.
      rewrite Hd. cbn. rewrite Z.eqb_refl. reflexivity. }
    split; [|split; [|split; [|split]]]; auto.
    + intros ->. inv_close.
    + intros Hs. inv_close; destruct ts; intuition congruence.
  - split; [|split; [|split; [|split]]]; auto.
    intros Hs. exfalso. apply truthy_false in Ht.
    destruct (inv_arm _ _ H) as [Ha _]. destruct (Ha Hs) as [Hn _]. contradiction.
Qed.

Lemma Inv_handleSpaceUp p : Inv p -> Inv (commit (handleSpaceUp p)).
Proof.
  intros H. unfold handleSpaceUp.
  rewrite (inv_loadingRef _ _ H), (inv_stateRef _ _ H).
  destruct (loading p) eqn:Hl; [apply Inv_commit_same, H|].
  destruct (Inv_clearArm p H Hl) as (Harming & Hother & Hts & Hlq & Hie).
  cbv zeta in *.
  set (q := if truthy (armingTimeoutRef p) then _ else p) in *.
  destruct (timerState p) eqn:Hs;
    try (apply Inv_commit_same, Hother; discriminate).
  - apply Harming; reflexivity.
  - assert (Hq : Inv q) by (apply Hother; discriminate).
    destruct (inspectionEnabled q).
    + apply Inv_startInspection; auto.
    + apply Inv_startTimer; auto.
Qed.

Lemma Inv_handleManualStart p : Inv p -> Inv (commit (handleManualStart p)).
Proof.
  intros H. unfold handleManualStart.
  destruct (loading p) eqn:Hl; [apply Inv_commit_same, H|].
  destruct (timerState p) eqn:Hs; try (apply Inv_commit_same, H).
  - destruct (inspectionEnabled p).
    + apply Inv_startInspection; auto.
    + apply Inv_startTimer; auto.
  - apply Inv_beginSolveFromInspection; auto.
  - apply Inv_stopTimer; auto.
Qed.

Lemma Inv_mount stored t0 : Inv (mount stored t0).
Proof.
  destruct stored; cbn; constructor; unfold clockShape, armShape, saveInFlight;
    cbn; try solve [intuition (try congruence; try lia)]; apply Qle_refl.
Qed.

Lemma Inv_toggleInspection p : Inv p -> Inv (commit (toggleInspection p)).
Proof. intros H. inv_open p H. inv_close. Qed.

Lemma Inv_handleUpdateLastSolvePenalty np p :
  Inv p -> loading p = false -> Inv (commit (handleUpdateLastSolvePenalty np p)).
Proof.
  intros H Hl. unfold handleUpdateLastSolvePenalty.
  destruct (lastSolve p) eqn:Hs; [|apply Inv_commit_same, H].
  inv_open p H. cbn in Hl. subst ld. no_save_in pd. inv_close.
Qed.

Lemma Inv_handleScoreSolve n p : Inv p -> Inv (commit (handleScoreSolve n p)).
Proof.
  intros H. inv_open p H. unfold handleScoreSolve. inv_close.
  all: try (destruct ld; lia).
Qed.

Lemma Inv_loadNewScramble p : Inv p -> Inv (commit (loadNewScramble AwaitScramble p)).
Proof.
  intros H. inv_open p H. unfold loadNewScramble. inv_close.
  all: try (destruct ld; lia).
Qed.

Lemma Inv_handleRevealOptimalSolution c p :
  Inv p -> Inv (commit (handleRevealOptimalSolution c p)).
Proof.
  intros H. unfold handleRevealOptimalSolution.
  destruct (_ || _ || _); [apply Inv_commit_same, H|].
  destruct (negb c); [apply Inv_commit_same, H|].
  destruct (_ || _); inv_open p H; inv_close.
  all: try (destruct ld; lia).
Qed.

Lemma Inv_runFrame p : Inv p -> Inv (runFrame p).
Proof.
  intros H. unfold runFrame.
  inv_open p H. cbn.
  destruct ts; try contradiction;
    destruct Hclock as (Ha & Hi & Hq); subst; cbn; inv_close.
Qed.

(** Timeouts: the callbacks that are due run one after the other. *)
Lemma app_singleton_mid {A} (l1 l2 : list A) x y :
  (l1 ++ x :: l2 = [y] -> l1 = [] /\ l2 = [] /\ x = y)%list.
Proof.
  destruct l1 as [|a l1]; cbn; intros H.
  - inversion H; auto.
  - inversion H as [[Ha Hl]]. destruct l1; discriminate.
Qed.

Lemma Inv_runCallback t l p :
  InvWith (t :: l) p -> InvWith l (commit (runCallback (timer_callback t) p)).
Proof.
  intros H.
  destruct H as [Href Hld Hclock Hraf Htim Harm Hcount Hsave Hover [Hdisc Hlive]].
  destruct p as [scr scrSt ts ct ls ie lsp ld err sm osm sl iml iom
                 str afr atr isr irr tsr ldr now rq nr rl tm nt cl pd lst].
  unfold clockShape, armShape, saveInFlight in *.
  cbn in Href, Hld, Hclock, Hraf, Htim, Harm, Hcount, Hsave, Hover, Hdisc, Hlive.
  subst tsr ldr. rewrite filter_app in Harm. cbn in Harm.
  destruct t as [h due cb]. unfold isArm at 2 4 in Harm. cbn in Harm.
  destruct cb; cbn.
  - unfold armCallback. cbn. destruct ts; cbn;
      try (destruct Harm as [_ Harm];
           destruct (filter isArm tm); specialize (Harm ltac:(discriminate));
           discriminate).
    destruct Harm as [[Hn [due' Hd]] _]; [reflexivity|].
    apply app_singleton_mid in Hd. destruct Hd as (Htm & Hl' & _).
    constructor; unfold clockShape, armShape, saveInFlight; cbn;
      rewrite ?filter_app, ?Htm, ?Hl'; cbn;
      try solve [intuition (try congruence; try lia)].
  - constructor; unfold clockShape, armShape, saveInFlight; cbn;
      rewrite ?filter_app; cbn;
      try solve [intuition (try congruence; try lia)].
Qed.

Lemma Inv_fireAll l : forall p,
  InvWith l p ->
  Inv (fold_left (fun p t => commit (runCallback (timer_callback t) p)) l p).
Proof.
  induction l as [|t l IH]; intros p H; cbn; [exact H|].
  apply IH, Inv_runCallback, H.
Qed.

Lemma filter_split_single {A} (f g : A -> bool) l :
  filter f (filter (fun x => negb (g x)) l ++ filter g l)
  = (filter (fun x => negb (g x)) (filter f l) ++ filter g (filter f l))%list.
Proof.
  rewrite filter_app, (filter_comm f), (filter_comm f g). reflexivity.
Qed.

Lemma Inv_advance d p : Inv p -> Inv (advance d p).
Proof.
  intros H. unfold advance. destruct (Qle_bool 0 d); [|exact H].
  apply Inv_fireAll.
  inv_open p H.
  constructor; unfold clockShape, armShape, saveInFlight; cbn;
    try solve [intuition (try congruence; try lia)].
  rewrite filter_split_single.
  destruct Harm as [Ha Hn]. split.
  - intros Hs. destruct (Ha Hs) as [Hz [due Hd]]. split; [exact Hz|].
    exists due. rewrite Hd. cbn. destruct (isDue _ _); reflexivity.
  - intros Hs. rewrite (Hn Hs). reflexivity.
Qed.

(** Resolutions: one pending call leaves the list, at most one joins it. *)
Lemma count_remove_nth {A} (f : A -> bool) l : forall i k,
  nth_error l i = Some k ->
  List.length (filter f l)
  = ((if f k then 1 else 0) + List.length (filter f (remove_nth i l)))%nat.
Proof.
  induction l as [|x l IH]; intros [|i] k; cbn; try discriminate.
  - intros [= ->]. destruct (f k); reflexivity.
  - intros Hk. specialize (IH _ _ Hk). destruct (f x), (f k); cbn in *; lia.
Qed.

Lemma existsb_remove_nth {A} (f : A -> bool) l : forall i,
  existsb f (remove_nth i l) = true -> existsb f l = true.
Proof.
  induction l as [|x l IH]; intros [|i]; cbn; auto.
  - intros ->. apply orb_true_r.
  - destruct (f x); cbn; auto. apply IH.
Qed.

Lemma existsb_nth_error {A} (f : A -> bool) l : forall i k,
  nth_error l i = Some k -> f k = true -> existsb f l = true.
Proof.
  induction l as [|x l IH]; intros [|i] k; cbn; try discriminate.
  - intros [= ->] ->. reflexivity.
  - intros Hk Hf. rewrite (IH _ _ Hk Hf). apply orb_true_r.
Qed.

Lemma Inv_resolve i r p : Inv p -> Inv (commit (resolve i r p)).
Proof.
  intros H. unfold resolve.
  destruct (nth_error (pending p) i) as [k|] eqn:Hk; [|apply Inv_commit_same, H].
  destruct (resume k r _) as [p'|] eqn:Hr; [|apply Inv_commit_same, H].
  pose proof (count_remove_nth holdsLoading _ _ _ Hk) as Hc.
  pose proof (existsb_remove_nth isSave (pending p) i) as He.
  pose proof (existsb_nth_error isSave _ _ _ Hk) as Hn.
  inv_open p H. cbn in Hk, Hc, He, Hn. rewrite Hc in Hcount. clear Hc.
  destruct k, r; cbn in Hr; try discriminate Hr;
    injection Hr as <-;
    unfold loadNewScramble, loadStats, saveSolve_finish; cbn in *;
    (destruct ld; [|try discriminate Hcount]);
    try (injection Hcount as Hcount);
    try no_save_in (remove_nth i pd);
    inv_close.
Qed.

Lemma Inv_step e p : Inv p -> Inv (step e p).
Proof.
  intros H. destruct e; cbn.
  - apply Inv_handleSpaceDown, H.
  - apply Inv_handleSpaceUp, H.
  - destruct (loading p); [exact H | apply Inv_handleManualStart, H].
  - destruct (TimerState_eqb _ _); [exact H | apply Inv_toggleInspection, H].
  - destruct (lastSolve p); [|exact H].
    destruct (loading p) eqn:Hl; [exact H|].
    apply Inv_handleUpdateLastSolvePenalty; auto.
  - destruct (lastSolve p) as [s|]; [|exact H].
    destruct (mlScore s); [exact H|].
    destruct (loading p); [exact H | apply Inv_handleScoreSolve, H].
  - destruct (_ || _ || _); [exact H | apply Inv_handleRevealOptimalSolution, H].
  - destruct (_ || _ || _); [exact H | apply Inv_loadNewScramble, H].
  - apply Inv_advance, H.
  - apply Inv_runFrame, H.
  - apply Inv_resolve, H.
Qed.

Lemma reachable_Inv p : reachable p -> Inv p.
Proof.
  induction 1 as [stored t0 | e p _ IH]; [apply Inv_mount | apply Inv_step, IH].
Qed.

Lemma Inv_run es : forall p, Inv p -> Inv (run es p).
Proof.
  induction es as [|e es IH]; intros p H; cbn; [exact H|].
  apply IH, Inv_step, H.
Qed.

Lemma reachable_run es : forall p, reachable p -> reachable (run es p).
Proof.
  induction es as [|e es IH]; intros p H; cbn; [exact H|].
  apply IH, reachable_step, H.
Qed.

(** ** The guard of the handlers *)
Lemma save_holds_loading pd :
  existsb isSave pd = true -> (1 <= List.length (filter holdsLoading pd))%nat.
Proof.
  induction pd as [|k pd IH]; cbn; [discriminate|].
  destruct k; cbn; intros H; try lia; auto.
Qed.

Lemma saveInFlight_loading p : Inv p -> saveInFlight p = true -> loading p = true.
Proof.
  intros H Hs. apply save_holds_loading in Hs.
  pose proof (inv_loading _ _ H) as Hc. destruct (loading p); [reflexivity | lia].
Qed.

Lemma guard_KeyDown p : Inv p -> loading p = true -> step KeyDown p = p.
Proof.
  intros H Hl. cbn. unfold handleSpaceDown.
  rewrite (inv_loadingRef _ _ H), Hl. apply commit_id; apply H.
Qed.

Lemma guard_KeyUp p : Inv p -> loading p = true -> step KeyUp p = p.
Proof.
  intros H Hl. cbn. unfold handleSpaceUp.
  rewrite (inv_loadingRef _ _ H), Hl. apply commit_id; apply H.
Qed.

Lemma guard_ManualStart p : loading p = true -> step ManualStart p = p.
Proof. intros Hl. cbn. rewrite Hl. reflexivity. Qed.

(** ** How the events move the timer state *)
Lemma timerState_fireAll l : forall p,
  timerStateRef p = timerState p ->
  let q := fold_left (fun p t => commit (runCallback (timer_callback t) p)) l p in
  timerState q = timerState p \/ (timerState p = arming /\ timerState q = ready).
Proof.
  induction l as [|t l IH]; intros p Hp; cbn [fold_left]; cbv zeta;
    [left; reflexivity|].
  set (p' := commit (runCallback (timer_callback t) p)).
  assert (Hp' : timerStateRef p' = timerState p') by (subst p'; destruct p; reflexivity).
  assert (Ht : timerState p' = timerState p \/
               (timerState p = arming /\ timerState p' = ready)).
  { subst p'. destruct t as [h due []]; [|left; destruct p; reflexivity].
    cbn. unfold armCallback. rewrite Hp.
    destruct (timerState p) eqn:E; destruct p; cbn in *; auto. }
  specialize (IH p' Hp'). cbv zeta in IH.
  destruct IH as [IH | [IH1 IH2]], Ht as [Ht | [Ht1 Ht2]].
  - left; congruence.
  - right; split; congruence.
  - right; split; congruence.
  - congruence.
Qed.

Lemma timerState_advance d p :
  timerStateRef p = timerState p ->
  timerState (advance d p) = timerState p \/
  (timerState p = arming /\ timerState (advance d p) = ready).
Proof.
  intros Hp. unfold advance. destruct (Qle_bool 0 d); [|left; reflexivity].
  match goal with |- context [fold_left _ ?l ?q] =>
    pose proof (timerState_fireAll l q) as H end.
  destruct p; cbn in *. auto.
Qed.

Lemma timerState_runFrame p : timerState (runFrame p) = timerState p.
Proof.
  unfold runFrame.
  assert (G : forall l q, timerState (fold_left
      (fun p e => commit (tick (snd e) (set_rafLog (RafRun (fst e) :: rafLog p) p))) l q)
      = timerState q).
  { induction l as [|e l IH]; intros q; cbn; [reflexivity|].
    rewrite IH. destruct q, e as [h []]; reflexivity. }
  rewrite G. destruct p; reflexivity.
Qed.

Lemma timerState_resolve i r p : timerState (resolve i r p) = timerState p.
Proof.
  unfold resolve. destruct (nth_error _ _) as [k|]; [|reflexivity].
  destruct (resume k r _) as [p'|] eqn:Hr; [|reflexivity].
  destruct p, k, r; cbn in Hr; try discriminate Hr; injection Hr as <-; reflexivity.
Qed.

Lemma timerState_commit p : timerState (commit p) = timerState p.
Proof. destruct p; reflexivity. Qed.

Ltac state_cases :=
  repeat match goal with
         | |- context [truthy ?x] => destruct (truthy x); cbn
         | |- context [if ?b then _ else _] => destruct b; cbn
         | |- context [match ?ts with idle => _ | _ => _ end] => destruct ts; cbn
         end.

Lemma timerState_step_edges e p :
  Inv p ->
  timerState (step e p) = timerState p
  \/ tableEdge (timerState p) (timerState (step e p)) = true
  \/ (e = ManualStart /\
      manualEdge (inspectionEnabled p) (timerState p) (timerState (step e p)) = true).
Proof.
  intros H. destruct e.
  - cbn. unfold handleSpaceDown, beginSolveFromInspection, stopTimer, startTimer,
      stopInspection, cancelStopwatch.
    rewrite (inv_loadingRef _ _ H), (inv_stateRef _ _ H).
    destruct p; cbn. state_cases; auto.
  - cbn. unfold handleSpaceUp, startInspection, startTimer,
      stopInspection, cancelStopwatch.
    rewrite (inv_loadingRef _ _ H), (inv_stateRef _ _ H).
    destruct p; cbn. state_cases; auto.
  - cbn. unfold handleManualStart, beginSolveFromInspection, stopTimer, startTimer,
      startInspection, stopInspection, cancelStopwatch.
    rewrite (inv_loadingRef _ _ H).
    destruct p; cbn. state_cases; auto.
  - left. cbn. destruct (TimerState_eqb _ _); [reflexivity|]. destruct p; reflexivity.
  - left. cbn. unfold handleUpdateLastSolvePenalty.
    destruct (lastSolve p) eqn:E; [|reflexivity].
    destruct (loading p); [reflexivity|]. destruct p; reflexivity.
  - left. cbn. destruct (lastSolve p) as [s|]; [|reflexivity].
    destruct (mlScore s); [reflexivity|].
    destruct (loading p); [reflexivity|]. destruct p; reflexivity.
  - left. cbn. destruct (_ || _ || _) eqn:E; [reflexivity|].
    rewrite timerState_commit. unfold handleRevealOptimalSolution. rewrite E.
    destruct (negb confirmed); [reflexivity|].
    match goal with |- context [if ?b then _ else _] => destruct b end;
      destruct p; reflexivity.
  - left. cbn. destruct (_ || _ || _); [reflexivity|]. destruct p; reflexivity.
  - cbn. destruct (timerState_advance d p (inv_stateRef _ _ H)) as [E | [E1 E2]];
      [left; exact E | right; left; rewrite E1, E2; reflexivity].
  - left. apply timerState_runFrame.
  - left. unfold step. rewrite timerState_commit. apply timerState_resolve.
Qed.

Lemma timerState_unmount p : timerState (unmount p) = timerState p.
Proof.
  unfold unmount, cancelStopwatch.
  destruct (truthy (animationFrameRef p)) eqn:E1; cbn;
    match goal with |- context [truthy (inspectionRafRef ?q)] =>
      destruct (truthy (inspectionRafRef q)) eqn:E2 end; cbn;
    match goal with |- context [truthy (armingTimeoutRef ?q)] =>
      destruct (truthy (armingTimeoutRef q)) eqn:E3 end;
    destruct p; reflexivity.
Qed.

Lemma rafQueue_unmount p : Inv p -> rafQueue (unmount p) = [].
Proof.
  intros H. inv_open p H. unfold unmount, cancelStopwatch, clearTimeout. cbn.
  destruct ts; try contradiction; destruct Hclock as (Ha & Hi & Hq); subst;
    cbn; rewrite ?(truthy_true _ Ha), ?(truthy_true _ Hi); cbn;
    destruct (truthy atr); cbn; rewrite ?Z.eqb_refl; reflexivity.
Qed.

(** ** The claims *)

(** C10. The state ['stopped'] is declared but never assigned: on every page
    the events can produce, the timer state (and its mirror in
    [timerStateRef]) is one of idle, arming, ready, inspection and running,
    and the unmount cleanup leaves the state as it is. *)
Theorem C10_stopped_unreachable (p : Page) :
  reachable p ->
  timerState p <> stopped /\
  timerStateRef p <> stopped /\
  In (timerState p) [idle; arming; ready; inspection; running] /\
  timerState (unmount p) = timerState p.
Proof.
  intros Hr. apply reachable_Inv in Hr.
  pose proof (inv_clock _ _ Hr) as Hc. unfold clockShape in Hc.
  rewrite (inv_stateRef _ _ Hr), timerState_unmount.
  destruct (timerState p); cbn; try contradiction; intuition congruence.
Qed.

Lemma C10_witness :
  timerState inspectedRun <> stopped /\
  timerStateRef inspectedRun <> stopped /\
  In (timerState inspectedRun) [idle; arming; ready; inspection; running] /\
  timerState (unmount inspectedRun) = timerState inspectedRun.
Proof.
  apply (C10_stopped_unreachable inspectedRun).
  apply reachable_run, reachable_mount.
Defined.

(** C7. At most one frame callback is waiting at any time, every
    [requestAnimationFrame] the page ever made was made when no earlier
    request was still waiting (the running loop had been cancelled or had
    just been run by the browser), a waiting callback is the stopwatch tick
    of a running timer or the inspection tick of an inspection, and the
    unmount cleanup leaves none. *)
Theorem C7_one_clock_loop (p : Page) :
  reachable p ->
  (List.length (rafQueue p) <= 1)%nat /\
  disciplined (rafLog p) = true /\
  live (rafLog p) = map fst (rafQueue p) /\
  (forall h k, In (h, k) (rafQueue p) ->
     (k = StopwatchTick /\ timerState p = running /\ h = animationFrameRef p) \/
     (k = InspectionTick /\ timerState p = inspection /\ h = inspectionRafRef p)) /\
  rafQueue (unmount p) = [].
Proof.
  intros Hr. apply reachable_Inv in Hr.
  pose proof (inv_clock _ _ Hr) as Hc. unfold clockShape in Hc.
  destruct (inv_log _ _ Hr) as [Hd Hl].
  split; [|split; [exact Hd | split; [exact Hl | split;
    [|apply rafQueue_unmount, Hr]]]].
  - destruct (timerState p); try contradiction;
      destruct Hc as (_ & _ & ->); cbn; lia.
  - intros h k Hin.
    destruct (timerState p); try contradiction;
      destruct Hc as (_ & _ & Hq); rewrite Hq in Hin; cbn in Hin;
      try contradiction; destruct Hin as [[= <- <-] | []]; auto.
Qed.

Lemma C7_witness :
  (List.length (rafQueue inspectedRun) <= 1)%nat /\
  disciplined (rafLog inspectedRun) = true /\
  live (rafLog inspectedRun) = map fst (rafQueue inspectedRun) /\
  (forall h k, In (h, k) (rafQueue inspectedRun) ->
     (k = StopwatchTick /\ timerState inspectedRun = running /\
      h = animationFrameRef inspectedRun) \/
     (k = InspectionTick /\ timerState inspectedRun = inspection /\
      h = inspectionRafRef inspectedRun)) /\
  rafQueue (unmount inspectedRun) = [].
Proof.
  apply (C7_one_clock_loop inspectedRun).
  apply reachable_run, reachable_mount.
Defined.

(** C4, as stated, fails: on the freshly mounted page the Start button takes
    the state from idle straight to inspection, which is no edge of the
    table. *)
Lemma C4_counterexample :
  reachable unscrambledPage /\
  timerState unscrambledPage = idle /\
  timerState (step ManualStart unscrambledPage) = inspection /\
  ~ followsTable unscrambledPage ManualStart.
Proof.
  split; [apply reachable_mount|]. split; [reflexivity|]. split; [reflexivity|].
  unfold followsTable. intros [H | H]; vm_compute in H; discriminate.
Qed.

(** C4, amended. Every event leaves the timer state alone or moves it along
    an edge of the transition table, except that the Start button moves it
    from idle to inspection when inspection is enabled and from idle to
    running when it is not. *)
Theorem C4_transitions (p : Page) (e : Event) :
  reachable p ->
  followsTable p e \/
  (e = ManualStart /\
   manualEdge (inspectionEnabled p) (timerState p) (timerState (step e p)) = true).
Proof.
  intros Hr. apply reachable_Inv in Hr. unfold followsTable.
  destruct (timerState_step_edges e p Hr) as [H | [H | H]]; auto.
Qed.

Lemma C4_witness :
  followsTable inspectedRun KeyDown \/
  (KeyDown = ManualStart /\
   manualEdge (inspectionEnabled inspectedRun) (timerState inspectedRun)
     (timerState (step KeyDown inspectedRun)) = true).
Proof.
  apply (C4_transitions inspectedRun KeyDown).
  apply reachable_run, reachable_mount.
Defined.

(** C9. A penalty of "OK" is sent as [null], "+2" and "DNF" are sent as
    themselves; [saveSolveImmediately] applies this to the penalty it is
    given when it calls [createSolve], and [handleUpdateLastSolvePenalty]
    applies it to the clicked penalty when it calls [updateSolve]. *)
Theorem C9_penalty_field (p : Page) (finalTime : Z) (autoPenalty : string)
    (b : PenaltyButton) (s : Solve) :
  lastSolve p = Some s ->
  penaltyField "OK" = None /\
  penaltyField "+2" = Some "+2" /\
  penaltyField "DNF" = Some "DNF" /\
  (exists r,
      calls (saveSolveImmediately finalTime autoPenalty p)
      = (calls p ++ [createSolve r])%list /\
      req_timeMs r = finalTime /\
      req_penalty r = penaltyField autoPenalty) /\
  calls (handleUpdateLastSolvePenalty (penaltyLabel b) p)
  = (calls p ++ [updateSolve (id s) (penaltyField (penaltyLabel b))])%list.
Proof.
  intros Hs. split; [reflexivity|]. split; [reflexivity|]. split; [reflexivity|].
  split.
  - eexists. split; [destruct p; reflexivity|]. split; reflexivity.
  - unfold handleUpdateLastSolvePenalty. rewrite Hs. destruct p; reflexivity.
Qed.

Lemma C9_witness :
  penaltyField "OK" = None /\
  penaltyField "+2" = Some "+2" /\
  penaltyField "DNF" = Some "DNF" /\
  (exists r,
      calls (saveSolveImmediately 8000 "+2" savedPage)
      = (calls savedPage ++ [createSolve r])%list /\
      req_timeMs r = 8000 /\
      req_penalty r = penaltyField "+2") /\
  calls (handleUpdateLastSolvePenalty (penaltyLabel ButtonDNF) savedPage)
  = (calls savedPage ++ [updateSolve 7 (penaltyField (penaltyLabel ButtonDNF))])%list.
Proof.
  apply (C9_penalty_field savedPage 8000 "+2" ButtonDNF
           (mkSolve 7 12345 None None None None None)).
  reflexivity.
Defined.

(** ** Stopping a running timer *)
Lemma step_stop p e :
  Inv p -> timerState p = running -> loading p = false ->
  e = KeyDown \/ e = ManualStart ->
  step e p = commit (stopTimer p).
Proof.
  intros H Hs Hl [-> | ->]; cbn.
  - unfold handleSpaceDown.
    rewrite (inv_loadingRef _ _ H), (inv_stateRef _ _ H), Hl, Hs. reflexivity.
  - unfold handleManualStart. rewrite Hl, Hs. reflexivity.
Qed.

Lemma stopTimer_effect p :
  Inv p -> timerState p = running ->
  let a := autoPenaltyOf (inspectionEnabled p) (inspectionOverMs p) in
  let r := {| req_scramble := scramble p;
              req_timeMs := Qfloor (double_sub (performance_now p) (startTimeRef p));
              req_penalty := penaltyField a;
              req_source := "timer";
              req_event := "3x3";
              req_state := if truthy_string (scrambleState p)
                           then Some (scrambleState p) else None |} in
  let q := commit (stopTimer p) in
  rafQueue (cancelStopwatch p) = [] /\
  animationFrameRef (cancelStopwatch p) = 0 /\
  calls q = (calls p ++ [createSolve r])%list /\
  pending q = (pending p ++ [AwaitCreateSolve a])%list /\
  timerState q = idle /\ currentTime q = 0 /\ rafQueue q = [] /\
  loading q = true.
Proof.
  intros H Hs. inv_open p H. cbn in Hs. subst ts.
  destruct Hclock as (Ha & Hi & Hq). subst irr rq.
  unfold stopTimer, cancelStopwatch. cbn. rewrite (truthy_true _ Ha). cbn.
  rewrite Z.eqb_refl. cbn. repeat split; reflexivity.
Qed.

Lemma stopTimer_frames p :
  Inv p -> timerState p = running ->
  let q := commit (stopTimer p) in
  rafQueue p = [(animationFrameRef p, StopwatchTick)] /\
  rafLog q = RafCancel (animationFrameRef p) :: rafLog p /\
  animationFrameRef q = 0.
Proof.
  intros H Hs. inv_open p H. cbn in Hs. subst ts.
  destruct Hclock as (Ha & Hi & Hq). subst irr rq.
  unfold stopTimer, cancelStopwatch. cbn. rewrite (truthy_true _ Ha). cbn.
  repeat split; reflexivity.
Qed.

Lemma saveInFlight_app p k :
  existsb isSave (pending p ++ [k]) = saveInFlight p || isSave k.
Proof. unfold saveInFlight. rewrite existsb_app. cbn. rewrite orb_false_r. reflexivity. Qed.

(** What a frame publishes: the remaining and the overrun time during the
    inspection, the elapsed milliseconds while the stopwatch runs. *)
Lemma frame_publishes p :
  Inv p ->
  let q := step Frame p in
  (timerState p = inspection ->
   let elapsed := double_sub (performance_now p) (inspectionStartRef p) in
   inspectionMsLeft q = Qmax 0 (double_sub INSPECTION_MS elapsed) /\
   inspectionOverMs q = Qmax 0 (double_sub elapsed INSPECTION_MS)) /\
  (timerState p = running ->
   currentTime q = Qfloor (double_sub (performance_now p) (startTimeRef p)) /\
   inspectionOverMs q = inspectionOverMs p).
Proof.
  intros H. inv_open p H. cbn. unfold runFrame. cbn.
  split; intros ->; destruct Hclock as (_ & _ & ->); cbn; auto.
Qed.


(** ** The call log only grows *)
Lemma calls_fireAll l : forall p,
  calls (fold_left (fun p t => commit (runCallback (timer_callback t) p)) l p)
  = calls p.
Proof.
  induction l as [|t l IH]; intros p; cbn [fold_left]; [reflexivity|].
  rewrite IH. destruct t as [h due []]; cbn; unfold armCallback;
    [destruct (TimerState_eqb _ _)|]; destruct p; reflexivity.
Qed.

Lemma calls_runFrame p : calls (runFrame p) = calls p.
Proof.
  unfold runFrame.
  assert (G : forall l q, calls (fold_left
      (fun p e => commit (tick (snd e) (set_rafLog (RafRun (fst e) :: rafLog p) p))) l q)
      = calls q).
  { induction l as [|e l IH]; intros q; cbn [fold_left]; [reflexivity|].
    rewrite IH. destruct q, e as [h []]; reflexivity. }
  rewrite G. destruct p; reflexivity.
Qed.

Lemma calls_commit p : calls (commit p) = calls p.
Proof. destruct p; reflexivity. Qed.

Ltac grows_by l := exists l; rewrite <- ?app_assoc, ?app_nil_r; reflexivity.

Lemma calls_stop_start p :
  (exists more, calls (stopTimer p) = (calls p ++ more)%list) /\
  calls (startTimer p) = calls p /\
  calls (startInspection p) = calls p /\
  calls (beginSolveFromInspection p) = calls p.
Proof.
  unfold stopTimer, beginSolveFromInspection, startInspection, startTimer,
    stopInspection, cancelStopwatch.
  destruct p; cbn. repeat split; state_cases; try reflexivity; eexists; reflexivity.
Qed.

Lemma calls_step e p : exists more, calls (step e p) = (calls p ++ more)%list.
Proof.
  destruct (calls_stop_start p) as ([m Hm] & Hst & Hsi & Hb).
  destruct e; unfold step.
  - rewrite calls_commit. unfold handleSpaceDown.
    destruct (loadingRef p); [grows_by (@nil ApiCall)|].
    destruct (timerStateRef p); try grows_by (@nil ApiCall).
    + rewrite Hb. grows_by (@nil ApiCall).
    + exists m. exact Hm.
  - rewrite calls_commit. unfold handleSpaceUp, startInspection, startTimer,
      stopInspection, cancelStopwatch.
    destruct p; cbn. state_cases; grows_by (@nil ApiCall).
  - destruct (loading p) eqn:Hl; [grows_by (@nil ApiCall)|].
    rewrite calls_commit. unfold handleManualStart. rewrite Hl.
    destruct (timerState p); try grows_by (@nil ApiCall).
    + destruct (inspectionEnabled p); rewrite ?Hsi, ?Hst; grows_by (@nil ApiCall).
    + rewrite Hb. grows_by (@nil ApiCall).
    + exists m. exact Hm.
  - destruct (TimerState_eqb _ _); [|destruct p]; grows_by (@nil ApiCall).
  - unfold handleUpdateLastSolvePenalty.
    destruct (lastSolve p) eqn:E; [|grows_by (@nil ApiCall)].
    destruct (loading p); [grows_by (@nil ApiCall)|].
    destruct p; cbn; eexists; reflexivity.
  - destruct (lastSolve p) as [s|]; [|grows_by (@nil ApiCall)].
    destruct (mlScore s); [grows_by (@nil ApiCall)|].
    destruct (loading p); [grows_by (@nil ApiCall)|].
    destruct p; cbn; eexists; reflexivity.
  - destruct (_ || _ || _) eqn:E; [grows_by (@nil ApiCall)|].
    rewrite calls_commit. unfold handleRevealOptimalSolution. rewrite E.
    destruct (negb confirmed); [grows_by (@nil ApiCall)|].
    match goal with |- context [if ?b then _ else _] => destruct b end;
      destruct p; cbn; [grows_by (@nil ApiCall) | eexists; reflexivity].
  - destruct (_ || _ || _); [grows_by (@nil ApiCall)|].
    destruct p; cbn; eexists; reflexivity.
  - unfold advance. destruct (Qle_bool 0 d); [|grows_by (@nil ApiCall)].
    rewrite calls_fireAll. destruct p; grows_by (@nil ApiCall).
  - rewrite calls_runFrame. grows_by (@nil ApiCall).
  - rewrite calls_commit. unfold resolve.
    destruct (nth_error _ _) as [k|]; [|grows_by (@nil ApiCall)].
    destruct (resume k r _) as [p'|] eqn:Hr; [|grows_by (@nil ApiCall)].
    destruct p, k, r; cbn in Hr; try discriminate Hr; injection Hr as <-; cbn;
      first [grows_by (@nil ApiCall) | eexists; rewrite <- ?app_assoc; reflexivity].
Qed.

Lemma calls_run es :
  forall p, exists more, calls (run es p) = (calls p ++ more)%list.
Proof.
  induction es as [|e es IH]; intros p; cbn; [grows_by (@nil ApiCall)|].
  destruct (calls_step e p) as [m1 H1]. destruct (IH (step e p)) as [m2 H2].
  exists (m1 ++ m2)%list. unfold run in H2. rewrite H2, H1, app_assoc. reflexivity.
Qed.

(** C3, as stated, fails in its last clause: right after the stop the save
    is in flight and the next key press does not arm a new attempt. *)
Lemma C3_counterexample :
  reachable plainRun /\ timerState plainRun = running /\
  timerState plainStopped = idle /\ saveInFlight plainStopped = true /\
  timerState (step KeyDown plainStopped) = idle /\
  ~ rearmsDuringSave plainStopped.
Proof.
  split; [apply reachable_run, reachable_mount|].
  split; [reflexivity|]. split; [reflexivity|]. split; [reflexivity|].
  split; [reflexivity|].
  unfold rearmsDuringSave. intros H. specialize (H eq_refl).
  vm_compute in H. discriminate.
Qed.

(** C3, amended. Stopping a running timer (by the key or by the button)
    cancels the callback the stopwatch loop had pending, the one frame action
    of the stop, and leaves none; the elapsed time handed to [createSolve] is
    the floor of the clock at the stop minus the start time, as the
    subtraction of two doubles gives it; the call is left unresolved, the
    state is idle at once.  No later event changes the request that was
    sent.  Right after the stop, and for as long as the save has not
    returned, the key and the button do nothing, so the next attempt can be
    armed only after the save has completed. *)
Theorem C3_stop_sequence (p : Page) (e : Event) :
  reachable p -> timerState p = running -> loading p = false ->
  e = KeyDown \/ e = ManualStart ->
  let q := step e p in
  rafQueue p = [(animationFrameRef p, StopwatchTick)] /\
  rafLog q = RafCancel (animationFrameRef p) :: rafLog p /\
  rafQueue q = [] /\ animationFrameRef q = 0 /\
  (exists r,
      calls q = (calls p ++ [createSolve r])%list /\
      req_timeMs r
      = Qfloor (double_sub (performance_now p) (startTimeRef p)) /\
      forall es, exists more,
        calls (run es q) = ((calls p ++ [createSolve r]) ++ more)%list) /\
  saveInFlight q = true /\
  timerState q = idle /\ currentTime q = 0 /\
  step KeyDown q = q /\ step KeyUp q = q /\ step ManualStart q = q /\
  forall es,
    saveInFlight (run es q) = true ->
    step KeyDown (run es q) = run es q /\
    step ManualStart (run es q) = run es q.
Proof.
  intros Hr Hs Hl He q. apply reachable_Inv in Hr.
  assert (Hq : Inv q) by (apply Inv_step, Hr).
  subst q. rewrite (step_stop p e Hr Hs Hl He) in *.
  destruct (stopTimer_effect p Hr Hs) as (_ & _ & Hc & Hp & Hi & Ht & Hf & Hld).
  destruct (stopTimer_frames p Hr Hs) as (Hq0 & Hlog & Href).
  split; [exact Hq0|]. split; [exact Hlog|]. split; [exact Hf|].
  split; [exact Href|]. split.
  { eexists. split; [exact Hc|]. split; [reflexivity|].
    intros es. rewrite <- Hc. apply calls_run. }
  split.
  { unfold saveInFlight. rewrite Hp, saveInFlight_app. apply orb_true_r. }
  split; [exact Hi|]. split; [exact Ht|].
  split; [apply guard_KeyDown; assumption|].
  split; [apply guard_KeyUp; assumption|].
  split; [apply guard_ManualStart; assumption|].
  intros es Hes.
  assert (Ies : Inv (run es (commit (stopTimer p)))) by (apply Inv_run, Hq).
  pose proof (saveInFlight_loading _ Ies Hes) as Hles.
  split; [apply guard_KeyDown; assumption | apply guard_ManualStart; assumption].
Qed.

Lemma C3_witness :
  let q := step KeyDown plainRun in
  rafQueue plainRun = [(animationFrameRef plainRun, StopwatchTick)] /\
  rafLog q = RafCancel (animationFrameRef plainRun) :: rafLog plainRun /\
  rafQueue q = [] /\ animationFrameRef q = 0 /\
  (exists r,
      calls q = (calls plainRun ++ [createSolve r])%list /\
      req_timeMs r
      = Qfloor (double_sub (performance_now plainRun) (startTimeRef plainRun)) /\
      forall es, exists more,
        calls (run es q) = ((calls plainRun ++ [createSolve r]) ++ more)%list) /\
  saveInFlight q = true /\
  timerState q = idle /\ currentTime q = 0 /\
  step KeyDown q = q /\ step KeyUp q = q /\ step ManualStart q = q /\
  forall es,
    saveInFlight (run es q) = true ->
    step KeyDown (run es q) = run es q /\
    step ManualStart (run es q) = run es q.
Proof.
  apply (C3_stop_sequence plainRun KeyDown).
  - apply reachable_run, reachable_mount.
  - reflexivity.
  - reflexivity.
  - left; reflexivity.
Defined.

(** The time that is sent is the floor of a difference of doubles, not of
    the exact difference: with the clock at the doubles nearest to 0.3 and
    12345.3 the difference is 12345, where the exact difference of the two
    doubles is just below it. *)
Example stop_time_is_rounded :
  let start := round64 (3 # 10) in
  let stop := round64 (123453 # 10) in
  Qfloor (double_sub stop start) = 12345 /\ Qfloor (stop - start) = 12344.
Proof. vm_compute. split; reflexivity. Qed.

(** ** The end of a save *)
Lemma existsb_remove_other {A} (f : A -> bool) l : forall i k,
  nth_error l i = Some k -> f k = false -> existsb f l = true ->
  existsb f (remove_nth i l) = true.
Proof.
  induction l as [|x l IH]; intros [|i] k; cbn; try discriminate.
  - intros [= ->] ->. auto.
  - intros Hk Hf. destruct (f x); cbn; auto. apply (IH _ _ Hk Hf).
Qed.

Lemma saveInFlight_commit p : saveInFlight (commit p) = saveInFlight p.
Proof. destruct p; reflexivity. Qed.

Lemma loading_commit p : loading (commit p) = loading p.
Proof. destruct p; reflexivity. Qed.

Lemma resolve_ends_save i r p :
  Inv p -> saveInFlight p = true ->
  saveInFlight (resolve i r p) = false -> loading (resolve i r p) = false.
Proof.
  intros H Hs. unfold resolve.
  destruct (nth_error (pending p) i) as [k|] eqn:Hk; [|congruence].
  destruct (resume k r _) as [p'|] eqn:Hr; [|congruence].
  pose proof (count_remove_nth holdsLoading _ _ _ Hk) as Hc.
  pose proof (existsb_remove_other isSave _ _ _ Hk) as Ho.
  pose proof (saveInFlight_loading p H Hs) as Hl.
  inv_open p H. cbn in Hk, Hc, Ho, Hs, Hl. subst ld.
  rewrite Hc in Hcount. clear Hc.
  destruct k, r; cbn in Hr; try discriminate Hr; injection Hr as <-;
    unfold loadNewScramble, loadStats, saveSolve_finish; cbn in *;
    rewrite ?existsb_app; cbn; rewrite ?orb_true_r;
    try reflexivity; try discriminate;
    intros Hf; rewrite (Ho eq_refl Hs) in Hf; discriminate.
Qed.

Lemma KeyDown_arms p :
  Inv p -> loading p = false -> timerState p = idle ->
  timerState (step KeyDown p) = arming.
Proof.
  intros H Hl Hs. cbn. unfold handleSpaceDown.
  rewrite (inv_loadingRef _ _ H), (inv_stateRef _ _ H), Hl, Hs.
  destruct p; reflexivity.
Qed.

Lemma ManualStart_starts p :
  Inv p -> loading p = false -> timerState p = idle ->
  timerState (step ManualStart p)
  = if inspectionEnabled p then inspection else running.
Proof.
  intros H Hl Hs. cbn. unfold handleManualStart, startInspection, startTimer.
  rewrite Hl, Hs, (inv_loadingRef _ _ H), Hl.
  destruct (inspectionEnabled p); unfold cancelStopwatch, stopInspection;
    destruct p; cbn; state_cases; reflexivity.
Qed.

Lemma input_ignored q : Inv q -> loading q = true -> inputIgnored q.
Proof.
  intros I L. split; [apply guard_KeyDown; assumption|].
  split; [apply guard_KeyUp; assumption | apply guard_ManualStart; assumption].
Qed.

Lemma input_resumed q :
  Inv q -> loading q = false -> timerState q = idle -> inputResumed q.
Proof.
  intros I L S. split; [exact L|]. split; [rewrite (inv_loadingRef _ _ I); exact L|].
  split; [exact S|].
  split; [apply KeyDown_arms; assumption | apply ManualStart_starts; assumption].
Qed.

(** What the answers to the three calls of a save do to [loading] and to
    the calls that are awaited. *)
Lemma save_answers i p :
  (forall a, nth_error (pending p) i = Some (AwaitCreateSolve a) ->
     loading (step (Resolve i Failed) p) = false /\
     forall s, let q := step (Resolve i (SolveCreated s)) p in
       loading q = loading p /\
       pending q = (remove_nth i (pending p) ++ [AwaitAutoScore (id s)])%list) /\
  (forall n r, nth_error (pending p) i = Some (AwaitAutoScore n) ->
     isScoreAnswer r = true ->
     let q := step (Resolve i r) p in
     loading q = loading p /\
     pending q = (remove_nth i (pending p) ++ [AwaitScrambleAfterSave])%list) /\
  (forall r, nth_error (pending p) i = Some AwaitScrambleAfterSave ->
     isScrambleAnswer r = true ->
     loading (step (Resolve i r) p) = false).
Proof.
  unfold step, resolve. split; [|split].
  - intros a Hk. rewrite Hk. split; [destruct p; reflexivity|].
    intros s. destruct p; split; reflexivity.
  - intros n r Hk Hr. rewrite Hk.
    destruct r; try discriminate Hr; destruct p; split; reflexivity.
  - intros r Hk Hr. rewrite Hk.
    destruct r; try discriminate Hr; destruct p; reflexivity.
Qed.

(** C2. While a save is in flight, the key-down, key-up and Start/Stop
    handlers change nothing at all: no state transition, no frame callback,
    no timeout, no call.  The save is the three calls of
    [saveSolveImmediately], one after the other, and each answer moves it
    on.  When [createSolve] fails the save is over and input handling has
    resumed: nothing is loading, the page is idle, the key arms and the
    button starts.  When it succeeds the score call is awaited next, then,
    whatever the score call answers, the scramble call, and the inputs are
    still ignored; whatever the scramble call answers, the save is over and
    input handling has resumed.  In short, whichever answer ends the save,
    input handling has resumed after it. *)
Theorem C2_guard_while_saving (p : Page) :
  reachable p -> saveInFlight p = true ->
  inputIgnored p /\
  (exists i k, nth_error (pending p) i = Some k /\ isSave k = true) /\
  (forall i a, nth_error (pending p) i = Some (AwaitCreateSolve a) ->
     inputResumed (step (Resolve i Failed) p) /\
     forall s, let q := step (Resolve i (SolveCreated s)) p in
       pending q = (remove_nth i (pending p) ++ [AwaitAutoScore (id s)])%list /\
       saveInFlight q = true /\ inputIgnored q) /\
  (forall i n r, nth_error (pending p) i = Some (AwaitAutoScore n) ->
     isScoreAnswer r = true ->
     let q := step (Resolve i r) p in
     pending q = (remove_nth i (pending p) ++ [AwaitScrambleAfterSave])%list /\
     saveInFlight q = true /\ inputIgnored q) /\
  (forall i r, nth_error (pending p) i = Some AwaitScrambleAfterSave ->
     isScrambleAnswer r = true ->
     inputResumed (step (Resolve i r) p)) /\
  (forall (i : nat) (r : Response),
     let q := step (Resolve i r) p in
     saveInFlight q = false -> inputResumed q).
Proof.
  intros Hr Hs. apply reachable_Inv in Hr.
  pose proof (saveInFlight_loading p Hr Hs) as Hl.
  assert (Hidle : forall i r, timerState (step (Resolve i r) p) = idle).
  { intros i r. unfold step. rewrite timerState_commit, timerState_resolve.
    apply (inv_save _ _ Hr Hs). }
  assert (Hinv : forall i r, Inv (step (Resolve i r) p))
    by (intros; apply Inv_step, Hr).
  split; [apply input_ignored; assumption|]. split.
  { unfold saveInFlight in Hs. apply existsb_exists in Hs.
    destruct Hs as (k & Hin & Hk). apply In_nth_error in Hin.
    destruct Hin as [i Hi]. exists i, k. split; assumption. }
  split; [|split; [|split]].
  - intros i a Hk. destruct (save_answers i p) as (A & _ & _).
    destruct (A a Hk) as (A1 & A2). split; [apply input_resumed; auto|].
    intros s q. destruct (A2 s) as (B1 & B2). fold q in B1, B2.
    split; [exact B2|]. split.
    + unfold saveInFlight. rewrite B2, existsb_app. cbn. apply orb_true_r.
    + apply input_ignored; [apply Hinv | congruence].
  - intros i n r Hk Ha q. destruct (save_answers i p) as (_ & A & _).
    destruct (A n r Hk Ha) as (B1 & B2). fold q in B1, B2.
    split; [exact B2|]. split.
    + unfold saveInFlight. rewrite B2, existsb_app. cbn. apply orb_true_r.
    + apply input_ignored; [apply Hinv | congruence].
  - intros i r Hk Ha. destruct (save_answers i p) as (_ & _ & A).
    apply input_resumed; auto.
  - intros i r q Hq. apply input_resumed; [apply Hinv | | apply Hidle].
    subst q. unfold step in *. rewrite saveInFlight_commit in Hq.
    rewrite loading_commit. apply resolve_ends_save; assumption.
Qed.

Lemma C2_witness :
  inputIgnored plainStopped /\
  (exists i k, nth_error (pending plainStopped) i = Some k /\ isSave k = true) /\
  (forall i a, nth_error (pending plainStopped) i = Some (AwaitCreateSolve a) ->
     inputResumed (step (Resolve i Failed) plainStopped) /\
     forall s, let q := step (Resolve i (SolveCreated s)) plainStopped in
       pending q
       = (remove_nth i (pending plainStopped) ++ [AwaitAutoScore (id s)])%list /\
       saveInFlight q = true /\ inputIgnored q) /\
  (forall i n r, nth_error (pending plainStopped) i = Some (AwaitAutoScore n) ->
     isScoreAnswer r = true ->
     let q := step (Resolve i r) plainStopped in
     pending q
     = (remove_nth i (pending plainStopped) ++ [AwaitScrambleAfterSave])%list /\
     saveInFlight q = true /\ inputIgnored q) /\
  (forall i r, nth_error (pending plainStopped) i = Some AwaitScrambleAfterSave ->
     isScrambleAnswer r = true ->
     inputResumed (step (Resolve i r) plainStopped)) /\
  (forall (i : nat) (r : Response),
     let q := step (Resolve i r) plainStopped in
     saveInFlight q = false -> inputResumed q).
Proof.
  apply (C2_guard_while_saving plainStopped).
  - apply reachable_step, reachable_run, reachable_mount.
  - reflexivity.
Defined.

(** The two ways a save can end, on the stopped page: [createSolve] fails;
    or it succeeds, and the inputs are ignored until the score call and the
    scramble call have answered as well. *)
Example save_fails_at_once :
  let q := step (Resolve 1 Failed) plainStopped in
  saveInFlight q = false /\ loading q = false /\
  error q = "Failed to save solve" /\
  timerState (step KeyDown q) = arming.
Proof. vm_compute. repeat split; reflexivity. Qed.

Example save_runs_to_its_end :
  let q1 := step (Resolve 1 (SolveCreated (mkSolve 7 12345 None None None None None)))
                 plainStopped in
  let q2 := step (Resolve 1 Failed) q1 in
  let q3 := step (Resolve 1 Failed) q2 in
  pending q1 = [AwaitScramble; AwaitAutoScore 7] /\
  loading q1 = true /\ timerState (step KeyDown q1) = idle /\
  pending q2 = [AwaitScramble; AwaitScrambleAfterSave] /\
  loading q2 = true /\ timerState (step KeyDown q2) = idle /\
  q3 = savedPage /\
  saveInFlight q3 = false /\ loading q3 = false /\
  timerState (step KeyDown q3) = arming /\
  timerState (run [KeyDown; Wait 600%Q; KeyUp] q3) = running.
Proof. vm_compute. repeat split; reflexivity. Qed.

(** ** Holding the key *)











Lemma no_loading_holder l k :
  List.length (filter holdsLoading l) = 0%nat -> In k l -> holdsLoading k = false.
Proof.
  induction l as [|x l IH]; cbn; [contradiction|].
  destruct (holdsLoading x) eqn:E; [discriminate|].
  intros Hc [-> | Hin]; auto.
Qed.









Lemma KeyUp_arming p :
  Inv p -> loading p = false -> timerState p = arming ->
  timerState (step KeyUp p) = idle.
Proof.
  intros H Hl Hs. cbn. unfold handleSpaceUp.
  rewrite (inv_loadingRef _ _ H), (inv_stateRef _ _ H), Hl, Hs.
  destruct (truthy _); destruct p; reflexivity.
Qed.

Lemma KeyUp_ready p :
  Inv p -> loading p = false -> timerState p = ready ->
  let q := step KeyUp p in
  if inspectionEnabled p
  then timerState q = inspection /\
       inspectionStartRef q = performance_now p /\
       inspectionMsLeft q = INSPECTION_MS /\ inspectionOverMs q = 0%Q
  else timerState q = running /\
       startTimeRef q = performance_now p /\ currentTime q = 0.
Proof.
  intros H Hl Hs.
  pose proof (inv_loadingRef _ _ H) as E1. pose proof (inv_stateRef _ _ H) as E2.
  clear H. cbn. unfold handleSpaceUp, startInspection, startTimer,
    cancelStopwatch, stopInspection.
  destruct p; cbn in *. subst. state_cases; repeat split; reflexivity.
Qed.







(** C8. A click on Reveal Optimal Solution that the user confirms, on a page
    that is not running, not loading and not already computing: when the
    stored state is empty or not 54 characters long the error message is
    set and no call is issued (nothing is left pending, [solutionLoading]
    stays off); when it is 54 characters long [getOptimalSolution] is called
    with it. *)
Theorem C8_reveal_validation (p : Page) :
  timerState p <> running -> loading p = false -> solutionLoading p = false ->
  let q := step (RevealClick true) p in
  (scrambleState p = "" \/ String.length (scrambleState p) <> 54%nat ->
   error q = "Missing cube state for this scramble. (Expected 54 chars.)" /\
   calls q = calls p /\ pending q = pending p /\ solutionLoading q = false) /\
  (String.length (scrambleState p) = 54%nat ->
   calls q = (calls p ++ [getOptimalSolution (scrambleState p) "3x3"])%list /\
   pending q = (pending p ++ [AwaitOptimalSolution])%list /\
   solutionLoading q = true /\ error q = "").
Proof.
  intros Hs Hl Hsl q. subst q. unfold step, handleRevealOptimalSolution.
  assert (E : TimerState_eqb (timerState p) running = false)
    by (destruct (timerState p); try reflexivity; contradiction).
  rewrite E, Hl, Hsl. cbn [orb negb].
  split.
  - intros Hbad.
    assert (B : negb (truthy_string (scrambleState p))
                || negb (Z.of_nat (String.length (scrambleState p)) =? 54) = true).
    { destruct Hbad as [-> | Hn]; [reflexivity|].
      apply orb_true_iff. right. apply negb_true_iff, Z.eqb_neq. lia. }
    rewrite B. destruct p; cbn in *. subst. auto.
  - intros H54.
    assert (B : negb (truthy_string (scrambleState p))
                || negb (Z.of_nat (String.length (scrambleState p)) =? 54) = false).
    { rewrite H54. cbn. rewrite orb_false_r. unfold truthy_string.
      destruct (scrambleState p); [discriminate H54 | reflexivity]. }
    rewrite B. destruct p; cbn in *. subst. auto.
Qed.

Lemma C8_witness :
  let q := step (RevealClick true) unscrambledPage in
  (scrambleState unscrambledPage = "" \/
   String.length (scrambleState unscrambledPage) <> 54%nat ->
   error q = "Missing cube state for this scramble. (Expected 54 chars.)" /\
   calls q = calls unscrambledPage /\ pending q = pending unscrambledPage /\
   solutionLoading q = false) /\
  (String.length (scrambleState unscrambledPage) = 54%nat ->
   calls q = (calls unscrambledPage
              ++ [getOptimalSolution (scrambleState unscrambledPage) "3x3"])%list /\
   pending q = (pending unscrambledPage ++ [AwaitOptimalSolution])%list /\
   solutionLoading q = true /\ error q = "").
Proof.
  apply (C8_reveal_validation unscrambledPage).
  - discriminate.
  - reflexivity.
  - reflexivity.
Defined.

Example reveal_with_54_characters :
  calls (step (RevealClick true) scrambledPage)
  = (calls scrambledPage ++ [getOptimalSolution solvedCube "3x3"])%list.
Proof. reflexivity. Qed.

(** A click the user does not confirm issues no call and sets no message. *)
Lemma reveal_not_confirmed p :
  loadingRef p = loading p -> timerStateRef p = timerState p ->
  step (RevealClick false) p = p.
Proof.
  intros H1 H2. unfold step, handleRevealOptimalSolution.
  destruct (_ || _ || _); [reflexivity|]. cbn [negb]. apply commit_id; assumption.
Qed.

(** The stand-alone solve form sends nothing unless the state has 54
    characters. *)
Lemma HomePage_solve_guard (isLoading : bool) (cubeState : string) :
  (String.length cubeState <> 54%nat -> HomePage_solveClick isLoading cubeState = []) /\
  (String.length cubeState = 54%nat -> isLoading = false ->
   HomePage_solveClick isLoading cubeState
   = [mkSolvePost "http://localhost:5000/api/solve" cubeState "manual"]).
Proof.
  unfold HomePage_solveClick, HomePage_solveDisabled. split.
  - intros Hn.
    assert (E : (Z.of_nat (String.length cubeState) =? 54) = false)
      by (apply Z.eqb_neq; lia).
    rewrite E. destruct isLoading; reflexivity.
  - intros -> ->. reflexivity.
Qed.

(** ** The scenarios of the specification *)

(** Inspection enabled, hold 600 ms, release, press at 16200 ms of
    inspection (overrun 1200 ms), stop after 8000 ms: saved with "+2". *)
Example scenario_overrun_plus2 :
  timerState inspectedRun = running /\
  inspectionOverMs inspectedRun = 1200%Q /\
  timerState (step KeyDown inspectedRun) = idle /\
  calls (step KeyDown inspectedRun)
  = (calls inspectedRun ++
     [createSolve (mkCreateSolveRequest "R U R' U'" 8000 (Some "+2") "timer" "3x3"
                     (Some solvedCube))])%list.
Proof. vm_compute. repeat split; reflexivity. Qed.

(** Inspection disabled, hold 600 ms, release, stop after 12345 ms: the state
    never was inspection and the solve is saved with 12345 ms and no
    penalty. *)
Example scenario_no_inspection :
  timerState (run [KeyDown; Wait 600%Q; KeyUp] (mount (Some "false") 0%Q)) = running /\
  timerState plainStopped = idle /\
  calls plainStopped
  = (calls plainRun ++
     [createSolve (mkCreateSolveRequest "" 12345 None "timer" "3x3" None)])%list.
Proof. vm_compute. repeat split; reflexivity. Qed.

(** The overrun that counts is the one the last inspection frame showed: a
    frame at 14990 ms of inspection shows none, the key starts the solve 15 ms
    later and the solve is saved without penalty. *)
Example overrun_between_frames :
  let p := run [KeyDown; Wait 600%Q; KeyUp; Wait 14990%Q; Frame; Wait 15%Q;
                KeyDown; Wait 8000%Q; KeyDown] (mount None 0%Q) in
  timerState p = idle /\
  calls p = [getScramble "3x3"; getLiveStats "3x3";
             createSolve (mkCreateSolveRequest "" 8000 None "timer" "3x3" None)].
Proof. vm_compute. split; reflexivity. Qed.


(** * More proofs about the timer page *)

Lemma reloadedPreference_eq p :
  reloadedPreference p
  = match localStorage p with Some s => String.eqb s "true" | None => true end.
Proof. unfold reloadedPreference, mount. destruct (localStorage p); reflexivity. Qed.

(** Reduce the projections of a page that is given by its fields. *)
Ltac fields_in H :=
  cbn [
       scramble scrambleState timerState currentTime lastSolve
       inspectionEnabled lastSolvePenalty loading error savingMessage
       optimalSolutionMoves solutionLoading inspectionMsLeft
       inspectionOverMs startTimeRef animationFrameRef
       armingTimeoutRef inspectionStartRef inspectionRafRef
       timerStateRef loadingRef performance_now rafQueue nextRaf
       rafLog timers nextTimer calls pending localStorage ] in H.

Ltac inv2_open H2 :=
  destruct H2 as [Hsw Hdisp Hins Hleft Hone Hpref [Hatr Hhand] Hrev Hauto
                  [Hlsp Hpen] Hcalls];
  rewrite reloadedPreference_eq in Hpref;
  fields_in Hsw; fields_in Hdisp; fields_in Hins; fields_in Hleft;
  fields_in Hone; fields_in Hpref; fields_in Hatr; fields_in Hhand;
  fields_in Hrev; fields_in Hauto; fields_in Hlsp; fields_in Hpen;
  fields_in Hcalls.

Ltac inv2_split :=
  constructor; rewrite ?reloadedPreference_eq;
  cbn -[wellFormedCall isPenalty autoPenaltyOf penaltyField Qfloor Qmax Qminus double_sub];
  rewrite ?filter_app, ?length_app, ?forallb_app;
  cbn -[wellFormedCall isPenalty autoPenaltyOf penaltyField Qfloor Qmax Qminus double_sub].

Ltac forall_close :=
  repeat first [ apply Forall_nil | apply Forall_cons
               | apply Forall_app; split | split ];
  cbn; auto.

Ltac inv2_goal :=
  first [ solve [intuition (try congruence; try lia)]
        | solve [unfold INSPECTION_MS in *; intuition (try lra)]
        | solve [forall_close]
        | solve [right; reflexivity]
        | solve [left; reflexivity] ].

Lemma Inv2_mount stored t0 : Inv2 (mount stored t0).
Proof. destruct stored; inv2_split; inv2_goal. Qed.

Lemma autoPenaltyOf_isPenalty enabled over :
  isPenalty (autoPenaltyOf enabled over) = true.
Proof.
  unfold autoPenaltyOf.
  destruct (enabled && Qgtb over LATE_PLUS2_MS); [reflexivity|].
  destruct (enabled && Qgtb over 0); reflexivity.
Qed.

Lemma penaltyLabel_isPenalty b : isPenalty (penaltyLabel b) = true.
Proof. destruct b; reflexivity. Qed.

Lemma penaltyField_isPenaltyField s :
  isPenalty s = true -> isPenaltyField (penaltyField s) = true.
Proof.
  unfold isPenalty, penaltyField, isPenaltyField.
  destruct (String.eqb s "OK"); [reflexivity|]. cbn. auto.
Qed.

Lemma wellFormed_createSolve scr t a st :
  0 <= t -> isPenalty a = true ->
  wellFormedCall
    (createSolve
       {| req_scramble := scr; req_timeMs := t; req_penalty := penaltyField a;
          req_source := "timer"; req_event := "3x3";
          req_state := if truthy_string st then Some st else None |}) = true.
Proof.
  intros Ht Ha. cbn. rewrite (penaltyField_isPenaltyField _ Ha).
  apply Z.leb_le in Ht. rewrite Ht. unfold truthy_string.
  destruct (String.eqb st "") eqn:E; cbn; rewrite ?E; reflexivity.
Qed.

Lemma Inv2_commit_same p : Inv p -> Inv2 p -> Inv2 (commit p).
Proof. intros H H2. rewrite commit_id; auto; apply H. Qed.

Lemma Inv2_stopTimer p :
  Inv p -> Inv2 p -> timerState p = running -> loading p = false ->
  Inv2 (commit (stopTimer p)).
Proof.
  intros H H2 Hs Hl. inv_open p H. inv2_open H2. cbn in Hs, Hl. subst ts ld.
  destruct Hclock as (Ha & Hi & Hq). subst irr rq.
  unfold stopTimer, cancelStopwatch. cbn. rewrite (truthy_true _ Ha). cbn.
  destruct (Hsw eq_refl) as (Hst & Hc0 & Hc1).
  inv2_split; try inv2_goal.
  - intros id' [Hin | [E | []]]%in_app_iff; [auto | discriminate].
  - split; [assumption|]. apply Forall_app. split; [assumption|].
    constructor; [|constructor]. cbn. apply autoPenaltyOf_isPenalty.
  - rewrite Hcalls, wellFormed_createSolve;
      [reflexivity | | apply autoPenaltyOf_isPenalty].
    lia.
Qed.

Lemma Qfloor_self x : Qfloor (double_sub x x) = 0.
Proof.
  assert (E : (double_sub x x == 0)%Q).
  { apply Qle_antisym; [apply double_sub_nonpos | apply double_sub_nonneg];
      apply Qle_refl. }
  rewrite E. reflexivity.
Qed.

Lemma handles_weaken tm nt atr nt' atr' :
  Forall (handleOK nt atr) tm -> nt <= nt' ->
  atr' = atr \/ atr' = 0 \/ nt <= atr' ->
  Forall (handleOK nt' atr') tm.
Proof.
  intros H Hn Ha. eapply Forall_impl; [|exact H].
  intros t [Hh Hi]. split; [lia|]. intros E. apply Hi. lia.
Qed.

Lemma Forall_filter {A} (P : A -> Prop) f l : Forall P l -> Forall P (filter f l).
Proof.
  induction 1 as [|x l Hx _ IH]; cbn; [constructor|].
  destruct (f x); [constructor|]; assumption.
Qed.

Ltac handles_close :=
  match goal with
  | Hh : Forall (handleOK _ _) ?tm |- Forall (handleOK _ _) ?tm =>
      eapply handles_weaken; [exact Hh | lia | auto; lia]
  | Hh : Forall (handleOK _ _) ?tm |- Forall (handleOK _ _) (filter _ ?tm) =>
      apply Forall_filter; eapply handles_weaken; [exact Hh | lia | auto; lia]
  end.

Ltac inv2_goal2 :=
  first [ inv2_goal
        | solve [split; [lia | handles_close]]
        | solve [rewrite Qfloor_self; intuition (try lia; try lra)] ].

Lemma Inv2_startTimer p :
  Inv p -> Inv2 p -> loading p = false ->
  timerState p = idle \/ timerState p = ready ->
  Inv2 (commit (startTimer p)).
Proof.
  intros H H2 Hl Hs. inv_open p H. inv2_open H2. cbn in Hs, Hl. subst ld.
  assert (Hc : afr = 0 /\ irr = 0 /\ rq = []) by (destruct Hs; subst ts; exact Hclock).
  destruct Hc as (? & ? & ?); subst afr irr rq.
  unfold startTimer, cancelStopwatch. cbn.
  inv2_split; inv2_goal2.
Qed.

Lemma Inv2_startInspection p :
  Inv p -> Inv2 p -> loading p = false ->
  timerState p = idle \/ timerState p = ready ->
  Inv2 (commit (startInspection p)).
Proof.
  intros H H2 Hl Hs. inv_open p H. inv2_open H2. cbn in Hs, Hl. subst ld.
  assert (Hc : afr = 0 /\ irr = 0 /\ rq = []) by (destruct Hs; subst ts; exact Hclock).
  destruct Hc as (? & ? & ?); subst afr irr rq.
  unfold startInspection, cancelStopwatch, stopInspection. cbn.
  inv2_split; inv2_goal2.
Qed.

Lemma Inv2_beginSolveFromInspection p :
  Inv p -> Inv2 p -> loading p = false -> timerState p = inspection ->
  Inv2 (commit (beginSolveFromInspection p)).
Proof.
  intros H H2 Hl Hs. inv_open p H. inv2_open H2. cbn in Hs, Hl. subst ld ts.
  destruct Hclock as (Ha & Hi & Hq). subst afr rq.
  unfold beginSolveFromInspection, stopInspection. cbn.
  rewrite (truthy_true _ Hi). cbn. unfold startTimer, cancelStopwatch. cbn.
  inv2_split; inv2_goal2.
Qed.

Lemma Inv2_handleSpaceDown p :
  Inv p -> Inv2 p -> Inv2 (commit (handleSpaceDown p)).
Proof.
  intros H H2. unfold handleSpaceDown.
  rewrite (inv_loadingRef _ _ H), (inv_stateRef _ _ H).
  destruct (loading p) eqn:Hl; [apply Inv2_commit_same; assumption|].
  destruct (timerState p) eqn:Hs; try (apply Inv2_commit_same; assumption).
  - inv_open p H. inv2_open H2. cbn in Hs, Hl. subst ld ts. cbn.
    inv2_split; try inv2_goal2.
    split; [lia|]. apply Forall_app. split; [handles_close|].
    constructor; [|constructor]. split; [cbn; lia | reflexivity].
  - apply Inv2_beginSolveFromInspection; auto.
  - apply Inv2_stopTimer; auto.
Qed.

Lemma Inv2_clearArm p :
  Inv p -> Inv2 p ->
  let q := if truthy (armingTimeoutRef p)
           then set_armingTimeoutRef 0 (clearTimeout (armingTimeoutRef p) p)
           else p in
  Inv2 q /\ (timerState p = arming -> Inv2 (commit (setTimerState idle q))).
Proof.
  intros H H2 q. subst q.
  destruct (truthy (armingTimeoutRef p)) eqn:Ht.
  - inv_open p H. inv2_open H2. cbn in Ht. cbn.
    split; [|intros ->]; inv2_split; inv2_goal2.
  - split; [exact H2|]. intros Hs.
    inv_open p H. inv2_open H2. cbn in Hs. subst ts.
    inv2_split; inv2_goal2.
Qed.

Lemma Inv2_handleSpaceUp p :
  Inv p -> Inv2 p -> Inv2 (commit (handleSpaceUp p)).
Proof.
  intros H H2. unfold handleSpaceUp.
  rewrite (inv_loadingRef _ _ H), (inv_stateRef _ _ H).
  destruct (loading p) eqn:Hl; [apply Inv2_commit_same; assumption|].
  destruct (Inv_clearArm p H Hl) as (Harming & Hother & Hts & Hlq & Hie).
  destruct (Inv2_clearArm p H H2) as (Hq2 & Harming2).
  cbv zeta in *.
  set (q := if truthy (armingTimeoutRef p) then _ else p) in *.
  destruct (timerState p) eqn:Hs;
    try (apply Inv2_commit_same; [apply Hother; discriminate | exact Hq2]).
  - apply Harming2; reflexivity.
  - assert (Hq : Inv q) by (apply Hother; discriminate).
    destruct (inspectionEnabled q).
    + apply Inv2_startInspection; auto.
    + apply Inv2_startTimer; auto.
Qed.

Lemma Inv2_handleManualStart p :
  Inv p -> Inv2 p -> Inv2 (commit (handleManualStart p)).
Proof.
  intros H H2. unfold handleManualStart.
  destruct (loading p) eqn:Hl; [apply Inv2_commit_same; assumption|].
  destruct (timerState p) eqn:Hs; try (apply Inv2_commit_same; assumption).
  - destruct (inspectionEnabled p).
    + apply Inv2_startInspection; auto.
    + apply Inv2_startTimer; auto.
  - apply Inv2_beginSolveFromInspection; auto.
  - apply Inv2_stopTimer; auto.
Qed.

Lemma Inv2_toggleInspection p :
  Inv p -> Inv2 p -> Inv2 (commit (toggleInspection p)).
Proof.
  intros H H2. inv_open p H. inv2_open H2. unfold toggleInspection. cbn.
  inv2_split; try inv2_goal2. destruct ie; reflexivity.
Qed.

Lemma Inv2_handleUpdateLastSolvePenalty b p :
  Inv p -> Inv2 p -> loading p = false ->
  Inv2 (commit (handleUpdateLastSolvePenalty (penaltyLabel b) p)).
Proof.
  intros H H2 Hl. unfold handleUpdateLastSolvePenalty.
  destruct (lastSolve p) eqn:Hs; [|apply Inv2_commit_same; assumption].
  inv_open p H. inv2_open H2. cbn in Hl, Hs. subst ld.
  inv2_split; try inv2_goal2.
  - intros id' [Hin | [E | []]]%in_app_iff; [auto | discriminate].
  - split; [assumption|]. apply Forall_app. split; [assumption|].
    constructor; [|constructor]. cbn. apply penaltyLabel_isPenalty.
  - rewrite Hcalls. cbn.
    rewrite (penaltyField_isPenaltyField _ (penaltyLabel_isPenalty b)). reflexivity.
Qed.

Ltac pending_plain :=
  try (intros ? [? | [? | []]]%in_app_iff; [auto | discriminate]);
  try (split; [assumption|]; apply Forall_app; split; [assumption|];
       constructor; [exact I | constructor]);
  try match goal with
      | Hc : forallb wellFormedCall _ = true |- _ => rewrite Hc; reflexivity
      end;
  try match goal with
      | |- context [if ?b then 1%nat else 0%nat] => destruct b; lia
      end.

Lemma Inv2_handleScoreSolve n p :
  Inv p -> Inv2 p -> Inv2 (commit (handleScoreSolve n p)).
Proof.
  intros H H2. inv_open p H. inv2_open H2. unfold handleScoreSolve.
  inv2_split; try inv2_goal2; pending_plain.
Qed.

Lemma Inv2_loadNewScramble p :
  Inv p -> Inv2 p -> Inv2 (commit (loadNewScramble AwaitScramble p)).
Proof.
  intros H H2. inv_open p H. inv2_open H2. unfold loadNewScramble.
  inv2_split; try inv2_goal2; pending_plain.
Qed.

Lemma Inv2_handleRevealOptimalSolution c p :
  Inv p -> Inv2 p -> Inv2 (commit (handleRevealOptimalSolution c p)).
Proof.
  intros H H2. unfold handleRevealOptimalSolution.
  destruct (_ || _ || _) eqn:E; [apply Inv2_commit_same; assumption|].
  destruct (negb c); [apply Inv2_commit_same; assumption|].
  apply orb_false_iff in E. destruct E as [_ Esl].
  match goal with |- context [if ?b then _ else _] => destruct b end;
    inv_open p H; inv2_open H2; cbn in Esl; subst sl;
    inv2_split; try inv2_goal2; pending_plain.
Qed.

Lemma inspection_left elapsed :
  (0 <= elapsed)%Q ->
  (0 <= Qmax 0 (double_sub INSPECTION_MS elapsed) <= INSPECTION_MS)%Q /\
  (Qmax 0 (double_sub INSPECTION_MS elapsed) == 0 \/
   Qmax 0 (double_sub elapsed INSPECTION_MS) == 0)%Q.
Proof.
  intros He. split; [split|].
  - apply Q.le_max_l.
  - apply Q.max_lub; [discriminate|].
    apply Qle_trans with (double_sub INSPECTION_MS 0);
      [apply double_sub_mono; [apply Qle_refl | exact He] | discriminate].
  - destruct (Qlt_le_dec elapsed INSPECTION_MS) as [Hlt | Hge].
    + right. apply Q.max_l, double_sub_nonpos. lra.
    + left. apply Q.max_l, double_sub_nonpos. exact Hge.
Qed.

Lemma Inv2_runFrame p : Inv p -> Inv2 p -> Inv2 (runFrame p).
Proof.
  intros H H2. unfold runFrame.
  inv_open p H. inv2_open H2. cbn -[Qfloor Qmax Qminus double_sub].
  destruct ts; try contradiction;
    destruct Hclock as (Ha & Hi & Hq); subst; cbn -[Qfloor Qmax Qminus double_sub];
    try solve [inv2_split; inv2_goal2].
  - assert (He : (0 <= double_sub now isr)%Q)
      by (apply double_sub_nonneg, Hins; reflexivity).
    destruct (inspection_left _ He) as [L1 L2].
    inv2_split; inv2_goal2.
Qed.

(** The timeouts that are due leave everything but the saving message and,
    when the arm timer is among them, the step from arming to ready. *)
Lemma fireAll_shape l : forall p,
  timerStateRef p = timerState p -> loadingRef p = loading p ->
  exists m s,
    (s = timerState p \/ (timerState p = arming /\ s = ready)) /\
    fold_left (fun p t => commit (runCallback (timer_callback t) p)) l p
    = set_timerStateRef s (setTimerState s (setSavingMessage m p)).
Proof.
  induction l as [|t l IH]; intros p H1 H2; cbn [fold_left].
  - exists (savingMessage p), (timerState p). split; [auto|].
    destruct p; cbn in *; subst; reflexivity.
  - set (p' := commit (runCallback (timer_callback t) p)).
    assert (Hp' : exists m s,
               (s = timerState p \/ (timerState p = arming /\ s = ready)) /\
               p' = set_timerStateRef s (setTimerState s (setSavingMessage m p))).
    { subst p'. destruct t as [h due []]; cbn.
      - unfold armCallback. rewrite H1.
        destruct (TimerState_eqb (timerState p) arming) eqn:E.
        + exists (savingMessage p), ready. split.
          * right. split; [destruct (timerState p); try discriminate; reflexivity
                          | reflexivity].
          * destruct p; cbn in *; subst; reflexivity.
        + exists (savingMessage p), (timerState p). split; [auto|].
          destruct p; cbn in *; subst; reflexivity.
      - exists "", (timerState p). split; [auto|].
        destruct p; cbn in *; subst; reflexivity. }
    destruct Hp' as (m1 & s1 & Hs1 & Ep').
    destruct (IH p') as (m2 & s2 & Hs2 & E2).
    { rewrite Ep'. destruct p; reflexivity. }
    { rewrite Ep'. destruct p; cbn in *; assumption. }
    exists m2, s2. split.
    + rewrite Ep' in Hs2. destruct p; cbn in *.
      destruct Hs2 as [-> | [-> ->]], Hs1 as [-> | [-> ->]]; auto; discriminate.
    + rewrite E2, Ep'. destruct p; reflexivity.
Qed.

Lemma Inv2_advance d p : Inv p -> Inv2 p -> Inv2 (advance d p).
Proof.
  intros H H2. unfold advance. destruct (Qle_bool 0 d) eqn:Hd; [|exact H2].
  apply Qle_bool_iff in Hd.
  match goal with |- context [fold_left _ ?l ?q] =>
    destruct (fireAll_shape l q) as (m & s & Hs & ->) end.
  { destruct p; cbn. apply (inv_stateRef _ _ H). }
  { destruct p; cbn. apply (inv_loadingRef _ _ H). }
  inv_open p H. inv2_open H2. cbn in Hs.
  assert (Hfl : forall a, (a <= now)%Q ->
           Qfloor (double_sub now a) <= Qfloor (double_sub (now + d) a)).
  { intros a Ha. apply Qfloor_resp_le, double_sub_mono; lra. }
  destruct Hs as [-> | [-> ->]]; inv2_split; try inv2_goal2.
  intros E. destruct (Hsw E) as (Hst & Hc0 & Hc1).
  split; [lra|]. specialize (Hfl _ Hst). lia.
Qed.

Lemma In_remove_nth {A} (x : A) l : forall i, In x (remove_nth i l) -> In x l.
Proof.
  induction l as [|y l IH]; intros [|i]; cbn; auto.
  intros [-> | Hin]; eauto.
Qed.

Lemma Forall_remove_nth {A} (P : A -> Prop) l i :
  Forall P l -> Forall P (remove_nth i l).
Proof.
  intros H. apply Forall_forall. intros x Hx.
  apply (proj1 (Forall_forall P l) H), (In_remove_nth _ _ _ Hx).
Qed.

Lemma Forall_nth_error {A} (P : A -> Prop) l i k :
  Forall P l -> nth_error l i = Some k -> P k.
Proof.
  intros H Hk. apply (proj1 (Forall_forall P l) H), (nth_error_In _ _ Hk).
Qed.

Lemma mergeScore_id solveId r ls s :
  ls = Some s ->
  exists s', mergeScore solveId r ls = Some s' /\ id s' = id s /\ timeMs s' = timeMs s.
Proof.
  intros ->. cbn. destruct (id s =? solveId); eexists; split; reflexivity || auto.
Qed.

Lemma Inv2_resolve i r p : Inv p -> Inv2 p -> Inv2 (commit (resolve i r p)).
Proof.
  intros H H2. unfold resolve.
  destruct (nth_error (pending p) i) as [k|] eqn:Hk;
    [|apply Inv2_commit_same; assumption].
  destruct (resume k r _) as [p'|] eqn:Hr; [|apply Inv2_commit_same; assumption].
  pose proof (count_remove_nth holdsLoading _ _ _ Hk) as Hc.
  pose proof (count_remove_nth isOptimal _ _ _ Hk) as Hco.
  inv_open p H. inv2_open H2. cbn in Hk, Hc, Hco.
  rewrite Hc in Hcount. rewrite Hco in Hrev. clear Hc Hco.
  pose proof (Forall_nth_error _ _ _ _ Hpen Hk) as Hkp.
  pose proof (Forall_remove_nth _ _ i Hpen) as Hpen'.
  assert (Hauto' : forall solveId, In (AwaitAutoScore solveId) (remove_nth i pd) ->
            exists s, ls = Some s /\ id s = solveId)
    by (intros sid Hs; apply Hauto, (In_remove_nth _ _ _ Hs)).
  assert (Hnone : forall k', holdsLoading k = true ->
            In k' (remove_nth i pd) -> holdsLoading k' = false).
  { intros k' Hh. rewrite Hh in Hcount. apply no_loading_holder.
    destruct ld; [lia | discriminate]. }
  destruct k, r; cbn in Hr; try discriminate Hr; injection Hr as <-;
    unfold loadNewScramble, loadStats, saveSolve_finish; cbn in Hkp, Hrev |- *;
    inv2_split; try inv2_goal2;
    try (rewrite Hcalls; reflexivity);
    try (destruct sl; lia);
    try (split; [lia|]; apply Forall_app; split; [handles_close|];
         constructor; [split; [cbn; lia | cbn; intros; lia] | constructor]);
    try (intros sid Hs; try apply in_app_iff in Hs;
         try (destruct Hs as [Hs | [Hs | []]]; [|try discriminate Hs]);
         first
           [ exact (Hauto' _ Hs)
           | destruct (Hauto' _ Hs) as (s0 & E0 & E1);
             destruct (mergeScore_id solveId r _ _ E0) as (s1 & -> & F1 & _);
             exists s1; split; [reflexivity | congruence]
           | specialize (Hnone _ eq_refl Hs); discriminate Hnone
           | injection Hs as <-; eexists; split; reflexivity ]).
Qed.

Lemma Inv2_step e p : Inv p -> Inv2 p -> Inv2 (step e p).
Proof.
  intros H H2. destruct e; cbn [step].
  - apply Inv2_handleSpaceDown; assumption.
  - apply Inv2_handleSpaceUp; assumption.
  - destruct (loading p); [exact H2 | apply Inv2_handleManualStart; assumption].
  - destruct (TimerState_eqb _ _); [exact H2 | apply Inv2_toggleInspection; assumption].
  - destruct (lastSolve p); [|exact H2].
    destruct (loading p) eqn:Hl; [exact H2|].
    apply Inv2_handleUpdateLastSolvePenalty; auto.
  - destruct (lastSolve p) as [s|]; [|exact H2].
    destruct (mlScore s); [exact H2|].
    destruct (loading p); [exact H2 | apply Inv2_handleScoreSolve; assumption].
  - destruct (_ || _ || _);
      [exact H2 | apply Inv2_handleRevealOptimalSolution; assumption].
  - destruct (_ || _ || _); [exact H2 | apply Inv2_loadNewScramble; assumption].
  - apply Inv2_advance; assumption.
  - apply Inv2_runFrame; assumption.
  - apply Inv2_resolve; assumption.
Qed.

Lemma reachable_Inv2 p : reachable p -> Inv2 p.
Proof.
  induction 1 as [stored t0 | e p Hr IH];
    [apply Inv2_mount | apply Inv2_step; [apply reachable_Inv, Hr | exact IH]].
Qed.

(** ** One save per completed timing *)

Ltac no_more :=
  exists (@nil ApiCall); split; [rewrite app_nil_r; reflexivity | reflexivity].

Ltac more_calls :=
  first [ no_more
        | eexists [_]; split; [reflexivity | reflexivity]
        | eexists [_; _]; split; [rewrite <- app_assoc; reflexivity | reflexivity] ].

Ltac key_cases p :=
  destruct p as [scr scrSt ts ct ls ie lsp ld err sm osm sl iml iom
                 str afr atr isr irr tsr ldr now rq nr rl tm nt cl pd lst];
  cbn in *; subst; destruct ld, ts, ie; cbn;
  repeat match goal with
         | |- context [truthy ?x] => destruct (truthy x); cbn
         end.

Lemma stops_unchanged e p :
  timerState (step e p) = timerState p -> stops e p = false.
Proof. unfold stops. intros ->. destruct (timerState p); reflexivity. Qed.

Lemma calls_step_count e p :
  Inv p ->
  exists more,
    calls (step e p) = (calls p ++ more)%list /\
    List.length (filter isCreateSolve more) = if stops e p then 1%nat else 0%nat.
Proof.
  intros H.
  pose proof (inv_loadingRef _ _ H) as E1. pose proof (inv_stateRef _ _ H) as E2.
  destruct e.
  - unfold stops. cbn. unfold handleSpaceDown, beginSolveFromInspection, stopTimer,
      startTimer, stopInspection, cancelStopwatch.
    key_cases p; more_calls.
  - unfold stops. cbn. unfold handleSpaceUp, startInspection, startTimer,
      stopInspection, cancelStopwatch.
    key_cases p; more_calls.
  - unfold stops. cbn. unfold handleManualStart, beginSolveFromInspection, stopTimer,
      startTimer, startInspection, stopInspection, cancelStopwatch.
    key_cases p; more_calls.
  - rewrite stops_unchanged;
      [|cbn; destruct (TimerState_eqb _ _); [|destruct p]; reflexivity].
    cbn. destruct (TimerState_eqb _ _); [|destruct p]; no_more.
  - rewrite stops_unchanged.
    2:{ cbn. unfold handleUpdateLastSolvePenalty.
        destruct (lastSolve p) eqn:E; [|reflexivity].
        destruct (loading p); [reflexivity|]. destruct p; reflexivity. }
    cbn. unfold handleUpdateLastSolvePenalty.
    destruct (lastSolve p) eqn:E; [|no_more].
    destruct (loading p); [no_more|]. destruct p; cbn; more_calls.
  - rewrite stops_unchanged.
    2:{ cbn. destruct (lastSolve p) as [s|]; [|reflexivity].
        destruct (mlScore s); [reflexivity|].
        destruct (loading p); [reflexivity|]. destruct p; reflexivity. }
    cbn. destruct (lastSolve p) as [s|]; [|no_more].
    destruct (mlScore s); [no_more|].
    destruct (loading p); [no_more|]. destruct p; cbn; more_calls.
  - rewrite stops_unchanged.
    2:{ cbn. destruct (_ || _ || _) eqn:E; [reflexivity|].
        rewrite timerState_commit. unfold handleRevealOptimalSolution. rewrite E.
        destruct (negb confirmed); [reflexivity|].
        match goal with |- context [if ?b then _ else _] => destruct b end;
          destruct p; reflexivity. }
    cbn. destruct (_ || _ || _) eqn:E; [no_more|].
    unfold handleRevealOptimalSolution. rewrite E.
    destruct (negb confirmed); [destruct p; no_more|].
    match goal with |- context [if ?b then _ else _] => destruct b end;
      destruct p; cbn; more_calls.
  - rewrite stops_unchanged.
    2:{ cbn. destruct (_ || _ || _); [reflexivity|]. destruct p; reflexivity. }
    cbn. destruct (_ || _ || _); [no_more|]. destruct p; cbn; more_calls.
  - assert (Hst : stops (Wait d) p = false).
    { unfold stops. cbn [step].
      destruct (timerState_advance d p E2) as [-> | [-> ->]];
        [destruct (timerState p)|]; reflexivity. }
    rewrite Hst. cbn [step]. unfold advance.
    destruct (Qle_bool 0 d); [|no_more].
    rewrite calls_fireAll. destruct p; no_more.
  - rewrite stops_unchanged by apply timerState_runFrame.
    cbn [step]. rewrite calls_runFrame. no_more.
  - rewrite stops_unchanged
      by (unfold step; rewrite timerState_commit; apply timerState_resolve).
    unfold step. rewrite calls_commit. unfold resolve.
    destruct (nth_error _ _) as [k|]; [|no_more].
    destruct (resume k r _) as [p'|] eqn:Hr; [|no_more].
    destruct p, k, r; cbn in Hr; try discriminate Hr; injection Hr as <-; cbn;
      more_calls.
Qed.

(** ** While the stopwatch runs *)

Lemma running_frame e p :
  Inv p -> Inv2 p -> timerState p = running ->
  timerState (step e p) = running ->
  inspectionOverMs (step e p) = inspectionOverMs p /\
  inspectionEnabled (step e p) = inspectionEnabled p /\
  startTimeRef (step e p) = startTimeRef p /\
  currentTime p <= currentTime (step e p).
Proof.
  intros H H2 Hs Hs'.
  pose proof (inv_loadingRef _ _ H) as E1. pose proof (inv_stateRef _ _ H) as E2.
  destruct e.
  - revert Hs'. cbn. unfold handleSpaceDown, stopTimer, cancelStopwatch.
    rewrite E1, E2, Hs. destruct (loading p); [|destruct (truthy _)];
      destruct p; cbn; intros; try discriminate; repeat split; reflexivity || lia.
  - clear Hs'. cbn. unfold handleSpaceUp. rewrite E1, E2, Hs.
    destruct (loading p); [|destruct (truthy _)];
      destruct p; cbn; repeat split; reflexivity || lia.
  - revert Hs'. cbn. unfold handleManualStart, stopTimer, cancelStopwatch.
    rewrite Hs. destruct (loading p); [|destruct (truthy _)];
      destruct p; cbn; intros; try discriminate; repeat split; reflexivity || lia.
  - cbn. rewrite Hs. cbn. repeat split; reflexivity || lia.
  - cbn. unfold handleUpdateLastSolvePenalty.
    destruct (lastSolve p) eqn:E; [|repeat split; reflexivity || lia].
    destruct (loading p); [repeat split; reflexivity || lia|].
    destruct p; cbn. repeat split; reflexivity || lia.
  - cbn. destruct (lastSolve p) as [s|]; [|repeat split; reflexivity || lia].
    destruct (mlScore s); [repeat split; reflexivity || lia|].
    destruct (loading p); [repeat split; reflexivity || lia|].
    destruct p; cbn. repeat split; reflexivity || lia.
  - cbn. rewrite Hs. cbn. repeat split; reflexivity || lia.
  - cbn. rewrite Hs. cbn. repeat split; reflexivity || lia.
  - cbn [step]. unfold advance. destruct (Qle_bool 0 d); [|repeat split; reflexivity || lia].
    match goal with |- context [fold_left _ ?l ?q] =>
      destruct (fireAll_shape l q) as (m & s & _ & ->) end;
      destruct p; cbn in *; auto. repeat split; reflexivity || lia.
  - clear Hs'. inv_open p H. inv2_open H2. cbn in Hs. subst ts.
    destruct Hclock as (_ & _ & ->). destruct (Hsw eq_refl) as (_ & _ & Hc).
    cbn -[Qfloor Qminus]. repeat split; reflexivity || lia.
  - clear Hs'. unfold step, resolve.
    destruct (nth_error _ _) as [k|];
      [|rewrite commit_id by assumption; repeat split; reflexivity || lia].
    destruct (resume k r _) as [p'|] eqn:Hr;
      [|rewrite commit_id by assumption; repeat split; reflexivity || lia].
    destruct p, k, r; cbn in Hr; try discriminate Hr; injection Hr as <-; cbn;
      repeat split; reflexivity || lia.
Qed.

(** ** The penalty of a solve *)








(** On an inspecting page, 16200 ms after the start of the inspection: the
    frame publishes an overrun of 1200 ms and nothing left, and the key
    starts the solve with it. *)
Example frame_publishes_overrun :
  let p := run [KeyDown; Wait 600%Q; KeyUp; Wait 16200%Q] (mount None 0%Q) in
  timerState p = inspection /\ inspectionOverMs p = 0%Q /\
  overrunNow p = 1200%Q /\
  inspectionOverMs (step Frame p) = 1200%Q /\
  inspectionMsLeft (step Frame p) = 0%Q /\
  inspectionOverMs (step KeyDown (step Frame p)) = 1200%Q.
Proof. vm_compute. repeat split; reflexivity. Qed.

Lemma createSolve_count_run es : forall p,
  Inv p ->
  List.length (filter isCreateSolve (calls (run es p)))
  = (List.length (filter isCreateSolve (calls p)) + stopCount es p)%nat.
Proof.
  induction es as [|e es IH]; intros p H; cbn [run fold_left stopCount]; [lia|].
  change (fold_left (fun p e => step e p) es (step e p)) with (run es (step e p)).
  rewrite IH by (apply Inv_step, H).
  destruct (calls_step_count e p H) as (more & -> & Hm).
  rewrite filter_app, length_app, Hm. lia.
Qed.

(** X1. From the mount on, whatever the events are, the page has asked the
    backend to record exactly as many solves as the stopwatch was stopped:
    [createSolve] is sent once for every move from [running] to [idle] and
    at no other moment. *)
Theorem saves_match_stops (stored : option string) (t0 : Q) (es : list Event) :
  List.length (filter isCreateSolve (calls (run es (mount stored t0))))
  = stopCount es (mount stored t0).
Proof.
  rewrite createSolve_count_run by apply Inv_mount. destruct stored; reflexivity.
Qed.

Lemma running_stays e p :
  Inv p -> timerState p = running -> e <> KeyDown -> e <> ManualStart ->
  timerState (step e p) = running.
Proof.
  intros H Hs N1 N2.
  pose proof (inv_loadingRef _ _ H) as E1. pose proof (inv_stateRef _ _ H) as E2.
  destruct e; try congruence.
  - cbn. unfold handleSpaceUp. rewrite E1, E2, Hs.
    destruct (loading p); [|destruct (truthy _)]; destruct p; cbn in *; assumption.
  - cbn. rewrite Hs. cbn. assumption.
  - cbn. unfold handleUpdateLastSolvePenalty.
    destruct (lastSolve p); [|assumption].
    destruct (loading p); [assumption|]. destruct p; cbn in *; assumption.
  - cbn. destruct (lastSolve p) as [s|]; [|assumption].
    destruct (mlScore s); [assumption|].
    destruct (loading p); [assumption|]. destruct p; cbn in *; assumption.
  - cbn. rewrite Hs. cbn. assumption.
  - cbn. rewrite Hs. cbn. assumption.
  - cbn [step]. destruct (timerState_advance d p E2) as [-> | [E _]]; congruence.
  - cbn [step]. rewrite timerState_runFrame. assumption.
  - unfold step. rewrite timerState_commit, timerState_resolve. assumption.
Qed.

Lemma stop_cause e p :
  Inv p -> timerState p = running -> timerState (step e p) <> running ->
  loading p = false /\ (e = KeyDown \/ e = ManualStart) /\
  step e p = commit (stopTimer p).
Proof.
  intros H Hs Hn.
  assert (He : e = KeyDown \/ e = ManualStart).
  { destruct e; auto; exfalso; apply Hn, running_stays; auto; discriminate. }
  assert (Hl : loading p = false).
  { destruct (loading p) eqn:E; [|reflexivity]. exfalso. apply Hn.
    destruct He as [-> | ->];
      [rewrite guard_KeyDown | rewrite guard_ManualStart]; assumption. }
  split; [exact Hl|]. split; [exact He|]. apply step_stop; assumption.
Qed.

(** X2. Nothing but a press of the space key or a click on the Start/Stop
    button takes the page out of [running], and only while [loading] is
    false: no key release, other button, timeout, frame or backend answer
    does.  The stop leaves the state [idle] with the save in flight. *)
Theorem only_key_or_button_stops (p : Page) (e : Event) :
  reachable p -> timerState p = running ->
  timerState (step e p) <> running ->
  loading p = false /\ (e = KeyDown \/ e = ManualStart) /\
  timerState (step e p) = idle /\ saveInFlight (step e p) = true.
Proof.
  intros Hr Hs Hn. apply reachable_Inv in Hr.
  destruct (stop_cause e p Hr Hs Hn) as (Hl & He & ->).
  destruct (stopTimer_effect p Hr Hs) as (_ & _ & _ & Hp & Ht & _).
  repeat split; try assumption.
  unfold saveInFlight. rewrite Hp, existsb_app. cbn. apply orb_true_r.
Qed.

Lemma only_key_or_button_stops_witness :
  loading plainRun = false /\ (KeyDown = KeyDown \/ KeyDown = ManualStart) /\
  timerState (step KeyDown plainRun) = idle /\
  saveInFlight (step KeyDown plainRun) = true.
Proof.
  apply (only_key_or_button_stops plainRun KeyDown).
  - apply reachable_run, reachable_mount.
  - reflexivity.
  - vm_compute. discriminate.
Defined.

Lemma stops_cases e p :
  stops e p = true -> timerState p = running /\ timerState (step e p) <> running.
Proof.
  unfold stops. destruct (timerState p); try discriminate.
  destruct (timerState (step e p)); try discriminate. split; [reflexivity | discriminate].
Qed.

(** X3. While the stopwatch runs, a frame displays the floor of the time
    elapsed since the start, as the subtraction of two doubles gives it; the
    displayed time is between 0 and that floor at every moment; no event
    makes it go back, and the time sent to the backend at the stop is not
    below the time on display. *)
Theorem stopwatch_display (p : Page) :
  reachable p -> timerState p = running ->
  currentTime (step Frame p)
  = Qfloor (double_sub (performance_now p) (startTimeRef p)) /\
  0 <= currentTime p
    <= Qfloor (double_sub (performance_now p) (startTimeRef p)) /\
  (forall e, timerState (step e p) = running ->
     currentTime p <= currentTime (step e p)) /\
  (forall e, stops e p = true ->
     exists r, calls (step e p) = (calls p ++ [createSolve r])%list /\
               currentTime p <= req_timeMs r).
Proof.
  intros Hr Hs. pose proof (reachable_Inv2 p Hr) as H2. apply reachable_Inv in Hr.
  destruct (inv_stopwatch p H2 Hs) as (_ & Hc).
  split; [apply (frame_publishes p Hr), Hs|].
  split; [exact Hc|]. split.
  - intros e He. apply (running_frame e p Hr H2 Hs He).
  - intros e He. apply stops_cases in He. destruct He as (_ & Hn).
    destruct (stop_cause e p Hr Hs Hn) as (_ & _ & ->).
    destruct (stopTimer_effect p Hr Hs) as (_ & _ & Hcalls & _).
    eexists. split; [exact Hcalls|]. cbn [req_timeMs]. lia.
Qed.

Lemma stopwatch_display_witness :
  currentTime (step Frame inspectedRun)
  = Qfloor (double_sub (performance_now inspectedRun)
                       (startTimeRef inspectedRun)) /\
  0 <= currentTime inspectedRun
    <= Qfloor (double_sub (performance_now inspectedRun)
                          (startTimeRef inspectedRun)) /\
  (forall e, timerState (step e inspectedRun) = running ->
     currentTime inspectedRun <= currentTime (step e inspectedRun)) /\
  (forall e, stops e inspectedRun = true ->
     exists r, calls (step e inspectedRun)
               = (calls inspectedRun ++ [createSolve r])%list /\
               currentTime inspectedRun <= req_timeMs r).
Proof.
  apply (stopwatch_display inspectedRun).
  - apply reachable_run, reachable_mount.
  - reflexivity.
Defined.

(** X4. Whenever the stopwatch is not running, the time kept for the display
    is 0: a stop resets it at once and nothing but the stopwatch loop writes
    it. *)
Theorem display_zero_unless_running (p : Page) :
  reachable p -> timerState p <> running -> currentTime p = 0.
Proof. intros Hr. apply inv_display, reachable_Inv2, Hr. Qed.

Lemma display_zero_unless_running_witness : currentTime plainStopped = 0.
Proof.
  apply (display_zero_unless_running plainStopped).
  - apply reachable_step, reachable_run, reachable_mount.
  - vm_compute. discriminate.
Defined.

(** X5. Once the solve has started, the penalty is settled: as long as the
    stopwatch keeps running, no event changes the inspection overrun, the
    inspection preference or the start time, so the penalty the stop will
    send is the one the start of the solve left. *)
Theorem penalty_settled_while_running (p : Page) (e : Event) :
  reachable p -> timerState p = running -> timerState (step e p) = running ->
  inspectionOverMs (step e p) = inspectionOverMs p /\
  inspectionEnabled (step e p) = inspectionEnabled p /\
  startTimeRef (step e p) = startTimeRef p /\
  autoPenaltyOf (inspectionEnabled (step e p)) (inspectionOverMs (step e p))
  = autoPenaltyOf (inspectionEnabled p) (inspectionOverMs p).
Proof.
  intros Hr Hs He. pose proof (reachable_Inv2 p Hr) as H2. apply reachable_Inv in Hr.
  destruct (running_frame e p Hr H2 Hs He) as (Ho & Hi & Ht & _).
  rewrite Ho, Hi, Ht. repeat split; reflexivity.
Qed.

Lemma penalty_settled_while_running_witness :
  inspectionOverMs (step Frame inspectedRun) = inspectionOverMs inspectedRun /\
  inspectionEnabled (step Frame inspectedRun) = inspectionEnabled inspectedRun /\
  startTimeRef (step Frame inspectedRun) = startTimeRef inspectedRun /\
  autoPenaltyOf (inspectionEnabled (step Frame inspectedRun))
                (inspectionOverMs (step Frame inspectedRun))
  = autoPenaltyOf (inspectionEnabled inspectedRun) (inspectionOverMs inspectedRun).
Proof.
  apply (penalty_settled_while_running inspectedRun Frame).
  - apply reachable_run, reachable_mount.
  - reflexivity.
  - reflexivity.
Defined.

(** ** The inspection countdown and the preference *)

(** X6. The two numbers the inspection countdown shows are consistent at
    all times: the remaining time is between 0 and 15000 ms, the overrun is
    not negative, and one of the two is 0, so the main display never hides a
    running overrun behind a time that is left. *)
Theorem inspection_display_bounds (p : Page) :
  reachable p ->
  (0 <= inspectionMsLeft p <= INSPECTION_MS)%Q /\
  (0 <= inspectionOverMs p)%Q /\
  (inspectionMsLeft p == 0 \/ inspectionOverMs p == 0)%Q.
Proof.
  intros Hr. pose proof (reachable_Inv2 p Hr) as H2. apply reachable_Inv in Hr.
  split; [apply inv_left, H2|]. split; [apply (inv_over _ _ Hr) | apply inv_one, H2].
Qed.

Lemma inspection_display_bounds_witness :
  (0 <= inspectionMsLeft inspectedRun <= INSPECTION_MS)%Q /\
  (0 <= inspectionOverMs inspectedRun)%Q /\
  (inspectionMsLeft inspectedRun == 0 \/ inspectionOverMs inspectedRun == 0)%Q.
Proof.
  apply (inspection_display_bounds inspectedRun).
  apply reachable_run, reachable_mount.
Defined.

(** X7. The inspection preference survives a reload: whatever happened on
    the page, a page mounted on what it left in the local storage starts with
    the inspection setting the page has now; after a click on the toggle
    (refused while the stopwatch runs) that is the opposite setting. *)
Theorem preference_survives_reload (p : Page) (t0 : Q) :
  reachable p ->
  inspectionEnabled (mount (localStorage p) t0) = inspectionEnabled p /\
  (timerState p <> running ->
   inspectionEnabled (mount (localStorage (step ToggleInspection p)) t0)
   = negb (inspectionEnabled p)) /\
  (timerState p = running -> step ToggleInspection p = p).
Proof.
  intros Hr.
  assert (G : forall q, reachable q ->
                inspectionEnabled (mount (localStorage q) t0) = inspectionEnabled q).
  { intros q Hq. rewrite <- (inv_pref q (reachable_Inv2 q Hq)).
    unfold reloadedPreference, mount. destruct (localStorage q); reflexivity. }
  split; [apply G, Hr|]. split.
  - intros Hn. rewrite G by (apply reachable_step, Hr).
    cbn. destruct (timerState p); try contradiction; destruct p; reflexivity.
  - intros Hs. cbn. rewrite Hs. reflexivity.
Qed.

Lemma preference_survives_reload_witness :
  inspectionEnabled (mount (localStorage savedPage) 0%Q)
  = inspectionEnabled savedPage /\
  (timerState savedPage <> running ->
   inspectionEnabled (mount (localStorage (step ToggleInspection savedPage)) 0%Q)
   = negb (inspectionEnabled savedPage)) /\
  (timerState savedPage = running -> step ToggleInspection savedPage = savedPage).
Proof.
  apply (preference_survives_reload savedPage 0%Q).
  apply reachable_run, reachable_step, reachable_run, reachable_mount.
Defined.

(** ** What the page says and what the inputs do *)

(** X8. While nothing is loading, the instruction under the display tells
    what the space key does in the state the page is in: in [idle] a press
    arms, in [arming] a repeated press changes nothing and a release goes
    back to [idle], in [ready] a release starts the inspection or the solve,
    in [inspection] a press starts the solve, in [running] a press stops. *)
Theorem instruction_matches_key (p : Page) :
  reachable p -> loading p = false ->
  (timerState p = idle /\ getTimerInstruction p = "Hold space to start" /\
   timerState (step KeyDown p) = arming) \/
  (timerState p = arming /\ getTimerInstruction p = "Keep holding..." /\
   step KeyDown p = p /\ timerState (step KeyUp p) = idle) \/
  (timerState p = ready /\ getTimerInstruction p = "Release to start" /\
   step KeyDown p = p /\
   timerState (step KeyUp p) = if inspectionEnabled p then inspection else running) \/
  (timerState p = inspection /\ getTimerInstruction p = "Press space to solve" /\
   timerState (step KeyDown p) = running) \/
  (timerState p = running /\ getTimerInstruction p = "Press space to stop" /\
   timerState (step KeyDown p) = idle).
Proof.
  intros Hr Hl. apply reachable_Inv in Hr.
  pose proof (inv_loadingRef _ _ Hr) as E1. pose proof (inv_stateRef _ _ Hr) as E2.
  pose proof (inv_clock _ _ Hr) as Hc. unfold clockShape in Hc.
  unfold getTimerInstruction.
  destruct (timerState p) eqn:Hs; try contradiction.
  - left. split; [reflexivity|]. split; [destruct (inspectionEnabled p); reflexivity|].
    apply KeyDown_arms; assumption.
  - right; left. split; [reflexivity|]. split; [reflexivity|]. split.
    + cbn. unfold handleSpaceDown. rewrite E1, E2, Hl. apply commit_id; congruence.
    + apply KeyUp_arming; assumption.
  - right; right; left. split; [reflexivity|]. split; [reflexivity|]. split.
    + cbn. unfold handleSpaceDown. rewrite E1, E2, Hl. apply commit_id; congruence.
    + pose proof (KeyUp_ready p Hr Hl Hs) as G. cbv zeta in G.
      destruct (inspectionEnabled p); apply G.
  - right; right; right; left. split; [reflexivity|]. split; [reflexivity|].
    cbn. unfold handleSpaceDown, beginSolveFromInspection, startTimer,
      stopInspection. rewrite E1, E2, Hl.
    destruct p; cbn in *; subst;
      repeat match goal with
             | |- context [truthy ?x] => destruct (truthy x); cbn
             end; reflexivity.
  - right; right; right; right. split; [reflexivity|]. split; [reflexivity|].
    rewrite (step_stop p KeyDown Hr Hs Hl (or_introl eq_refl)).
    apply (stopTimer_effect p Hr Hs).
Qed.

Lemma instruction_matches_key_witness :
  (timerState plainRun = idle /\ getTimerInstruction plainRun = "Hold space to start" /\
   timerState (step KeyDown plainRun) = arming) \/
  (timerState plainRun = arming /\ getTimerInstruction plainRun = "Keep holding..." /\
   step KeyDown plainRun = plainRun /\ timerState (step KeyUp plainRun) = idle) \/
  (timerState plainRun = ready /\ getTimerInstruction plainRun = "Release to start" /\
   step KeyDown plainRun = plainRun /\
   timerState (step KeyUp plainRun)
   = if inspectionEnabled plainRun then inspection else running) \/
  (timerState plainRun = inspection /\
   getTimerInstruction plainRun = "Press space to solve" /\
   timerState (step KeyDown plainRun) = running) \/
  (timerState plainRun = running /\
   getTimerInstruction plainRun = "Press space to stop" /\
   timerState (step KeyDown plainRun) = idle).
Proof.
  apply (instruction_matches_key plainRun).
  - apply reachable_run, reachable_mount.
  - reflexivity.
Defined.

(** X9. The Start/Stop button reads [Stop] exactly while the stopwatch runs.
    While nothing is loading, a click on [Stop] stops it; a click on [Start]
    starts the inspection or the solve from [idle], starts the solve from
    [inspection], and does nothing at all while the space key is held
    ([arming], [ready]). *)
Theorem button_label_matches_click (p : Page) :
  reachable p -> loading p = false ->
  (startButtonLabel p = "Stop" <-> timerState p = running) /\
  (startButtonLabel p = "Stop" -> timerState (step ManualStart p) = idle) /\
  (startButtonLabel p = "Start" ->
   match timerState p with
   | idle => timerState (step ManualStart p)
             = if inspectionEnabled p then inspection else running
   | inspection => timerState (step ManualStart p) = running
   | _ => step ManualStart p = p
   end).
Proof.
  intros Hr Hl. apply reachable_Inv in Hr.
  pose proof (inv_loadingRef _ _ Hr) as E1. pose proof (inv_stateRef _ _ Hr) as E2.
  pose proof (inv_clock _ _ Hr) as Hc. unfold clockShape in Hc.
  unfold startButtonLabel.
  destruct (timerState p) eqn:Hs; try contradiction; cbn [TimerState_eqb];
    (split; [split; intros; congruence || discriminate|]);
    (split; [intros; try discriminate|intros; try discriminate]).
  - apply ManualStart_starts; assumption.
  - cbn. rewrite Hl. unfold handleManualStart. rewrite Hl, Hs.
    apply commit_id; congruence.
  - cbn. rewrite Hl. unfold handleManualStart. rewrite Hl, Hs.
    apply commit_id; congruence.
  - cbn. rewrite Hl. unfold handleManualStart, beginSolveFromInspection, startTimer,
      stopInspection. rewrite Hl, Hs.
    destruct p; cbn in *; subst;
      repeat match goal with
             | |- context [truthy ?x] => destruct (truthy x); cbn
             end; reflexivity.
  - rewrite (step_stop p ManualStart Hr Hs Hl (or_intror eq_refl)).
    apply (stopTimer_effect p Hr Hs).
Qed.

Lemma button_label_matches_click_witness :
  (startButtonLabel inspectedRun = "Stop" <-> timerState inspectedRun = running) /\
  (startButtonLabel inspectedRun = "Stop" ->
   timerState (step ManualStart inspectedRun) = idle) /\
  (startButtonLabel inspectedRun = "Start" ->
   match timerState inspectedRun with
   | idle => timerState (step ManualStart inspectedRun)
             = if inspectionEnabled inspectedRun then inspection else running
   | inspection => timerState (step ManualStart inspectedRun) = running
   | _ => step ManualStart inspectedRun = inspectedRun
   end).
Proof.
  apply (button_label_matches_click inspectedRun).
  - apply reachable_run, reachable_mount.
  - reflexivity.
Defined.

(** ** The solve on display *)

Lemma advance_keeps d p :
  Inv p ->
  pending (advance d p) = pending p /\ lastSolve (advance d p) = lastSolve p.
Proof.
  intros H. unfold advance. destruct (Qle_bool 0 d); [|split; reflexivity].
  match goal with |- context [fold_left _ ?l ?q] =>
    destruct (fireAll_shape l q) as (m & s & _ & ->) end;
    [destruct p; apply (inv_stateRef _ _ H) | destruct p; apply (inv_loadingRef _ _ H) |].
  destruct p; split; reflexivity.
Qed.

Lemma runFrame_keeps p :
  Inv p ->
  pending (runFrame p) = pending p /\ lastSolve (runFrame p) = lastSolve p.
Proof.
  intros H. unfold runFrame. inv_open p H. cbn.
  destruct ts; try contradiction;
    destruct Hclock as (Ha & Hi & Hq); subst; cbn; split; reflexivity.
Qed.

(** X10. The automatic score of a save always lands: while it is awaited the
    solve on display is the one that was just recorded, so the answer puts
    its five score fields on that solve and keeps its id and its time. *)
Theorem auto_score_lands (p : Page) (i : nat) (solveId : Z) (r : ScoreResult) :
  reachable p ->
  nth_error (pending p) i = Some (AwaitAutoScore solveId) ->
  exists s, lastSolve p = Some s /\ id s = solveId /\
            lastSolve (step (Resolve i (Scored r)) p) = Some (scored s r).
Proof.
  intros Hr Hk. apply reachable_Inv2 in Hr.
  destruct (inv_autoscore p Hr solveId (nth_error_In _ _ Hk)) as (s & Hs & Hid).
  exists s. split; [exact Hs|]. split; [exact Hid|]. subst solveId.
  unfold step, resolve. rewrite Hk.
  destruct p; cbn in *. rewrite Hs. cbn. rewrite Z.eqb_refl. reflexivity.
Qed.

Lemma auto_score_lands_witness :
  exists s, lastSolve scoringPage = Some s /\ id s = 7 /\
            lastSolve (step (Resolve 1 (Scored
              (mkScoreResult (Some 0.5%Q) None None None None))) scoringPage)
            = Some (scored s (mkScoreResult (Some 0.5%Q) None None None None)).
Proof.
  apply (auto_score_lands scoringPage 1 7).
  - apply reachable_run, reachable_step, reachable_run, reachable_mount.
  - reflexivity.
Defined.

(** X11. The solve on display is written by backend answers only: an event
    leaves it as it is, unless it is the answer to a [createSolve], which
    puts the recorded solve there, or a score answered for the very solve on
    display, which fills in its score fields.  No key, button, timeout or
    frame touches it, and a score that arrives for another solve is
    dropped. *)
Theorem last_solve_written_by_answers (p : Page) (e : Event) :
  reachable p ->
  lastSolve (step e p) = lastSolve p \/
  (exists i autoPenalty s,
      e = Resolve i (SolveCreated s) /\
      nth_error (pending p) i = Some (AwaitCreateSolve autoPenalty) /\
      lastSolve (step e p) = Some s) \/
  (exists i r s,
      e = Resolve i (Scored r) /\ lastSolve p = Some s /\
      (nth_error (pending p) i = Some (AwaitAutoScore (id s)) \/
       nth_error (pending p) i = Some (AwaitScore (id s))) /\
      lastSolve (step e p) = Some (scored s r)).
Proof.
  intros Hr. apply reachable_Inv in Hr.
  pose proof (inv_loadingRef _ _ Hr) as E1. pose proof (inv_stateRef _ _ Hr) as E2.
  destruct e.
  - left. cbn. unfold handleSpaceDown, beginSolveFromInspection, stopTimer,
      startTimer, stopInspection, cancelStopwatch.
    key_cases p; reflexivity.
  - left. cbn. unfold handleSpaceUp, startInspection, startTimer,
      stopInspection, cancelStopwatch.
    key_cases p; reflexivity.
  - left. cbn. unfold handleManualStart, beginSolveFromInspection, stopTimer,
      startTimer, startInspection, stopInspection, cancelStopwatch.
    key_cases p; reflexivity.
  - left. cbn. destruct (TimerState_eqb _ _); [|destruct p]; reflexivity.
  - left. cbn. unfold handleUpdateLastSolvePenalty.
    destruct (lastSolve p) eqn:E; [|assumption].
    destruct (loading p); [assumption|]. destruct p; cbn in *; assumption.
  - left. cbn. destruct (lastSolve p) as [s|] eqn:E; [|assumption].
    destruct (mlScore s); [assumption|].
    destruct (loading p); [assumption|]. destruct p; cbn in *; assumption.
  - left. cbn. destruct (_ || _ || _) eqn:E; [reflexivity|].
    unfold handleRevealOptimalSolution. rewrite E.
    destruct (negb confirmed); [destruct p; reflexivity|].
    match goal with |- context [if ?b then _ else _] => destruct b end;
      destruct p; reflexivity.
  - left. cbn. destruct (_ || _ || _); [reflexivity|]. destruct p; reflexivity.
  - left. apply (advance_keeps d p Hr).
  - left. apply (runFrame_keeps p Hr).
  - unfold step, resolve.
    destruct (nth_error (pending p) i) as [k|] eqn:Hk;
      [|left; destruct p; reflexivity].
    destruct (resume k r _) as [p'|] eqn:Hres; [|left; destruct p; reflexivity].
    destruct k, r; cbn in Hres; try discriminate Hres; injection Hres as <-;
      try (left; destruct p; reflexivity).
    + right; left. exists i, autoPenalty, s. split; [reflexivity|]. split; [exact Hk|].
      destruct p; reflexivity.
    + destruct (lastSolve p) as [s|] eqn:Hs; [|left; destruct p; cbn in *; rewrite ?Hs; reflexivity].
      destruct (id s =? solveId) eqn:Hid.
      * right; right. exists i, r, s. apply Z.eqb_eq in Hid. subst solveId.
        split; [reflexivity|]. split; [reflexivity|]. split; [left; exact Hk|].
        destruct p; cbn in *. rewrite ?Hs. cbn. rewrite ?Z.eqb_refl. reflexivity.
      * left. destruct p; cbn in *. rewrite ?Hs. cbn. rewrite ?Hid. reflexivity.
    + destruct (lastSolve p) as [s|] eqn:Hs; [|left; destruct p; cbn in *; rewrite ?Hs; reflexivity].
      destruct (id s =? solveId) eqn:Hid.
      * right; right. exists i, r, s. apply Z.eqb_eq in Hid. subst solveId.
        split; [reflexivity|]. split; [reflexivity|]. split; [right; exact Hk|].
        destruct p; cbn in *. rewrite ?Hs. cbn. rewrite ?Z.eqb_refl. reflexivity.
      * left. destruct p; cbn in *. rewrite ?Hs. cbn. rewrite ?Hid. reflexivity.
Qed.

Lemma last_solve_written_by_answers_witness :
  let e := Resolve 1 (Scored (mkScoreResult (Some 0.5%Q) None None None None)) in
  lastSolve (step e rescoredPage) = lastSolve rescoredPage \/
  (exists i autoPenalty s,
      e = Resolve i (SolveCreated s) /\
      nth_error (pending rescoredPage) i = Some (AwaitCreateSolve autoPenalty) /\
      lastSolve (step e rescoredPage) = Some s) \/
  (exists i r s,
      e = Resolve i (Scored r) /\ lastSolve rescoredPage = Some s /\
      (nth_error (pending rescoredPage) i = Some (AwaitAutoScore (id s)) \/
       nth_error (pending rescoredPage) i = Some (AwaitScore (id s))) /\
      lastSolve (step e rescoredPage) = Some (scored s r)).
Proof.
  apply (last_solve_written_by_answers rescoredPage).
  apply reachable_run, reachable_run, reachable_step, reachable_run, reachable_mount.
Defined.

(** A score asked for by hand for the first solve arrives when the second
    solve is on display: it is dropped. *)
Example stale_score_is_dropped :
  nth_error (pending rescoredPage) 1 = Some (AwaitScore 7) /\
  option_map id (lastSolve rescoredPage) = Some 8 /\
  lastSolve (step (Resolve 1 (Scored (mkScoreResult (Some 0.5%Q) None None None None)))
                  rescoredPage)
  = lastSolve rescoredPage.
Proof. vm_compute. repeat split; reflexivity. Qed.

(** ** Leaving the page *)

Lemma filter_notArm_all tm :
  filter isArm tm = [] -> filter notArm tm = tm.
Proof.
  induction tm as [|t tm IH]; cbn; [reflexivity|]. unfold notArm at 1.
  destruct (isArm t); cbn; [discriminate|]. intros H. rewrite IH by exact H. reflexivity.
Qed.

Lemma filter_isArm_nil_in tm t :
  filter isArm tm = [] -> In t tm -> isArm t = false.
Proof.
  intros H Hin. destruct (isArm t) eqn:E; [|reflexivity].
  assert (Hf : In t (filter isArm tm)) by (apply filter_In; split; assumption).
  rewrite H in Hf. destruct Hf.
Qed.

Lemma clear_arm_handle nt atr tm :
  Forall (handleOK nt atr) tm ->
  (forall t, In t tm -> isArm t = true -> timer_handle t = atr) ->
  filter (fun t => negb (timer_handle t =? atr)) tm = filter notArm tm.
Proof.
  intros Hh Ha. apply filter_ext_in. intros t Hin. unfold notArm. f_equal.
  pose proof (proj1 (Forall_forall _ _) Hh t Hin) as (_ & Hi).
  destruct (Z.eqb_spec (timer_handle t) atr) as [E | E].
  - symmetry. apply Hi, E.
  - destruct (isArm t) eqn:Et; [|reflexivity]. exfalso. apply E, Ha; assumption.
Qed.

Lemma unmount_refs p :
  animationFrameRef (unmount p) = 0 /\ inspectionRafRef (unmount p) = 0 /\
  armingTimeoutRef (unmount p) = 0.
Proof.
  unfold unmount, cancelStopwatch.
  destruct p as [scr scrSt ts ct ls ie lsp ld err sm osm sl iml iom
                 str afr atr isr irr tsr ldr now rq nr rl tm nt cl pd lst]; cbn.
  destruct (truthy afr) eqn:E1; cbn;
    destruct (truthy irr) eqn:E2; cbn;
    destruct (truthy atr) eqn:E3; cbn;
    repeat split; try reflexivity; apply truthy_false; assumption.
Qed.

Lemma unmount_idle p :
  animationFrameRef p = 0 -> inspectionRafRef p = 0 -> armingTimeoutRef p = 0 ->
  unmount p = p.
Proof.
  intros H1 H2 H3. unfold unmount, cancelStopwatch. rewrite H1. cbn.
  rewrite H2. cbn. rewrite H3. reflexivity.
Qed.

(** X12. The cleanup on unmount empties the three handles and clears the arm
    timeout if one is pending, and it is safe to run twice.  It is all it
    does: the timeout that clears the saving message and the backend calls
    that are under way stay pending. *)
Theorem unmount_cleanup (p : Page) :
  reachable p ->
  timers (unmount p) = filter notArm (timers p) /\
  pending (unmount p) = pending p /\
  animationFrameRef (unmount p) = 0 /\ inspectionRafRef (unmount p) = 0 /\
  armingTimeoutRef (unmount p) = 0 /\
  unmount (unmount p) = unmount p.
Proof.
  intros Hr. pose proof (reachable_Inv2 p Hr) as H2. apply reachable_Inv in Hr.
  destruct (unmount_refs p) as (R1 & R2 & R3).
  split; [|split; [|split; [exact R1|split; [exact R2|split; [exact R3|]]]]].
  - inv_open p Hr. inv2_open H2. clear R1 R2 R3.
    destruct Harm as (Harm1 & Harm2).
    assert (Ha : forall t, In t tm -> isArm t = true -> timer_handle t = atr).
    { intros t Hin Ht. destruct (TimerState_eqb ts arming) eqn:E.
      - destruct ts; try discriminate. destruct (Harm1 eq_refl) as (_ & due & Hf).
        assert (Hin' : In t (filter isArm tm)) by (apply filter_In; split; assumption).
        rewrite Hf in Hin'. destruct Hin' as [<- | []]. reflexivity.
      - assert (Hn : ts <> arming) by (intros ->; discriminate).
        rewrite (filter_isArm_nil_in tm t (Harm2 Hn) Hin) in Ht. discriminate. }
    unfold unmount, cancelStopwatch. cbn.
    destruct (truthy afr); cbn; destruct (truthy irr); cbn;
      destruct (truthy atr) eqn:E; cbn;
      try (apply (clear_arm_handle nt atr tm Hhand Ha));
      apply truthy_false in E; subst atr; symmetry; apply filter_notArm_all;
      (destruct (filter isArm tm) as [|t l] eqn:Ef; [reflexivity|]);
      exfalso;
      (assert (Hin : In t (filter isArm tm)) by (rewrite Ef; left; reflexivity));
      apply filter_In in Hin; destruct Hin as (Hin & Ht);
      pose proof (proj1 (Forall_forall _ _) Hhand t Hin) as (Hpos & _);
      pose proof (Ha t Hin Ht); lia.
  - unfold unmount, cancelStopwatch.
    destruct p as [scr scrSt ts ct ls ie lsp ld err sm osm sl iml iom
                   str afr atr isr irr tsr ldr now rq nr rl tm nt cl pd lst]; cbn.
    destruct (truthy afr); cbn; destruct (truthy irr); cbn;
      destruct (truthy atr); reflexivity.
  - apply unmount_idle; assumption.
Qed.

Lemma unmount_cleanup_witness :
  timers (unmount savedPage) = filter notArm (timers savedPage) /\
  pending (unmount savedPage) = pending savedPage /\
  animationFrameRef (unmount savedPage) = 0 /\
  inspectionRafRef (unmount savedPage) = 0 /\
  armingTimeoutRef (unmount savedPage) = 0 /\
  unmount (unmount savedPage) = unmount savedPage.
Proof.
  apply (unmount_cleanup savedPage).
  apply reachable_run, reachable_step, reachable_run, reachable_mount.
Defined.

(** The saving message is still to be cleared when the page is left. *)
Example unmount_leaves_message_timeout :
  map timer_callback (timers (unmount savedPage)) = [ClearSavingMessage] /\
  pending (unmount savedPage) = [AwaitScramble].
Proof. vm_compute. split; reflexivity. Qed.

(** ** The progress of a save *)

Lemma stages_no_holder pd :
  filter holdsLoading pd = [] -> list_sum (map saveStage pd) = 0%nat.
Proof.
  induction pd as [|k pd IH]; cbn; [reflexivity|].
  destruct k; cbn; try discriminate; exact IH.
Qed.

Lemma stages_bound pd :
  (List.length (filter holdsLoading pd) <= 1)%nat ->
  (list_sum (map saveStage pd) <= 3)%nat.
Proof.
  induction pd as [|k pd IH]; cbn; [lia|].
  destruct (holdsLoading k) eqn:E; cbn [List.length]; intros H.
  - rewrite stages_no_holder
      by (destruct (filter holdsLoading pd); [reflexivity | cbn in H; lia]).
    destruct k; cbn; lia.
  - specialize (IH H). destruct k; try discriminate; exact IH.
Qed.

Lemma stages_pos pd :
  existsb isSave pd = true -> (1 <= list_sum (map saveStage pd))%nat.
Proof.
  induction pd as [|k pd IH]; cbn; [discriminate|].
  destruct k; cbn; try lia; exact IH.
Qed.

Lemma stages_remove_nth pd : forall i k,
  nth_error pd i = Some k ->
  (list_sum (map saveStage (remove_nth i pd)) + saveStage k)%nat
  = list_sum (map saveStage pd).
Proof.
  induction pd as [|x pd IH]; intros [|i] k; cbn; try discriminate.
  - intros [= ->]. lia.
  - intros H. specialize (IH i k H). unfold list_sum in IH. lia.
Qed.

Lemma pending_step_loading e p :
  Inv p -> loading p = true -> (forall i r, e <> Resolve i r) ->
  pending (step e p) = pending p.
Proof.
  intros H Hl Hn. destruct e.
  - rewrite guard_KeyDown; auto.
  - rewrite guard_KeyUp; auto.
  - rewrite guard_ManualStart; auto.
  - cbn. destruct (TimerState_eqb _ _); [|destruct p]; reflexivity.
  - cbn. rewrite Hl. destruct (lastSolve p); reflexivity.
  - cbn. rewrite Hl. destruct (lastSolve p) as [s|]; [destruct (mlScore s)|]; reflexivity.
  - cbn. rewrite Hl, orb_true_r. reflexivity.
  - cbn. rewrite Hl, orb_true_r. reflexivity.
  - apply (advance_keeps d p H).
  - apply (runFrame_keeps p H).
  - exfalso. apply (Hn i r). reflexivity.
Qed.

Lemma stages_resolve i r p :
  (saveStages (step (Resolve i r) p) <= saveStages p)%nat /\
  (forall k, nth_error (pending p) i = Some k -> isSave k = true ->
     step (Resolve i r) p = commit p \/
     (saveStages (step (Resolve i r) p) < saveStages p)%nat) /\
  (forall k, nth_error (pending p) i = Some k -> isSave k = true -> r = Failed ->
     (saveStages (step (Resolve i r) p) < saveStages p)%nat).
Proof.
  unfold step, resolve.
  destruct (nth_error (pending p) i) as [k|] eqn:Hk.
  2:{ split; [destruct p; cbn; lia|]. split; intros; discriminate. }
  pose proof (stages_remove_nth (pending p) i k Hk) as Hsum.
  destruct (resume k r _) as [p'|] eqn:Hres.
  2:{ split; [destruct p; cbn; lia|]. split; [intros; left; reflexivity|].
      intros k' [= <-] Hsave ->. destruct k; discriminate. }
  unfold saveStages in *.
  destruct p, k, r; cbn in Hres; try discriminate Hres; injection Hres as <-;
    cbn -[list_sum] in *; rewrite ?map_app, ?list_sum_app;
    unfold list_sum in *; cbn in *;
    (split; [lia|]); (split; [intros k' [= <-] Hsave; try discriminate; right; lia|]);
    intros k' [= <-] Hsave Hf; try discriminate; lia.
Qed.

(** X13. A save is at most three answers long.  While one is in flight, the
    calls it still has to await number between 1 and 3; no key, button,
    timeout or frame adds to them or takes from them; every backend answer
    leaves them as they are or reduces them, and an answer to the call the
    save is waiting for reduces them unless it is of a kind that call cannot
    give; a failure always does. *)
Theorem save_progress (p : Page) :
  reachable p -> saveInFlight p = true ->
  (1 <= saveStages p <= 3)%nat /\
  (forall e, (forall i r, e <> Resolve i r) -> saveStages (step e p) = saveStages p) /\
  (forall i r, (saveStages (step (Resolve i r) p) <= saveStages p)%nat) /\
  (forall i r k, nth_error (pending p) i = Some k -> isSave k = true ->
     step (Resolve i r) p = p \/
     (saveStages (step (Resolve i r) p) < saveStages p)%nat) /\
  (forall i k, nth_error (pending p) i = Some k -> isSave k = true ->
     (saveStages (step (Resolve i Failed) p) < saveStages p)%nat).
Proof.
  intros Hr Hs. apply reachable_Inv in Hr.
  pose proof (saveInFlight_loading p Hr Hs) as Hl.
  split; [|split; [|split; [|split]]].
  - unfold saveStages. split; [apply stages_pos, Hs|].
    apply stages_bound. rewrite (inv_loading _ _ Hr), Hl. lia.
  - intros e Hn. unfold saveStages. rewrite pending_step_loading by assumption.
    reflexivity.
  - intros i r. apply (stages_resolve i r p).
  - intros i r k Hk Hsave.
    destruct (proj1 (proj2 (stages_resolve i r p)) k Hk Hsave) as [E | E];
      [left | right; exact E].
    rewrite E. apply commit_id; [apply (inv_stateRef _ _ Hr) | apply (inv_loadingRef _ _ Hr)].
  - intros i k Hk Hsave.
    apply (proj2 (proj2 (stages_resolve i Failed p)) k Hk Hsave eq_refl).
Qed.

Lemma save_progress_witness :
  (1 <= saveStages scoringPage <= 3)%nat /\
  (forall e, (forall i r, e <> Resolve i r) ->
     saveStages (step e scoringPage) = saveStages scoringPage) /\
  (forall i r, (saveStages (step (Resolve i r) scoringPage)
                <= saveStages scoringPage)%nat) /\
  (forall i r k, nth_error (pending scoringPage) i = Some k -> isSave k = true ->
     step (Resolve i r) scoringPage = scoringPage \/
     (saveStages (step (Resolve i r) scoringPage) < saveStages scoringPage)%nat) /\
  (forall i k, nth_error (pending scoringPage) i = Some k -> isSave k = true ->
     (saveStages (step (Resolve i Failed) scoringPage) < saveStages scoringPage)%nat).
Proof.
  apply (save_progress scoringPage).
  - apply reachable_run, reachable_step, reachable_run, reachable_mount.
  - reflexivity.
Defined.

(** ** Who holds [loading] and [solutionLoading] *)

Lemma holder_in pd :
  (1 <= List.length (filter holdsLoading pd))%nat ->
  exists k, In k pd /\ holdsLoading k = true.
Proof.
  destruct (filter holdsLoading pd) as [|k l] eqn:E; cbn; [lia|]. intros _.
  assert (Hin : In k (filter holdsLoading pd)) by (rewrite E; left; reflexivity).
  apply filter_In in Hin. exists k. exact Hin.
Qed.

(** X14. [loading] is held by exactly one operation at a time: it is true
    exactly while one save or one penalty update awaits a backend answer, and
    two of them are never under way together.  Outside [idle] it can only be
    a penalty update that holds it. *)
Theorem loading_has_one_holder (p : Page) :
  reachable p ->
  List.length (filter holdsLoading (pending p))
  = (if loading p then 1 else 0)%nat /\
  (loading p = true -> timerState p <> idle ->
   exists newPenalty, In (AwaitUpdateSolve newPenalty) (pending p)).
Proof.
  intros Hr. apply reachable_Inv in Hr.
  split; [apply (inv_loading _ _ Hr)|].
  intros Hl Hn.
  destruct (holder_in (pending p)) as (k & Hin & Hk);
    [rewrite (inv_loading _ _ Hr), Hl; lia|].
  destruct (isSave k) eqn:Es.
  - exfalso. apply Hn, (inv_save _ _ Hr). unfold saveInFlight.
    apply existsb_exists. exists k. split; assumption.
  - destruct k; try discriminate. exists newPenalty. exact Hin.
Qed.

Lemma loading_has_one_holder_witness :
  List.length (filter holdsLoading (pending plainStopped))
  = (if loading plainStopped then 1 else 0)%nat /\
  (loading plainStopped = true -> timerState plainStopped <> idle ->
   exists newPenalty, In (AwaitUpdateSolve newPenalty) (pending plainStopped)).
Proof.
  apply (loading_has_one_holder plainStopped).
  apply reachable_step, reachable_run, reachable_mount.
Defined.

(** X15. At most one request for the optimal solution is under way, and
    [solutionLoading] is true exactly while it is; until it is answered the
    Reveal button does nothing. *)
Theorem one_optimal_request (p : Page) (confirmed : bool) :
  reachable p ->
  List.length (filter isOptimal (pending p))
  = (if solutionLoading p then 1 else 0)%nat /\
  (solutionLoading p = true -> step (RevealClick confirmed) p = p).
Proof.
  intros Hr. split; [apply inv_reveal, reachable_Inv2, Hr|].
  intros Hs. cbn. rewrite Hs, orb_true_r. reflexivity.
Qed.

Lemma one_optimal_request_witness :
  List.length (filter isOptimal (pending (step (RevealClick true) scrambledPage)))
  = (if solutionLoading (step (RevealClick true) scrambledPage) then 1 else 0)%nat /\
  (solutionLoading (step (RevealClick true) scrambledPage) = true ->
   step (RevealClick true) (step (RevealClick true) scrambledPage)
   = step (RevealClick true) scrambledPage).
Proof.
  apply (one_optimal_request (step (RevealClick true) scrambledPage) true).
  apply reachable_step, reachable_run, reachable_mount.
Defined.

(** ** What the backend is sent *)

Lemma isPenaltyField_cases f :
  isPenaltyField f = true -> f = None \/ f = Some "+2" \/ f = Some "DNF".
Proof.
  destruct f as [s|]; [|auto]. cbn. intros H. apply orb_true_iff in H.
  destruct H as [H | H]; apply String.eqb_eq in H; subst; auto.
Qed.

(** X16. Every solve the page sends for recording is well formed: its time
    is not negative, its penalty is [null], "+2" or "DNF" (never "OK"), its
    source is "timer", its event "3x3", and its cube state is left out rather
    than sent as an empty string.  Every penalty update carries [null], "+2"
    or "DNF". *)
Theorem calls_well_formed (p : Page) (c : ApiCall) :
  reachable p -> In c (calls p) ->
  match c with
  | createSolve r =>
      0 <= req_timeMs r /\
      (req_penalty r = None \/ req_penalty r = Some "+2" \/
       req_penalty r = Some "DNF") /\
      req_source r = "timer" /\ req_event r = "3x3" /\ req_state r <> Some ""
  | updateSolve _ penalty =>
      penalty = None \/ penalty = Some "+2" \/ penalty = Some "DNF"
  | _ => True
  end.
Proof.
  intros Hr Hin. apply reachable_Inv2 in Hr.
  pose proof (proj1 (forallb_forall _ _) (inv_calls p Hr) c Hin) as Hw.
  destruct c as [r | sid pen | | | |]; try exact I; cbn in Hw.
  - repeat (apply andb_true_iff in Hw; destruct Hw as [Hw ?]).
    split; [apply Z.leb_le; assumption|].
    split; [apply isPenaltyField_cases; assumption|].
    split; [apply String.eqb_eq; assumption|].
    split; [apply String.eqb_eq; assumption|].
    destruct (req_state r) as [s|]; [|discriminate].
    intros [= ->]. discriminate.
  - apply isPenaltyField_cases, Hw.
Qed.

Lemma calls_well_formed_witness :
  match nth 2 (calls plainStopped) (getLiveStats "") with
  | createSolve r =>
      0 <= req_timeMs r /\
      (req_penalty r = None \/ req_penalty r = Some "+2" \/
       req_penalty r = Some "DNF") /\
      req_source r = "timer" /\ req_event r = "3x3" /\ req_state r <> Some ""
  | updateSolve _ penalty =>
      penalty = None \/ penalty = Some "+2" \/ penalty = Some "DNF"
  | _ => True
  end.
Proof.
  apply (calls_well_formed plainStopped).
  - apply reachable_step, reachable_run, reachable_mount.
  - vm_compute. right; right; left. reflexivity.
Defined.

(** X17. The penalty shown for the last solve is always one of the three the
    buttons offer: "OK", "+2" or "DNF". *)
Theorem shown_penalty_is_one_of_three (p : Page) :
  reachable p ->
  lastSolvePenalty p = "OK" \/ lastSolvePenalty p = "+2" \/
  lastSolvePenalty p = "DNF".
Proof.
  intros Hr. apply reachable_Inv2 in Hr.
  destruct (inv_penalty p Hr) as (H & _). unfold isPenalty in H.
  apply orb_true_iff in H. destruct H as [H | H];
    [apply orb_true_iff in H; destruct H as [H | H]|];
    apply String.eqb_eq in H; auto.
Qed.

Lemma shown_penalty_is_one_of_three_witness :
  lastSolvePenalty savedPage = "OK" \/ lastSolvePenalty savedPage = "+2" \/
  lastSolvePenalty savedPage = "DNF".
Proof.
  apply (shown_penalty_is_one_of_three savedPage).
  apply reachable_run, reachable_step, reachable_run, reachable_mount.
Defined.

(** ** The arm timeout *)

(** X18. The arm timeout is pending exactly while the page is [arming]: in
    that state there is one, under the handle kept in [armingTimeoutRef]; in
    every other state there is none, so no timeout left over from an earlier
    hold can make a later one ready, and the mere passing of time does not
    change the state. *)
Theorem arm_timeout_only_while_arming (p : Page) :
  reachable p ->
  (timerState p = arming ->
   armingTimeoutRef p <> 0 /\
   exists due,
     filter isArm (timers p) = [mkTimer (armingTimeoutRef p) due ArmCallback]) /\
  (timerState p <> arming ->
   filter isArm (timers p) = [] /\
   forall d, timerState (step (Wait d) p) = timerState p).
Proof.
  intros Hr. apply reachable_Inv in Hr.
  pose proof (inv_arm _ _ Hr) as (Ha & Hn). rewrite app_nil_r in Ha, Hn.
  split; [exact Ha|]. intros Hs. split; [apply Hn, Hs|].
  intros d. cbn [step].
  destruct (timerState_advance d p (inv_stateRef _ _ Hr)) as [E | [E _]];
    [exact E | contradiction].
Qed.

Lemma arm_timeout_only_while_arming_witness :
  (timerState (step KeyDown unscrambledPage) = arming ->
   armingTimeoutRef (step KeyDown unscrambledPage) <> 0 /\
   exists due,
     filter isArm (timers (step KeyDown unscrambledPage))
     = [mkTimer (armingTimeoutRef (step KeyDown unscrambledPage)) due ArmCallback]) /\
  (timerState (step KeyDown unscrambledPage) <> arming ->
   filter isArm (timers (step KeyDown unscrambledPage)) = [] /\
   forall d, timerState (step (Wait d) (step KeyDown unscrambledPage))
             = timerState (step KeyDown unscrambledPage)).
Proof.
  apply (arm_timeout_only_while_arming (step KeyDown unscrambledPage)).
  apply reachable_step, reachable_mount.
Defined.
(** * Proofs about the stand-alone prototype *)

Ltac app_open s H :=
  destruct H as [Hses Hload Hreq];
  destruct s as [cp tok usr sv cs il ls rq al pd];
  cbn in Hses, Hload, Hreq.

Lemma truthy_token_some t :
  App.truthy_token t = true -> exists s, t = Some s /\ s <> "".
Proof.
  destruct t as [s|]; cbn; [|discriminate]. unfold truthy_string.
  intros H. exists s. split; [reflexivity|]. intros ->. discriminate.
Qed.

Lemma token_eqb_refl t : App.token_eqb t t = true.
Proof. destruct t; cbn; [apply String.eqb_refl | reflexivity]. Qed.

Lemma App_render_same s : App.render (App.token s) s = s.
Proof. unfold App.render. rewrite token_eqb_refl. reflexivity. Qed.

Lemma App_render_session previous s :
  App.token (App.render previous s) = App.token s /\
  App.localStorage (App.render previous s) = App.localStorage s /\
  App.isLoading (App.render previous s) = App.isLoading s /\
  App.alerts (App.render previous s) = App.alerts s.
Proof.
  unfold App.render, App.tokenEffect.
  destruct (App.token_eqb _ _); [repeat split|].
  destruct (App.truthy_token _); [destruct s|]; repeat split.
Qed.

Lemma App_render_no_token previous s :
  App.truthy_token (App.token s) = false -> App.render previous s = s.
Proof.
  intros H. unfold App.render, App.tokenEffect. rewrite H.
  destruct (App.token_eqb _ _); reflexivity.
Qed.

(** The token a login answer leaves in the state is the text it stores,
    whenever it counts as a token. *)
Lemma stored_token (m : App.Member string) :
  App.truthy_token (App.stateOf m) = true ->
  Some (App.storedText m) = App.stateOf m.
Proof. destruct m; cbn; [discriminate | discriminate | reflexivity]. Qed.

Lemma App_Inv_mount stored : App.Inv (App.mount stored).
Proof.
  unfold App.mount, App.render, App.tokenEffect.
  destruct (App.truthy_token stored) eqn:E.
  - destruct (truthy_token_some stored E) as (t & -> & Ht).
    cbn. cbn in E. rewrite E. cbn. constructor; cbn; auto.
    repeat constructor. exists t. split; [exact Ht | reflexivity].
  - cbn. constructor; cbn; auto. discriminate.
Qed.

Lemma App_Inv_render previous s : App.Inv s -> App.Inv (App.render previous s).
Proof.
  intros H. unfold App.render. destruct (App.token_eqb _ _); [exact H|].
  unfold App.tokenEffect. destruct (App.truthy_token (App.token s)) eqn:E; [|exact H].
  destruct (truthy_token_some _ E) as (t & Ht & Hne).
  app_open s H. cbn in *. subst tok.
  constructor; cbn; auto.
  - rewrite filter_app, length_app. cbn. rewrite Nat.add_0_r. exact Hload.
  - apply Forall_app. split; [exact Hreq|]. repeat constructor.
    exists t. split; [exact Hne | reflexivity].
Qed.

Lemma App_Inv_resolve i r s : App.Inv s -> App.Inv (App.resolve i r s).
Proof.
  intros H. unfold App.resolve.
  destruct (nth_error (App.pending s) i) as [k|] eqn:Hk; [|exact H].
  app_open s H. cbn in Hk.
  pose proof (count_remove_nth App.holdsLoading pd i k Hk) as Hc.
  rewrite Hc in Hload. clear Hc.
  destruct k; cbn [App.resume App.holdsLoading] in *;
    unfold App.fetchUser_resume, App.fetchSolves_resume, App.handleLogin_resume,
      App.handleSignup_resume, App.handleSolve_resume, App.networkError;
    destruct r as [|ok data]; try destruct ok; try destruct data as [| |a|o];
    cbn;
    try match goal with
        | |- context [App.data_moves ?o] => destruct (App.data_moves o); cbn
        end;
    constructor; cbn; auto;
    try (destruct il; cbn in *; lia);
    try discriminate;
    try apply stored_token.
Qed.

Lemma App_view_logged_in s :
  App.view s = App.HomeView \/ App.view s = App.SolvesView ->
  exists t, App.token s = Some t /\ t <> "".
Proof.
  unfold App.view. destruct (App.truthy_token (App.token s)) eqn:E; cbn.
  - intros _. apply truthy_token_some, E.
  - destruct (App.CurrentPage_eqb _ _); intros [H | H]; discriminate.
Qed.

Lemma App_Inv_handle e s : App.Inv s -> App.Inv (App.handle e s).
Proof.
  intros H. destruct e; try apply App_Inv_resolve, H; unfold App.handle;
    destruct (App.view s) eqn:Hv; try exact H;
    try (destruct (App_view_logged_in s) as (t & Ht & Hne);
         [rewrite Hv; solve [auto]|]).
  - destruct (App.isLoading s) eqn:Hl; [exact H|]. app_open s H. cbn in *. subst il.
    constructor; cbn; auto.
    + rewrite filter_app, length_app, Hload. reflexivity.
    + apply Forall_app. split; [exact Hreq|]. repeat constructor.
  - destruct (App.isLoading s) eqn:Hl; [exact H|]. app_open s H. cbn in *. subst il.
    constructor; cbn; auto.
    + rewrite filter_app, length_app, Hload. reflexivity.
    + apply Forall_app. split; [exact Hreq|]. repeat constructor.
  - app_open s H. constructor; cbn; auto.
  - app_open s H. constructor; cbn; auto.
  - app_open s H. constructor; cbn; auto.
  - app_open s H. constructor; cbn; auto.
  - app_open s H. cbn in *. subst tok. constructor; cbn; auto.
    + rewrite filter_app, length_app. cbn. rewrite Nat.add_0_r. exact Hload.
    + apply Forall_app. split; [exact Hreq|]. repeat constructor.
      exists t. split; [exact Hne | reflexivity].
  - app_open s H. cbn in *. subst tok. constructor; cbn; auto.
    + rewrite filter_app, length_app. cbn. rewrite Nat.add_0_r. exact Hload.
    + apply Forall_app. split; [exact Hreq|]. repeat constructor.
      exists t. split; [exact Hne | reflexivity].
  - app_open s H. constructor; cbn; auto; discriminate.
  - app_open s H. constructor; cbn; auto; discriminate.
  - app_open s H. constructor; cbn; auto.
  - unfold HomePage_solveDisabled.
    destruct (App.isLoading s) eqn:Hl; [exact H|]. cbn.
    destruct (Z.eqb_spec (Z.of_nat (String.length (App.cubeState s))) 54) as [E | E];
      [|exact H]. cbn.
    app_open s H. cbn in *. subst tok il. constructor; cbn; auto.
    + rewrite filter_app, length_app, Hload. reflexivity.
    + apply Forall_app. split; [exact Hreq|]. repeat constructor.
      exists t. split; [exact Hne | reflexivity].
Qed.

Lemma App_Inv_step e s : App.Inv s -> App.Inv (App.step e s).
Proof. intros H. apply App_Inv_render, App_Inv_handle, H. Qed.

Lemma App_reachable_Inv s : App.reachable s -> App.Inv s.
Proof.
  induction 1 as [stored | e s _ IH]; [apply App_Inv_mount | apply App_Inv_step, IH].
Qed.

Lemma App_reachable_run es : forall s, App.reachable s -> App.reachable (App.run es s).
Proof.
  induction es as [|e es IH]; intros s H; cbn; [exact H|].
  apply IH, App.reachable_step, H.
Qed.

(** X19. A session survives a reload: while a token is in the state, the
    local storage holds the same token, so a page mounted on what the
    storage holds starts with that token, on the home view, and asks
    [/auth/me] about it.  (The converse fails, see
    [reload_after_login_without_token].) *)
Theorem session_survives_reload (s : App.State) :
  App.reachable s -> App.truthy_token (App.token s) = true ->
  let s' := App.mount (App.localStorage s) in
  App.localStorage s = App.token s /\
  App.token s' = App.token s /\ App.view s' = App.HomeView /\
  App.requests s'
  = [App.mkFetch (API_BASE ++ "/auth/me") "GET" None
                 (Some (App.token s)) App.NoBody].
Proof.
  intros Hr Ht. apply App_reachable_Inv in Hr.
  pose proof (App.inv_session s Hr Ht) as Hs. cbv zeta. rewrite Hs.
  destruct (truthy_token_some _ Ht) as (t & E & Hne). rewrite E in *.
  unfold App.mount, App.render, App.tokenEffect, App.view. cbn.
  cbn in Ht. rewrite Ht. cbn. rewrite ?Ht. cbn. repeat split.
  rewrite Ht. reflexivity.
Qed.

Lemma session_survives_reload_witness :
  let s' := App.mount (App.localStorage App.loggedIn) in
  App.localStorage App.loggedIn = App.token App.loggedIn /\
  App.token s' = App.token App.loggedIn /\ App.view s' = App.HomeView /\
  App.requests s'
  = [App.mkFetch (API_BASE ++ "/auth/me") "GET" None
                 (Some (App.token App.loggedIn)) App.NoBody].
Proof.
  apply (session_survives_reload App.loggedIn).
  - apply App_reachable_run, App.reachable_mount.
  - reflexivity.
Defined.

(** Without a session the storage need not be empty: a login answered with
    [res.ok] and no token leaves nobody logged in (and the page [home], so
    the sign-up form shows), but stores the text ['undefined']; a reload
    takes that text for a token. *)
Example reload_after_login_without_token :
  App.reachable App.loginWithoutToken /\
  App.token App.loginWithoutToken = None /\
  App.view App.loginWithoutToken = App.SignupView /\
  App.isLoading App.loginWithoutToken = false /\
  App.localStorage App.loginWithoutToken = Some "undefined" /\
  let s' := App.mount (App.localStorage App.loginWithoutToken) in
  App.token s' = Some "undefined" /\ App.view s' = App.HomeView /\
  App.requests s'
  = [App.mkFetch (API_BASE ++ "/auth/me") "GET" None
                 (Some (Some "undefined")) App.NoBody].
Proof.
  split; [apply App_reachable_run, App.reachable_mount|].
  vm_compute. repeat split.
Qed.

(** X20. The session is written in two places only.  An event leaves the
    token and the stored token as they are, unless it is the answer to a
    login with [res.ok] whose members can be read: the token it brings goes
    into the state and its text into the storage (['undefined'] or ['null']
    when it brings none); or a logout (the Logout button, or [/auth/me]
    refusing the token), which empties both and shows the login view.  In
    particular a sign-up never logs in. *)
Theorem session_written_by_login_and_logout (s : App.State) (e : App.Event) :
  let s' := App.step e s in
  (App.token s' = App.token s /\ App.localStorage s' = App.localStorage s) \/
  (exists i data o,
      e = App.Resolve i (App.Answer true data) /\
      App.members data = Some o /\
      nth_error (App.pending s) i = Some App.AwaitLogin /\
      App.token s' = App.stateOf (App.data_token o) /\
      App.localStorage s' = Some (App.storedText (App.data_token o))) \/
  ((e = App.LogoutClick \/
    exists i data, e = App.Resolve i (App.Answer false data) /\
                   nth_error (App.pending s) i = Some App.AwaitFetchUser) /\
   App.token s' = None /\ App.localStorage s' = None /\
   App.view s' = App.LoginView).
Proof.
  cbv zeta. unfold App.step.
  destruct (App_render_session (App.token s) (App.handle e s)) as (-> & -> & _).
  destruct e; unfold App.handle.
  1-6, 8-9:
    left; destruct (App.view s); try (split; reflexivity);
    try (destruct (App.isLoading s); [split; reflexivity|]);
    try (destruct (HomePage_solveDisabled _ _); [split; reflexivity|]);
    destruct s; split; reflexivity.
  - destruct (App.view s) eqn:Hv; try (left; split; reflexivity);
      right; right; (split; [left; reflexivity|]);
      rewrite App_render_no_token by (destruct s; reflexivity);
      destruct s; cbn; repeat split.
  - unfold App.resolve.
    destruct (nth_error (App.pending s) i) as [k|] eqn:Hk;
      [|left; split; reflexivity].
    destruct k; cbn [App.resume];
      unfold App.fetchUser_resume, App.fetchSolves_resume,
        App.handleLogin_resume, App.handleSignup_resume,
        App.handleSolve_resume, App.networkError;
      destruct r as [|ok data]; try destruct ok;
      try destruct (App.members data) as [o|] eqn:Hm;
      try (destruct data; left; destruct s; split; reflexivity);
      try (left; destruct s; split; reflexivity);
      try (destruct (App.data_moves o); left; destruct s; split; reflexivity).
    + right; right. split; [right; eexists _, _; split; [reflexivity | exact Hk]|].
      rewrite App_render_no_token by (destruct s; reflexivity).
      destruct s; cbn; repeat split.
    + right; right. split; [right; eexists _, _; split; [reflexivity | exact Hk]|].
      rewrite App_render_no_token by (destruct s; reflexivity).
      destruct s; cbn; repeat split.
    + right; left. exists i, data, o. destruct s; cbn; repeat split; assumption.
Qed.



(** X22. [isLoading] is held by exactly one request at a time: it is true
    exactly while one login, sign-up or solve awaits its answer, and two of
    them are never under way together, because while it is true the three
    buttons that start them do nothing. *)
Theorem App_isLoading_one_request (s : App.State) :
  App.reachable s ->
  List.length (filter App.holdsLoading (App.pending s))
  = (if App.isLoading s then 1 else 0)%nat /\
  (App.isLoading s = true ->
   (forall email password, App.step (App.LoginClick email password) s = s) /\
   (forall name email password,
      App.step (App.SignupClick name email password) s = s) /\
   App.step App.SolveClick s = s).
Proof.
  intros Hr. apply App_reachable_Inv in Hr.
  split; [apply (App.inv_loading s Hr)|].
  intros Hl. unfold App.step, App.handle, HomePage_solveDisabled. rewrite Hl. cbn.
  repeat split; intros; destruct (App.view s); apply App_render_same.
Qed.

Lemma App_isLoading_one_request_witness :
  List.length (filter App.holdsLoading (App.pending App.loggedIn))
  = (if App.isLoading App.loggedIn then 1 else 0)%nat /\
  (App.isLoading App.loggedIn = true ->
   (forall email password,
      App.step (App.LoginClick email password) App.loggedIn = App.loggedIn) /\
   (forall name email password,
      App.step (App.SignupClick name email password) App.loggedIn = App.loggedIn) /\
   App.step App.SolveClick App.loggedIn = App.loggedIn).
Proof.
  apply (App_isLoading_one_request App.loggedIn).
  apply App_reachable_run, App.reachable_mount.
Defined.

(** X25. However the request of a login, a sign-up or a solve ends (the
    [fetch] throws, the body is no JSON, the answer is refused, or it lacks
    the members the code reads), the request is over and [isLoading] is
    false again: the [finally] of the three handlers. *)
Theorem every_answer_ends_loading (s : App.State) (i : nat) (k : App.Pending)
    (r : App.Response) :
  App.reachable s -> nth_error (App.pending s) i = Some k ->
  App.holdsLoading k = true ->
  let s' := App.step (App.Resolve i r) s in
  App.isLoading s' = false /\
  filter App.holdsLoading (App.pending s') = [].
Proof.
  intros Hr Hk Hh. cbv zeta.
  pose proof (App_reachable_Inv _ (App.reachable_step (App.Resolve i r) s Hr)) as H'.
  pose proof (App.inv_loading _ H') as Hl.
  assert (E : App.isLoading (App.step (App.Resolve i r) s) = false).
  { unfold App.step.
    destruct (App_render_session (App.token s) (App.handle (App.Resolve i r) s))
      as (_ & _ & -> & _).
    unfold App.handle.
    replace (match App.view s with
             | App.LoginView | _ => App.resolve i r s end)
      with (App.resolve i r s) by (destruct (App.view s); reflexivity).
    unfold App.resolve. rewrite Hk.
    destruct k; try discriminate Hh; cbn [App.resume];
      unfold App.handleLogin_resume, App.handleSignup_resume,
        App.handleSolve_resume, App.networkError;
      destruct r as [|ok data]; try destruct ok; try destruct data as [| |a|o];
      cbn; try reflexivity;
      destruct (App.data_moves o); reflexivity. }
  split; [exact E|]. rewrite E in Hl.
  destruct (filter _ _); [reflexivity | discriminate Hl].
Qed.

Lemma every_answer_ends_loading_witness :
  let s' := App.step (App.Resolve 1 App.Rejected) App.loggedIn in
  App.isLoading s' = false /\
  filter App.holdsLoading (App.pending s') = [].
Proof.
  apply (every_answer_ends_loading App.loggedIn 1 App.AwaitSolve App.Rejected).
  - apply App_reachable_run, App.reachable_mount.
  - reflexivity.
  - reflexivity.
Defined.

(** What ends a solve whose answer has no [moves]: the [catch]. *)
Example solve_answer_without_moves :
  let s := App.step (App.Resolve 1 (App.Answer true (App.JObject App.noMembers)))
             App.loggedIn in
  App.pending App.loggedIn = [App.AwaitFetchUser; App.AwaitSolve] /\
  App.isLoading App.loggedIn = true /\
  App.isLoading s = false /\ App.pending s = [App.AwaitFetchUser] /\
  App.alerts s = ["Network error"].
Proof. vm_compute. repeat split. Qed.

(** A refused login shows the error of the answer, or the fallback text when
    the answer has none. *)
Example refused_login_alerts :
  let s := App.step (App.LoginClick "a@b.c" "pw") (App.mount None) in
  let refusal error :=
    App.JObject {| App.data_token := App.Undefined;
                   App.data_user := App.Undefined;
                   App.data_error := error; App.data_moves := None;
                   App.data_numMoves := "undefined" |} in
  let shown data := App.alerts (App.step (App.Resolve 0 (App.Answer false data)) s) in
  shown (refusal (Some "Invalid credentials")) = ["Invalid credentials"] /\
  shown (refusal None) = ["Login failed"] /\
  shown App.JNull = ["Network error"] /\
  shown App.NotJson = ["Network error"].
Proof. vm_compute. repeat split. Qed.

(** X24. What a successful login shows depends on the token it brings.  The
    answer stores the token, ends [isLoading], and leads to the home view if
    the token is not empty; with an empty token the user is not logged in
    and, the page being [home], it is the sign-up form that appears. *)
Theorem login_answer_view (s : App.State) (i : nat) (tok : string) (u : App.User) :
  nth_error (App.pending s) i = Some App.AwaitLogin ->
  let s' := App.step (App.Resolve i (App.Answer true (App.LoginData tok u))) s in
  App.token s' = Some tok /\ App.localStorage s' = Some tok /\
  App.user s' = Some u /\ App.isLoading s' = false /\
  App.view s' = if truthy_string tok then App.HomeView else App.SignupView.
Proof.
  intros Hk. cbv zeta. unfold App.step, App.handle, App.resolve. rewrite Hk.
  cbn [App.resume]. unfold App.handleLogin_resume, App.LoginData.
  cbn [App.members App.data_token App.data_user App.stateOf App.storedText].
  unfold App.render, App.tokenEffect, App.view.
  destruct s; cbn -[truthy_string] in *.
  destruct (truthy_string tok) eqn:E;
    destruct (App.token_eqb token (Some tok)); cbn -[truthy_string];
    rewrite ?E; cbn; rewrite ?E; repeat split.
Qed.

Lemma login_answer_view_witness :
  let s := App.step (App.LoginClick "a@b.c" "pw") (App.mount None) in
  let s' := App.step (App.Resolve 0 (App.Answer true
              (App.LoginData "" (App.mkUser 1 "a@b.c" "Ann" "2024")))) s in
  App.token s' = Some "" /\ App.localStorage s' = Some "" /\
  App.user s' = Some (App.mkUser 1 "a@b.c" "Ann" "2024") /\
  App.isLoading s' = false /\
  App.view s' = if truthy_string "" then App.HomeView else App.SignupView.
Proof.
  apply (login_answer_view (App.step (App.LoginClick "a@b.c" "pw") (App.mount None)) 0).
  reflexivity.
Defined.
